(** * PDF-AI-Transcreator: extraction and speech routes

    A shallow embedding of [src/app/api/extract-pdf/route.ts], of the
    speech and transcreation handlers found in
    [src/app/api/generate-audio/route.ts], of the queries of
    [src/lib/database.ts] that they use and of the upload checks of
    [src/app/page.tsx], with the properties the specification states
    about them and further properties of the code.

    JavaScript strings are sequences of UTF-16 code units: they are
    modelled as [list N], one number per code unit, so that [length],
    [substring] and [lastIndexOf] count what the code counts. *)

From Stdlib Require Import ZArith NArith List Ascii String Lia Bool.
From Stdlib Require Import Numbers.DecimalString.
From stdpp Require Import base tactics option list gmap strings.
Import ListNotations.

Local Open Scope nat_scope.

(** ** JavaScript strings *)

Abbreviation jsstring := (list N).

(** A literal of the source, as code units (the literals of the source are
    all ASCII). *)
Definition js (s : string) : jsstring :=
  map (fun a => N_of_ascii a) (list_ascii_of_string s).

(** [String.prototype.substring(0, n)]. *)
Definition substring0 (n : nat) (s : jsstring) : jsstring := firstn n s.

Global Arguments substring0 : simpl never.

(** [String.prototype.lastIndexOf(c)] for a one-unit pattern: the largest
    index holding [c], or [-1]. *)
Fixpoint lastIndexOf (c : N) (s : jsstring) : Z :=
  match s with
  | [] => (-1)%Z
  | x :: r =>
      let k := lastIndexOf c r in
      if (0 <=? k)%Z then (k + 1)%Z
      else if N.eqb x c then 0%Z else (-1)%Z
  end.

(** [String.prototype.includes(needle)]. *)
Fixpoint startsWith (needle s : jsstring) : bool :=
  match needle, s with
  | [], _ => true
  | _ :: _, [] => false
  | a :: n', b :: s' => N.eqb a b && startsWith n' s'
  end.

Fixpoint includes (needle s : jsstring) : bool :=
  startsWith needle s ||
  match s with
  | [] => false
  | _ :: r => includes needle r
  end.

(** ** Character classes of the regular expressions *)

Module Char.

Definition space : N := 32.
Definition newline : N := 10.

(** [\s]: WhiteSpace and LineTerminator code points. *)
Definition isSpace (c : N) : bool :=
  ((9 <=? c) && (c <=? 13) || (c =? 32) || (c =? 160) || (c =? 5760)
   || (8192 <=? c) && (c <=? 8202) || (c =? 8232) || (c =? 8233)
   || (c =? 8239) || (c =? 8287) || (c =? 12288) || (c =? 65279))%N.

(** [\n]. *)
Definition isNewline (c : N) : bool := (c =? 10)%N.

(** [\w]: [A-Za-z0-9_]. *)
Definition isWord (c : N) : bool :=
  ((48 <=? c) && (c <=? 57) || (65 <=? c) && (c <=? 90) || (c =? 95)
   || (97 <=? c) && (c <=? 122))%N.

(** [[\.!\?]]: the sentence terminators. *)
Definition isTerminator (c : N) : bool :=
  ((c =? 46) || (c =? 33) || (c =? 63))%N.

(** The characters outside the negated class of the third replacement,
    which the cleaner keeps: word characters, white space, and
    . , ! ? - ( ) [ ] : and the double and single quotes. *)
Definition isAllowed (c : N) : bool :=
  (isWord c || isSpace c
   || (c =? 46) || (c =? 44) || (c =? 33) || (c =? 63) || (c =? 45)
   || (c =? 40) || (c =? 41) || (c =? 91) || (c =? 93) || (c =? 58)
   || (c =? 34) || (c =? 39))%N.

(* The classes are compared through their lemmas, not unfolded. *)
Global Arguments space : simpl never.
Global Arguments newline : simpl never.
Global Arguments isSpace : simpl never.
Global Arguments isNewline : simpl never.
Global Arguments isWord : simpl never.
Global Arguments isTerminator : simpl never.
Global Arguments isAllowed : simpl never.

End Char.

(** ** The text cleaner: [cleanAndProcessText] *)

Module Clean.
Import Char.

(** [s.replace(/p+/g, rep)]: every maximal run of characters of class
    [p] becomes the single unit [rep].  [in_run] records that the
    previous character belonged to the run being replaced. *)
Fixpoint replaceRuns (p : N -> bool) (rep : N) (in_run : bool)
    (s : jsstring) : jsstring :=
  match s with
  | [] => []
  | c :: r =>
      if p c then
        if in_run then replaceRuns p rep true r
        else rep :: replaceRuns p rep true r
      else c :: replaceRuns p rep false r
  end.

(** [.replace(/\s+/g, ' ')]. *)
Definition collapseWhitespace (s : jsstring) : jsstring :=
  replaceRuns isSpace space false s.

(** [.replace(/\n+/g, '\n')]. *)
Definition collapseNewlines (s : jsstring) : jsstring :=
  replaceRuns isNewline newline false s.

(** The third replacement: every character outside the allow-list
    becomes one space. *)
Definition stripSpecial (s : jsstring) : jsstring :=
  map (fun c => if isAllowed c then c else space) s.

(** The first character after the leading white space, if any. *)
Fixpoint dropSpaces (s : jsstring) : jsstring :=
  match s with
  | [] => []
  | c :: r => if isSpace c then dropSpaces r else s
  end.

Definition terminatorNext (s : jsstring) : bool :=
  match dropSpaces s with
  | [] => false
  | c :: _ => isTerminator c
  end.

(** [.replace(/\s+([\.!\?])/g, '$1')]: a maximal run of white space is
    deleted when a terminator follows it immediately; a white-space
    character is therefore deleted exactly when the first character
    after its run is a terminator. *)
Fixpoint tightenBefore (s : jsstring) : jsstring :=
  match s with
  | [] => []
  | c :: r =>
      if isSpace c && terminatorNext r then tightenBefore r
      else c :: tightenBefore r
  end.

(** [.replace(/([\.!\?])\s*/g, '$1 ')]: every terminator, with the
    white space after it, becomes the terminator and one space.
    [after] records that the scan is inside the white space following a
    terminator. *)
Fixpoint spaceAfter (after : bool) (s : jsstring) : jsstring :=
  match s with
  | [] => []
  | c :: r =>
      if isTerminator c then c :: space :: spaceAfter true r
      else if isSpace c && after then spaceAfter true r
      else c :: spaceAfter false r
  end.

(** [String.prototype.trim]: [trimStart] and [trimEnd], on the same
    white-space class as [\s]. *)
Definition trimStart (s : jsstring) : jsstring := dropSpaces s.

Fixpoint trimEnd (s : jsstring) : jsstring :=
  match s with
  | [] => []
  | c :: r =>
      match trimEnd r with
      | [] => if isSpace c then [] else [c]
      | r' => c :: r'
      end
  end.

Definition trim (s : jsstring) : jsstring := trimEnd (trimStart s).

Definition cleanAndProcessText (text : jsstring) : jsstring :=
  trim
    (spaceAfter false
       (tightenBefore
          (stripSpecial
             (collapseNewlines
                (collapseWhitespace text))))).

(** *** Shapes of cleaned text *)

(** Every character passes the allow-list of the third replacement. *)
Definition allAllowed (s : jsstring) : bool := forallb isAllowed s.

(** The only white space is the space character and no two spaces are
    adjacent; [prev] says that a space comes just before [s]. *)
Fixpoint singleSpaced (prev : bool) (s : jsstring) : Prop :=
  match s with
  | [] => True
  | c :: r =>
      if isSpace c then c = space /\ prev = false /\ singleSpaced true r
      else singleSpaced false r
  end.

(** No run of white space is followed by a terminator. *)
Fixpoint tight (s : jsstring) : Prop :=
  match s with
  | [] => True
  | c :: r => (isSpace c = true -> terminatorNext r = false) /\ tight r
  end.

End Clean.


(** ** Truncation to a character budget *)

Module Truncate.

(** *** Before transcreation: [extract-pdf/route.ts], lines 249-263 *)

Definition MAX_CHARS_EXTRACT : nat := 2200.

Global Arguments MAX_CHARS_EXTRACT : simpl never.

(** The block guarded by [finalText.length > MAX_CHARS], applied to the
    cleaned text; the result is [(finalText, wasTruncated)]. *)
Definition truncateExtracted (cleanedText : jsstring) : jsstring * bool :=
  if MAX_CHARS_EXTRACT <? length cleanedText then
    let truncated := substring0 MAX_CHARS_EXTRACT cleanedText in
    let lastPeriod := lastIndexOf 46 truncated in
    if (0 <? lastPeriod)%Z
    then (substring0 (Z.to_nat (lastPeriod + 1)) truncated, true)
    else (truncated, true)
  else (cleanedText, false).

(** *** Before speech: [generate-audio/route.ts], lines 37-55 *)

Definition MAX_CHARS_SPEECH : nat := 2000.

Global Arguments MAX_CHARS_SPEECH : simpl never.

Definition ellipsis : jsstring := js "...".

(** [Math.max(lastSentence, lastQuestion, lastExclamation)] on the cut
    text. *)
Definition cutPoint (truncated : jsstring) : Z :=
  let lastSentence := lastIndexOf 46 truncated in
  let lastQuestion := lastIndexOf 63 truncated in
  let lastExclamation := lastIndexOf 33 truncated in
  Z.max (Z.max lastSentence lastQuestion) lastExclamation.

(** [cutPoint > MAX_CHARS * 0.7].  The double-precision product
    [2000 * 0.7] is exactly [1400]; the comparison is written on
    integers as [7 * MAX_CHARS < 10 * cutPoint]. *)
Definition nearEnough (cut : Z) : bool :=
  (7 * Z.of_nat MAX_CHARS_SPEECH <? 10 * cut)%Z.

(** The value of [processedText] after lines 38-55. *)
Definition truncateForSpeech (text : jsstring) : jsstring :=
  if MAX_CHARS_SPEECH <? length text then
    let truncated := substring0 MAX_CHARS_SPEECH text in
    let cut := cutPoint truncated in
    if nearEnough cut
    then substring0 (Z.to_nat (cut + 1)) truncated
    else truncated ++ ellipsis
  else text.

(** *** Specification vocabulary *)

(** The largest index holding a character of class [p], or [-1]. *)
Fixpoint lastIndexWhere (p : N -> bool) (s : jsstring) : Z :=
  match s with
  | [] => (-1)%Z
  | x :: r =>
      let k := lastIndexWhere p r in
      if (0 <=? k)%Z then (k + 1)%Z else if p x then 0%Z else (-1)%Z
  end.

(** [c] is the largest index below [bound] at which [text] holds a
    sentence terminator. *)
Definition isLastTerminator (bound : nat) (text : jsstring) (c : nat) : Prop :=
  c < bound /\
  (exists x, text !! c = Some x /\ Char.isTerminator x = true) /\
  (forall j x, c < j < bound -> text !! j = Some x ->
               Char.isTerminator x = false).

(** No sentence terminator below [bound]. *)
Definition noTerminator (bound : nat) (text : jsstring) : Prop :=
  forall j x, j < bound -> text !! j = Some x -> Char.isTerminator x = false.

End Truncate.

(** ** Thrown errors and the file system *)

Module Js.

(** A call either returns or throws an [Error] with a message. *)
Inductive Outcome (A : Type) : Type :=
| Returned (a : A)
| Thrown (message : jsstring).
Global Arguments Returned {A} a.
Global Arguments Thrown {A} message.

(** What a path holds. *)
Inductive Kind : Type := RegularFile | Directory.

(** The file system: what exists, by path. *)
Abbreviation FS := (gmap jsstring Kind).

(** [path ∈ fs]: something exists at [path]. *)
Global Instance path_exists : ElemOf jsstring FS :=
  fun path fs => is_Some (fs !! path).

Global Instance path_exists_dec (path : jsstring) (fs : FS)
  : Decision (path ∈ fs) := is_Some_dec (fs !! path).

(** Code that reads and changes the file system and may throw. *)
Definition M (A : Type) : Type := FS -> Outcome A * FS.

Definition ret {A} (a : A) : M A := fun fs => (Returned a, fs).
Definition throw {A} (message : jsstring) : M A := fun fs => (Thrown message, fs).
Definition bind {A B} (m : M A) (k : A -> M B) : M B :=
  fun fs =>
    match m fs with
    | (Returned a, fs') => k a fs'
    | (Thrown e, fs') => (Thrown e, fs')
    end.

(** [try { body } catch (e) { handler(e) }]. *)
Definition tryCatch {A} (body : M A) (handler : jsstring -> M A) : M A :=
  fun fs =>
    match body fs with
    | (Returned a, fs') => (Returned a, fs')
    | (Thrown e, fs') => handler e fs'
    end.

(** [try { body } finally { finalizer }]: the finalizer runs on every
    exit of the body; if it throws, its error replaces the outcome. *)
Definition tryFinally {A} (body : M A) (finalizer : M unit) : M A :=
  fun fs =>
    match body fs with
    | (o, fs') =>
        match finalizer fs' with
        | (Returned _, fs'') => (o, fs'')
        | (Thrown e, fs'') => (Thrown e, fs'')
        end
    end.

(** [fs.existsSync(path)]. *)
Definition existsSync (path : jsstring) : M bool :=
  fun fs => (Returned (bool_decide (path ∈ fs)), fs).

Definition ENOENT : jsstring := js "ENOENT: no such file or directory".
Definition EISDIR : jsstring := js "EISDIR: illegal operation on a directory".

(** [fs.unlinkSync(path)] removes an existing file; on a directory and
    on a missing path it throws and changes nothing. *)
Definition unlinkSync (path : jsstring) : M unit :=
  fun fs =>
    match fs !! path with
    | Some RegularFile => (Returned tt, delete path fs)
    | Some Directory => (Thrown EISDIR, fs)
    | None => (Thrown ENOENT, fs)
    end.

(** A call that writes a file at [path].  [failure] is the error the
    call throws, if it does (as it does when [path] holds a directory);
    [leaves] tells whether a failed call still left a file at [path].
    After a call that succeeds [path] holds a file. *)
Definition create (path : jsstring) (failure : option jsstring)
    (leaves : bool) : M unit :=
  fun fs =>
    match failure with
    | None => (Returned tt, <[path := RegularFile]> fs)
    | Some e => (Thrown e, if leaves then <[path := RegularFile]> fs else fs)
    end.

(** [fs.mkdirSync(path, { recursive: true })]: a directory at [path],
    or the error [failure] and nothing. *)
Definition mkdirSync (path : jsstring) (failure : option jsstring) : M unit :=
  fun fs =>
    match failure with
    | None => (Returned tt, <[path := Directory]> fs)
    | Some e => (Thrown e, fs)
    end.

(** [fs.writeFileSync(path, data)]; the file system records what exists
    at each path, not what the files hold. *)
Definition writeFileSync (path : jsstring) (data : list N)
    (failure : option jsstring) (leaves : bool) : M unit :=
  create path failure leaves.


End Js.

Notation "'let*' x := m 'in' k" := (Js.bind m (fun x => k))
  (at level 10, x name, m at level 100, k at level 200, only parsing).
Notation "m >> k" := (Js.bind m (fun _ => k))
  (at level 60, right associativity, only parsing).

(** ** The OCR fallback: [extractTextWithOCR] *)

Module Ocr.
Import Js.

(** What [convert(pageNum, ...)] of pdf2pic does for a page: it throws,
    or it returns a result whose [path] names the image it wrote (an
    empty [path] stands for a result without one). *)
Inductive ConvertResult : Type :=
| ConvertThrows (message : jsstring)
| ConvertOk (path : jsstring).

(** What [tesseract.recognize] does on the image of a page. *)
Inductive RecognizeResult : Type :=
| RecognizeThrows (message : jsstring)
| RecognizeOk (pageText : jsstring).

(** The behaviour of the runtime and of the two libraries during one
    call. *)
Record Env : Type := {
  cwd : jsstring;                                (* process.cwd() *)
  path_join : jsstring -> jsstring -> jsstring;  (* path.join *)
  now : N;                                       (* Date.now() *)
  mkdirError : option jsstring;      (* fs.mkdirSync throws this *)
  writeError : option jsstring;      (* fs.writeFileSync throws this *)
  writeLeavesFile : bool;            (* a failed write left a file *)
  fromPathError : option jsstring;   (* pdf2pic.fromPath throws this *)
  convert : nat -> ConvertResult;
  recognize : nat -> RecognizeResult
}.

(** A number in a template literal. *)
Definition decimal (n : N) : jsstring :=
  js (NilZero.string_of_uint (N.to_uint n)).

Definition tempDir (env : Env) : jsstring :=
  path_join env (cwd env) (js "temp").

Definition tempPdfPath (env : Env) (filename : jsstring) : jsstring :=
  path_join env (tempDir env) (decimal (now env) ++ js "-" ++ filename).

(** The body of the inner [try] for one page, lines 37-57, with its
    [catch] of lines 58-61; the result is the new [extractedText]. *)
Definition ocrPage (env : Env) (pageNum : nat) (extractedText : jsstring)
    : M jsstring :=
  tryCatch
    (match convert env pageNum with
     | ConvertThrows e => throw e
     | ConvertOk path =>
         match path with
         | [] => ret extractedText
         | _ :: _ =>
             create path None false >>      (* the image pdf2pic wrote *)
             match recognize env pageNum with
             | RecognizeThrows e => throw e
             | RecognizeOk pageText =>
                 let extractedText' :=
                   match Clean.trim pageText with
                   | [] => extractedText
                   | t => extractedText ++ t ++ [Char.newline; Char.newline]
                   end in
                 let* present := existsSync path in
                 (if present then unlinkSync path else ret tt) >>
                 ret extractedText'
             end
         end
     end)
    (fun _ => ret extractedText).

(** [for (let pageNum = 1; pageNum <= 3; pageNum++)]. *)
Definition ocrPages (env : Env) : M jsstring :=
  let* t1 := ocrPage env 1 [] in
  let* t2 := ocrPage env 2 t1 in
  ocrPage env 3 t2.

Definition OCR_FAILED : jsstring := js "Failed to extract text using OCR".

(** The [finally] block, lines 69-74. *)
Definition cleanup (path : jsstring) : M unit :=
  let* present := existsSync path in
  if present then unlinkSync path else ret tt.

Definition extractTextWithOCR (env : Env) (buffer : list N)
    (filename : jsstring) : M jsstring :=
  let* present := existsSync (tempDir env) in
  (if present then ret tt else mkdirSync (tempDir env) (mkdirError env)) >>
  tryFinally
    (tryCatch
       (writeFileSync (tempPdfPath env filename) buffer
          (writeError env) (writeLeavesFile env) >>
        match fromPathError env with
        | Some e => throw e
        | None =>
            let* extractedText := ocrPages env in
            ret (Clean.trim extractedText)
        end)
       (fun _ => throw OCR_FAILED))
    (cleanup (tempPdfPath env filename)).

(** *** Specification vocabulary *)

(** What a page adds to the text: nothing when its conversion or its
    recognition fails or yields blank text. *)
Definition pageContribution (env : Env) (pageNum : nat) : jsstring :=
  match convert env pageNum with
  | ConvertOk (_ :: _) =>
      match recognize env pageNum with
      | RecognizeOk pageText =>
          match Clean.trim pageText with
          | [] => []
          | t => t ++ [Char.newline; Char.newline]
          end
      | RecognizeThrows _ => []
      end
  | _ => []
  end.

(** The outer [try] block with its [catch], lines 21-68. *)
Definition tryBlock (env : Env) (buffer : list N) (filename : jsstring)
    : M jsstring :=
  tryCatch
    (writeFileSync (tempPdfPath env filename) buffer
       (writeError env) (writeLeavesFile env) >>
     match fromPathError env with
     | Some e => throw e
     | None =>
         let* extractedText := ocrPages env in
         ret (Clean.trim extractedText)
     end)
    (fun _ => throw OCR_FAILED).

(** The try block is entered: the directory step did not throw. *)
Definition entered (env : Env) (fs : FS) : Prop :=
  tempDir env ∈ fs \/ mkdirError env = None.

(** The steps outside the per-page [try] all succeed. *)
Definition outerStepsSucceed (env : Env) (fs : FS) : Prop :=
  (tempDir env ∈ fs \/ mkdirError env = None) /\
  writeError env = None /\ fromPathError env = None.

End Ocr.

(** ** The text-layer extractor: the [PdfReader] callback *)

Module PdfText.

(** An item delivered by [PdfReader]: its [page] and [text] properties,
    when present. *)
Record Item : Type := { page : option Z; text : option jsstring }.

(** One invocation [(err, item)] of the callback. *)
Inductive Callback : Type :=
| CbError (message : jsstring)   (* err is set *)
| CbItem (item : Item)
| CbEnd.                         (* no item: end of file *)

(** How the promise was settled. *)
Inductive Settlement : Type :=
| Resolved (value : jsstring)
| Rejected (message : jsstring).

(** The variables the callback closes over, and the promise. *)
Record State : Type := {
  acc : jsstring;         (* text *)
  pageCount : Z;
  currentPage : Z;
  totalPages : Z;
  settled : option Settlement
}.

Definition maxPages : Z := 3.

Definition initial : State :=
  {| acc := []; pageCount := 0; currentPage := 0; totalPages := 0;
     settled := None |}.

(** [resolve] and [reject] only act on a pending promise. *)
Definition settle (s : Settlement) (st : State) : State :=
  match settled st with
  | Some _ => st
  | None =>
      {| acc := acc st; pageCount := pageCount st;
         currentPage := currentPage st; totalPages := totalPages st;
         settled := Some s |}
  end.

Definition setTotalPages (st : State) : State :=
  {| acc := acc st; pageCount := pageCount st;
     currentPage := currentPage st; totalPages := pageCount st;
     settled := settled st |}.

(** [if (item.page)]: a number other than zero. *)
Definition truthyPage (item : Item) : option Z :=
  match page item with
  | Some p => if (p =? 0)%Z then None else Some p
  | None => None
  end.

(** [if (item.text)]: a string other than the empty one. *)
Definition truthyText (item : Item) : option jsstring :=
  match text item with
  | Some (c :: r) => Some (c :: r)
  | _ => None
  end.

(** [if (item.text && currentPage <= maxPages) text += item.text + ' ']. *)
Definition addText (item : Item) (st : State) : State :=
  match truthyText item with
  | Some t =>
      if (currentPage st <=? maxPages)%Z then
        {| acc := acc st ++ t ++ [Char.space]; pageCount := pageCount st;
           currentPage := currentPage st; totalPages := totalPages st;
           settled := settled st |}
      else st
  | None => st
  end.

Definition PARSE_FAILED : jsstring := js "PDF parsing failed: ".

(** The callback, lines 186-223. *)
Definition onItem (st : State) (cb : Callback) : State :=
  match cb with
  | CbError message => settle (Rejected (PARSE_FAILED ++ message)) st
  | CbEnd =>
      let st := setTotalPages st in
      settle (Resolved (Clean.trim (acc st))) st
  | CbItem item =>
      match truthyPage item with
      | Some p =>
          let st :=
            {| acc := acc st; pageCount := Z.max (pageCount st) p;
               currentPage := p; totalPages := totalPages st;
               settled := settled st |} in
          if (maxPages <? p)%Z then
            let st := setTotalPages st in
            settle (Resolved (Clean.trim (acc st))) st
          else addText item st
      | None => addText item st
      end
  end.

(** [PdfReader] delivers its callbacks one after the other; the handler
    resumes after the last of them, with the promise as first settled. *)
Definition parse (events : list Callback) : State :=
  fold_left onItem events initial.

(** *** Specification vocabulary *)

(** The text tokens of a stream, each with the page it is delivered for:
    the page of the most recent page item, [cur] before the first. *)
Fixpoint tokens (cur : Z) (events : list Callback) : list (Z * jsstring) :=
  match events with
  | [] => []
  | CbItem item :: rest =>
      let cur' := match truthyPage item with Some p => p | None => cur end in
      match truthyText item with
      | Some t => (cur', t) :: tokens cur' rest
      | None => tokens cur' rest
      end
  | _ :: rest => tokens cur rest
  end.

(** The tokens of pages up to the cap, each followed by a space. *)
Definition withinCap (toks : list (Z * jsstring)) : jsstring :=
  flat_map (fun pt => if (fst pt <=? maxPages)%Z
                      then snd pt ++ [Char.space] else []) toks.

(** The highest page number among the page items of a stream, from
    [start]. *)
Fixpoint highestPage (start : Z) (events : list Callback) : Z :=
  match events with
  | [] => start
  | CbItem item :: rest =>
      match truthyPage item with
      | Some p => highestPage (Z.max start p) rest
      | None => highestPage start rest
      end
  | _ :: rest => highestPage start rest
  end.

(** A page item beyond the cap. *)
Definition overCap (item : Item) : Prop :=
  exists p, truthyPage item = Some p /\ (maxPages < p)%Z.

End PdfText.

(** ** The document table: [documentQueries] *)

Module Database.

(** A row of [documents]; the columns with defaults that the handler
    never reads are left out. *)
Record Document : Type := {
  id : Z;
  filename : jsstring;
  original_filename : jsstring;
  file_size : Z;
  extracted_text : jsstring;
  page_count : Z;
  extracted_pages : Z
}.

(** The table in rowid order, and the AUTOINCREMENT counter. *)
Record Db : Type := { documents : list Document; sequence : Z }.

Definition empty : Db := {| documents := []; sequence := 0 |}.

(** [findByFilename.get(name)]: the first row of
    [SELECT * FROM documents WHERE filename = ?], a scan in rowid
    order. *)
Definition findByFilename (db : Db) (name : jsstring) : option Document :=
  List.find (fun d => bool_decide (filename d = name)) (documents db).

(** [insert.run(...)]: the new table and [lastInsertRowid]. *)
Definition insert (db : Db) (fname oname : jsstring) (fsize : Z)
    (etext : jsstring) (pcount epages : Z) : Db * Z :=
  let rowid := (sequence db + 1)%Z in
  ({| documents :=
        documents db ++
        [{| id := rowid; filename := fname; original_filename := oname;
            file_size := fsize; extracted_text := etext;
            page_count := pcount; extracted_pages := epages |}];
      sequence := rowid |},
   rowid).

End Database.

(** ** The extraction handler: [POST] of [extract-pdf/route.ts] *)

Module ExtractPdf.
Import Js.

(** The uploaded [File]. *)
Record File : Type := {
  name : jsstring;
  type : jsstring;
  size : Z;
  bytes : list N          (* file.arrayBuffer() *)
}.

Inductive Json : Type :=
| JString (s : jsstring)
| JNumber (n : Z)
| JBool (b : bool).

(** [NextResponse.json(body, { status })]; the body is a JavaScript
    object, a finite map from property names to values. *)
Record Response : Type := { status : Z; body : gmap string Json }.

(** What the handler asks of the libraries: the callbacks [PdfReader]
    delivers for a buffer, and the environment of the OCR fallback. *)
Record External : Type := {
  pdfEvents : list N -> list PdfText.Callback;
  ocrEnv : Ocr.Env
}.

(** The components a request reached, in order. *)
Inductive Call : Type := CallPdfReader | CallOcr | CallInsert.

(** The outcome of a request: the response ([None] when the promise of
    the parser is never settled and the handler never answers), the
    table and the file system it leaves, and the components it used. *)
Record Run : Type := {
  response : option Response;
  db : Database.Db;
  files : FS;
  calls : list Call
}.

Definition errorBody (message : string) : gmap string Json :=
  {[ "error"%string := JString (js message) ]}.

Definition length_of (s : jsstring) : Z := Z.of_nat (length s).

(** The response of lines 146-155. *)
Definition cachedResponse (doc : Database.Document) : Response :=
  {| status := 200;
     body :=
       <[ "text"%string := JString (Database.extracted_text doc) ]>
       (<[ "pages"%string := JNumber (Database.page_count doc) ]>
       (<[ "extractedPages"%string := JNumber (Database.extracted_pages doc) ]>
       (<[ "extractedLength"%string :=
             JNumber (length_of (Database.extracted_text doc)) ]>
       (<[ "originalLength"%string :=
             JNumber (length_of (Database.extracted_text doc)) ]>
       (<[ "filename"%string := JString (Database.original_filename doc) ]>
       (<[ "documentId"%string := JNumber (Database.id doc) ]>
       (<[ "cached"%string := JBool true ]> ∅))))))) |}.

(** The response of lines 279-289. *)
Definition freshResponse (finalText : jsstring) (totalPages : Z)
    (originalLength : Z) (wasTruncated : bool) (fname : jsstring)
    (documentId : Z) : Response :=
  {| status := 200;
     body :=
       <[ "text"%string := JString finalText ]>
       (<[ "pages"%string := JNumber totalPages ]>
       (<[ "extractedPages"%string :=
             JNumber (if (3 <? totalPages)%Z then 3 else totalPages) ]>
       (<[ "originalLength"%string := JNumber originalLength ]>
       (<[ "extractedLength"%string := JNumber (length_of finalText) ]>
       (<[ "wasTruncated"%string := JBool wasTruncated ]>
       (<[ "filename"%string := JString fname ]>
       (<[ "documentId"%string := JNumber documentId ]>
       (<[ "cached"%string := JBool false ]> ∅)))))))) |}.

Definition respond (st : Z) (message : string) : Response :=
  {| status := st; body := errorBody message |}.

(** The validation of lines 108-133, once a file is there: the response
    that rejects the upload, if any. *)
Definition validate (file : File) : option Response :=
  if negb (bool_decide (type file = js "application/pdf"))
  then Some (respond 400 "File must be a PDF")
  else if (10 * 1024 * 1024 <? size file)%Z
  then Some (respond 400 "File size must be less than 10MB")
  else if (size file <? 100)%Z
  then Some (respond 400 "File appears to be corrupted or empty")
  else None.

(** The cache check of lines 136-144: the row found by file name, when
    its size is the size of the upload. *)
Definition cacheCheck (d : Database.Db) (file : File)
    : option Database.Document :=
  match Database.findByFilename d (name file) with
  | Some existingDoc =>
      if (Database.file_size existingDoc =? size file)%Z
      then Some existingDoc else None
  | None => None
  end.

(** Lines 158-224: the buffer checks and the text-layer extraction.  The
    result is what [await] yields, with [totalPages] ([None] when the
    promise stays pending), and whether [PdfReader] was started. *)
Definition textLayer (ext : External) (file : File)
    : list Call * option (Outcome (jsstring * Z)) :=
  match bytes file with
  | [] => ([], Some (Thrown (js "File buffer is empty")))
  | _ :: _ =>
      if negb (bool_decide (take 4 (bytes file) = [37; 80; 68; 70]%N))
      then ([], Some (Thrown (js "Invalid PDF file - missing PDF header")))
      else
        let st := PdfText.parse (pdfEvents ext (bytes file)) in
        ([CallPdfReader],
         match PdfText.settled st with
         | Some (PdfText.Resolved t) =>
             Some (Returned (t, PdfText.totalPages st))
         | Some (PdfText.Rejected e) => Some (Thrown e)
         | None => None
         end)
  end.

Definition NO_TEXT : string :=
  "Could not extract text from PDF. The document may be empty, corrupted, or an unsupported format.".

(** The [catch] of lines 290-329, for a thrown [Error]. *)
Definition handleError (message : jsstring) : Response :=
  if includes (js "PDF header") message
  then respond 400 "Invalid PDF file format. Please ensure you uploaded a valid PDF."
  else if includes (js "Password") message || includes (js "password") message
  then respond 400 "Password-protected PDFs are not supported"
  else if includes (js "meaningful text") message
          || includes (js "image-based") message
  then respond 400 "Could not extract text from PDF. The PDF might be image-based or contain mostly graphics."
  else if includes (js "empty") message || includes (js "corrupted") message
  then respond 400 "PDF file appears to be corrupted or empty"
  else respond 500 "Failed to process PDF. Please ensure the PDF contains selectable text and try again.".

(** Lines 243-289: cleaning, truncation, storage and the response. *)
Definition store (d : Database.Db) (fs : FS) (file : File)
    (extractedText : jsstring) (totalPages : Z) (used : list Call) : Run :=
  let cleanedText := Clean.cleanAndProcessText extractedText in
  let originalLength := length_of cleanedText in
  let '(finalText, wasTruncated) := Truncate.truncateExtracted cleanedText in
  let '(d', documentId) :=
    Database.insert d (name file) (name file) (size file) finalText
      totalPages (if (3 <? totalPages)%Z then 3 else totalPages) in
  {| response := Some (freshResponse finalText totalPages originalLength
                         wasTruncated (name file) documentId);
     db := d'; files := fs; calls := used ++ [CallInsert] |}.

(** Lines 226-289: what follows the text-layer extraction. *)
Definition afterTextLayer (ext : External) (d : Database.Db) (fs : FS)
    (file : File) (extractedText : jsstring) (totalPages : Z) : Run :=
  if length (Clean.trim extractedText) <? 50 then
    match Ocr.extractTextWithOCR (ocrEnv ext) (bytes file) (name file) fs with
    | (Thrown e, fs') =>
        {| response := Some (handleError e); db := d; files := fs';
           calls := [CallPdfReader; CallOcr] |}
    | (Returned ocrText, fs') =>
        match Clean.trim ocrText with
        | [] =>
            {| response := Some (respond 400 NO_TEXT); db := d;
               files := fs'; calls := [CallPdfReader; CallOcr] |}
        | _ :: _ =>
            store d fs' file ocrText totalPages [CallPdfReader; CallOcr]
        end
    end
  else store d fs file extractedText totalPages [CallPdfReader].

(** The handler.  A request is represented by the [file] entry of its
    form data, [None] when there is none. *)
Definition POST (ext : External) (d : Database.Db) (fs : FS)
    (request : option File) : Run :=
  match request with
  | None =>
      {| response := Some (respond 400 "No file provided"); db := d;
         files := fs; calls := [] |}
  | Some file =>
      match validate file with
      | Some rejection =>
          {| response := Some rejection; db := d; files := fs; calls := [] |}
      | None =>
          match cacheCheck d file with
          | Some existingDoc =>
              {| response := Some (cachedResponse existingDoc); db := d;
                 files := fs; calls := [] |}
          | None =>
              match textLayer ext file with
              | (used, Some (Thrown e)) =>
                  {| response := Some (handleError e); db := d; files := fs;
                     calls := used |}
              | (_, Some (Returned (extractedText, totalPages))) =>
                  afterTextLayer ext d fs file extractedText totalPages
              | (used, None) =>
                  {| response := None; db := d; files := fs; calls := used |}
              end
          end
      end
  end.

(** *** Specification vocabulary *)

(** The request reaches line 226 with [extractedText = t]: it passes
    validation, misses the cache, and the text-layer extraction
    resolves. *)
Definition extracts (ext : External) (d : Database.Db)
    (request : option File) (t : jsstring) : Prop :=
  exists file totalPages,
    request = Some file /\ validate file = None /\
    cacheCheck d file = None /\
    snd (textLayer ext file) = Some (Returned (t, totalPages)).

(** The cache check when [.get] returns the row that [pick] chooses
    among the rows bearing the file name; [cacheCheck] is the case where
    it is the first. *)
Definition cacheCheckWith
    (pick : list Database.Document -> option Database.Document)
    (d : Database.Db) (file : File) : option Database.Document :=
  match pick (List.filter
                (fun doc => bool_decide (Database.filename doc = name file))
                (Database.documents d)) with
  | Some existingDoc =>
      if (Database.file_size existingDoc =? size file)%Z
      then Some existingDoc else None
  | None => None
  end.

(** A property of the response body, when there is a response. *)
Definition field (r : Run) (key : string) : option Json :=
  match response r with
  | Some resp => body resp !! key
  | None => None
  end.

End ExtractPdf.

(** ** A concrete deployment, for the examples *)

Module Scenario.
Import ExtractPdf.

(** A runtime in which every step of the OCR fallback succeeds and
    every page is recognised. *)
Definition env : Ocr.Env :=
  {| Ocr.cwd := js "/app";
     Ocr.path_join := fun a b => a ++ js "/" ++ b;
     Ocr.now := 1700000000000%N;
     Ocr.mkdirError := None;
     Ocr.writeError := None;
     Ocr.writeLeavesFile := false;
     Ocr.fromPathError := None;
     Ocr.convert := fun n => Ocr.ConvertOk (js "/app/temp/page.png");
     Ocr.recognize := fun n => Ocr.RecognizeOk (js " scanned ") |}.

Definition pageItem (p : Z) : PdfText.Callback :=
  PdfText.CbItem {| PdfText.page := Some p; PdfText.text := None |}.

Definition textItem (s : string) : PdfText.Callback :=
  PdfText.CbItem {| PdfText.page := None; PdfText.text := Some (js s) |}.

(** A five-page document with a text layer: what [PdfReader] delivers
    up to the end of page 3, and after the item of page 4. *)
Definition beforeCap : list PdfText.Callback :=
  [ pageItem 1; textItem "This is the first page of the paper, with enough text.";
    pageItem 2; textItem "Second.";
    pageItem 3; textItem "Third" ].

Definition afterCap : list PdfText.Callback :=
  [ textItem "Fourth"; pageItem 5; PdfText.CbEnd ].

Definition events : list PdfText.Callback :=
  beforeCap ++ pageItem 4 :: afterCap.

Definition ext : External :=
  {| pdfEvents := fun _ => events; ocrEnv := env |}.

(** A scanned document: page 1 cannot be converted, page 2 is
    recognised, the recognition of page 3 fails. *)
Definition scanEnv : Ocr.Env :=
  {| Ocr.cwd := js "/app";
     Ocr.path_join := fun a b => a ++ js "/" ++ b;
     Ocr.now := 1700000000000%N;
     Ocr.mkdirError := None;
     Ocr.writeError := None;
     Ocr.writeLeavesFile := false;
     Ocr.fromPathError := None;
     Ocr.convert := fun n =>
       match n with
       | 1 => Ocr.ConvertThrows (js "conversion failed")
       | _ => Ocr.ConvertOk (js "/app/temp/page.png")
       end;
     Ocr.recognize := fun n =>
       match n with
       | 2 => Ocr.RecognizeOk (js " scanned ")
       | _ => Ocr.RecognizeThrows (js "tesseract failed")
       end |}.

(** A scanned document without a text layer. *)
Definition scanExt : External :=
  {| pdfEvents := fun _ => [pageItem 1; PdfText.CbEnd]; ocrEnv := scanEnv |}.


(** An upload named [x/..]: [path.join] resolves the path of the
    temporary PDF to the [temp] directory itself, where the write
    fails. *)
Definition dirEnv : Ocr.Env :=
  {| Ocr.cwd := js "/app";
     Ocr.path_join := fun a b =>
       if bool_decide (b = js "temp") then a ++ js "/temp" else a;
     Ocr.now := 1700000000000%N;
     Ocr.mkdirError := None;
     Ocr.writeError := Some Js.EISDIR;
     Ocr.writeLeavesFile := false;
     Ocr.fromPathError := None;
     Ocr.convert := fun n => Ocr.ConvertThrows (js "unreachable");
     Ocr.recognize := fun n => Ocr.RecognizeThrows (js "unreachable") |}.

(** A document none of whose pages can be converted, and one without a
    text layer. *)
Definition blankEnv : Ocr.Env :=
  {| Ocr.cwd := js "/app";
     Ocr.path_join := fun a b => a ++ js "/" ++ b;
     Ocr.now := 1700000000000%N;
     Ocr.mkdirError := None;
     Ocr.writeError := None;
     Ocr.writeLeavesFile := false;
     Ocr.fromPathError := None;
     Ocr.convert := fun n => Ocr.ConvertThrows (js "conversion failed");
     Ocr.recognize := fun n => Ocr.RecognizeThrows (js "tesseract failed") |}.

Definition blankExt : External :=
  {| pdfEvents := fun _ => [pageItem 1; PdfText.CbEnd]; ocrEnv := blankEnv |}.

(** Two different files uploaded under the same name. *)
Definition older : File :=
  {| name := js "paper.pdf"; type := js "application/pdf"; size := 1000;
     bytes := js "%PDF" ++ repeat 0%N 996 |}.

Definition upload : File :=
  {| name := js "paper.pdf"; type := js "application/pdf"; size := 2000;
     bytes := js "%PDF" ++ repeat 1%N 1996 |}.

(** [paper.pdf] of 1000 bytes is uploaded, then [paper.pdf] of 2000
    bytes twice. *)
Definition first : Run := POST ext Database.empty ∅ (Some older).
Definition second : Run := POST ext (db first) (files first) (Some upload).
Definition third : Run := POST ext (db second) (files second) (Some upload).

End Scenario.

(** ** Voice selection: [generate-audio/route.ts], lines 57-66 *)

Module Voice.

(** The value of a property read. *)
Inductive Value : Type :=
| VUndefined
| VString (s : jsstring)
| VInherited (property : string).   (* a member of Object.prototype *)

(** The own properties of the object literal [voiceMap]. *)
Definition voiceMap : gmap jsstring jsstring :=
  <[ js "Hindi" := js "pNInz6obpgDQGcFmaJgB" ]>
  (<[ js "Telugu" := js "pNInz6obpgDQGcFmaJgB" ]>
  (<[ js "Spanish" := js "EXAVITQu4vr4xnSDxMaL" ]>
  (<[ js "French" := js "EXAVITQu4vr4xnSDxMaL" ]>
  (<[ js "Chinese" := js "EXAVITQu4vr4xnSDxMaL" ]> ∅)))).

(** An object literal inherits from [Object.prototype]; these are its
    properties. *)
Definition objectPrototype : list string :=
  [ "constructor"; "__defineGetter__"; "__defineSetter__";
    "hasOwnProperty"; "__lookupGetter__"; "__lookupSetter__";
    "isPrototypeOf"; "propertyIsEnumerable"; "toString"; "valueOf";
    "__proto__"; "toLocaleString" ]%string.

(** [obj[key]]: an own property, else an inherited one, else
    [undefined]. *)
Definition get (own : gmap jsstring jsstring) (key : jsstring) : Value :=
  match own !! key with
  | Some v => VString v
  | None =>
      match List.find (fun p => bool_decide (js p = key)) objectPrototype with
      | Some p => VInherited p
      | None => VUndefined
      end
  end.

(** Truthiness of a value: [undefined] and the empty string are
    falsy, functions and objects are truthy. *)
Definition truthy (v : Value) : bool :=
  match v with
  | VUndefined => false
  | VString [] => false
  | VString (_ :: _) => true
  | VInherited _ => true
  end.

Definition DEFAULT_VOICE : jsstring := js "pNInz6obpgDQGcFmaJgB".

(** [voiceMap[language] || 'pNInz6obpgDQGcFmaJgB']. *)
Definition voiceId (language : jsstring) : Value :=
  let v := get voiceMap language in
  if truthy v then v else VString DEFAULT_VOICE.

End Voice.

(** ** Vocabulary for further properties of the cleaner and the truncations *)

Module Shape.
Import Char.

(** The only white-space character of [s] is the space. *)
Definition onlySpaces (s : jsstring) : Prop :=
  List.Forall (fun c => isSpace c = true -> c = space) s.

(** Every sentence terminator of [s] is followed by a space, or ends
    [s]. *)
Fixpoint spacedAfter (s : jsstring) : Prop :=
  match s with
  | [] => True
  | c :: r =>
      (isTerminator c = true ->
       match r with [] => True | x :: _ => x = space end) /\
      spacedAfter r
  end.

(** [c] is the largest index below [bound] at which [text] holds a
    full stop. *)
Definition isLastPeriod (bound : nat) (text : jsstring) (c : nat) : Prop :=
  c < bound /\
  text !! c = Some 46%N /\
  (forall j, c < j < bound -> text !! j <> Some 46%N).

(** No full stop below [bound]. *)
Definition noPeriod (bound : nat) (text : jsstring) : Prop :=
  forall j, j < bound -> text !! j <> Some 46%N.

(** No character of [s] is a word character or one of the listed
    punctuation marks: each is white space or outside the allow-list. *)
Definition symbolsOnly (s : jsstring) : bool :=
  forallb (fun c => negb (isAllowed c) || isSpace c) s.

End Shape.

Module PdfShape.
Import PdfText.

(** The stream holds nothing that settles the promise: no error, no end
    of file, no page item beyond the cap. *)
Definition withinLimit (events : list Callback) : bool :=
  forallb (fun cb =>
             match cb with
             | CbItem item =>
                 match truthyPage item with
                 | Some p => (p <=? maxPages)%Z
                 | None => true
                 end
             | _ => false
             end) events.

(** Every text token of the stream, each followed by a space. *)
Definition allText (events : list Callback) : jsstring :=
  flat_map (fun cb =>
              match cb with
              | CbItem item =>
                  match truthyText item with
                  | Some t => t ++ [Char.space]
                  | None => []
                  end
              | _ => []
              end) events.

End PdfShape.

Module OcrShape.
Import Ocr.

(** The text a page yields: its recognised text, trimmed, when the page
    is converted to an image, recognised, and not blank. *)
Definition pageText (env : Env) (pageNum : nat) : option jsstring :=
  match convert env pageNum with
  | ConvertOk (_ :: _) =>
      match recognize env pageNum with
      | RecognizeOk t =>
          match Clean.trim t with
          | [] => None
          | x => Some x
          end
      | RecognizeThrows _ => None
      end
  | _ => None
  end.

(** The texts of the pages that yield one, in page order. *)
Definition recognized (env : Env) : list jsstring :=
  omap (pageText env) [1; 2; 3].

(** The texts separated by a blank line. *)
Fixpoint joinPages (texts : list jsstring) : jsstring :=
  match texts with
  | [] => []
  | t :: rest =>
      match rest with
      | [] => t
      | _ :: _ => t ++ [Char.newline; Char.newline] ++ joinPages rest
      end
  end.

(** A text that starts with a character that is not white space and
    does not end in white space. *)
Definition visible (t : jsstring) : Prop :=
  (exists c r, t = c :: r /\ Char.isSpace c = false) /\ Clean.trimEnd t = t.

End OcrShape.

Module ExtractShape.
Import ExtractPdf.

(** The row the handler inserts for [file] with the text [finalText]. *)
Definition newRow (d : Database.Db) (file : File) (finalText : jsstring)
    (totalPages : Z) : Database.Document :=
  {| Database.id := (Database.sequence d + 1)%Z;
     Database.filename := name file;
     Database.original_filename := name file;
     Database.file_size := size file;
     Database.extracted_text := finalText;
     Database.page_count := totalPages;
     Database.extracted_pages := if (3 <? totalPages)%Z then 3%Z else totalPages |}.

(** The AUTOINCREMENT counter is not negative; the ids of the rows are
    distinct, positive, and at most the counter. *)
Definition wellKeyed (d : Database.Db) : Prop :=
  (0 <= Database.sequence d)%Z /\
  List.NoDup (map Database.id (Database.documents d)) /\
  List.Forall (fun doc => (0 < Database.id doc <= Database.sequence d)%Z)
    (Database.documents d).


End ExtractShape.

(** ** The client: [page.tsx] *)

Module Page.

(** The [name] of each entry of [languages], which is what the client
    sends as [language] and [targetLanguage]. *)
Definition languages : list jsstring :=
  [js "Hindi"; js "Telugu"; js "Spanish"; js "French"; js "Chinese"].

(** The checks of [handleFileUpload] before the upload is sent, lines
    80-90. *)
Definition uploadAccepted (file : ExtractPdf.File) : bool :=
  bool_decide (ExtractPdf.type file = js "application/pdf")
  && negb (10 * 1024 * 1024 <? ExtractPdf.size file)%Z.

End Page.

(** ** The table [audio_files] and its queries *)

Module AudioQueries.

(** A row of [audio_files].  [voice_id] is the value the handler binds
    to the column; [audio_data] may be [NULL]; [created_at] is
    [CURRENT_TIMESTAMP] at the insertion, in seconds. *)
Record AudioFile : Type := {
  id : Z;
  transcreation_id : Z;
  language : jsstring;
  voice_id : Voice.Value;
  audio_size : Z;
  audio_data : option jsstring;
  created_at : Z
}.

Record Db : Type := { audio_files : list AudioFile; sequence : Z }.

Definition empty : Db := {| audio_files := []; sequence := 0 |}.

(** The rows that [ORDER BY created_at DESC] may put first: those whose
    time stamp no other row exceeds. *)
Definition newest (rows : list AudioFile) : list AudioFile :=
  List.filter
    (fun r => forallb (fun r' => (created_at r' <=? created_at r)%Z) rows)
    rows.

(** [findByTranscreation.get(transcreationId)]: one row of
    [SELECT * FROM audio_files WHERE transcreation_id = ? ORDER BY
    created_at DESC LIMIT 1].  Among rows of the same time stamp SQL
    leaves the choice open; [pick] makes it. *)
Definition findByTranscreation
    (pick : list AudioFile -> option AudioFile) (db : Db)
    (transcreationId : Z) : option AudioFile :=
  pick (newest
          (List.filter
             (fun r => bool_decide (transcreation_id r = transcreationId))
             (audio_files db))).

(** [insert.run(...)] at the time [now]: the new table and
    [lastInsertRowid]. *)
Definition insert (db : Db) (now : Z) (transcreationId : Z)
    (lang : jsstring) (voice : Voice.Value) (size : Z) (data : jsstring)
    : Db * Z :=
  let rowid := (sequence db + 1)%Z in
  ({| audio_files :=
        audio_files db ++
        [{| id := rowid; transcreation_id := transcreationId;
            language := lang; voice_id := voice; audio_size := size;
            audio_data := Some data; created_at := now |}];
      sequence := rowid |},
   rowid).

End AudioQueries.

(** ** The speech handler: [POST] of [generate-audio/route.ts] *)

Module GenerateAudio.
Import Js.

(** The JSON body of a request, with fields of the types the client
    sends: strings, and a number or [null] for [transcreationId].
    [None] stands for an absent or [null] field. *)
Record Body : Type := {
  text : option jsstring;
  language : option jsstring;
  transcreationId : option Z;
  apiKey : option jsstring
}.

(** Truthiness of a string field and of a number field. *)
Definition truthyString (v : option jsstring) : bool :=
  match v with
  | Some (_ :: _) => true
  | _ => false
  end.

Definition truthyNumber (v : option Z) : bool :=
  match v with
  | Some n => negb (n =? 0)%Z
  | None => false
  end.

Inductive Json : Type :=
| JString (s : jsstring)
| JNumber (n : Z)
| JBool (b : bool)
| JNull.

Record Response : Type := { status : Z; body : gmap string Json }.

(** What the handler asks of its surroundings.  [convert voiceId text
    apiKey] is the whole exchange with ElevenLabs: the chunks read from
    the stream, or the error thrown by the client, the call or a
    read. *)
Record External : Type := {
  convert : Voice.Value -> jsstring -> jsstring -> Outcome (list (list N));
  base64 : list N -> jsstring;          (* buffer.toString with base64 *)
  pick : list AudioQueries.AudioFile -> option AudioQueries.AudioFile;
  now : Z;                              (* CURRENT_TIMESTAMP *)
  insertError : option jsstring         (* the insertion throws this *)
}.

(** The components a request reached, in order. *)
Inductive Call : Type :=
| CallConvert (voiceId : Voice.Value) (text apiKey : jsstring)
| CallInsert.

Record Run : Type := {
  response : Response;
  db : AudioQueries.Db;
  calls : list Call
}.

Definition respond (st : Z) (message : string) : Response :=
  {| status := st;
     body := {[ "error"%string := JString (js message) ]} |}.

(** The [catch] of lines 131-159, for a thrown [Error]. *)
Definition handleError (message : jsstring) : Response :=
  if includes (js "Unauthenticated") message
  then respond 401 "Invalid ElevenLabs API key. Please check your key and try again."
  else if includes (js "quota") message || includes (js "limit") message
          || includes (js "429") message
  then respond 429 "API quota exceeded. Please try again later."
  else if includes (js "voice") message || includes (js "Voice") message
  then respond 400 "Voice not found or unavailable"
  else respond 500 "Failed to generate audio due to an internal server error.".

Definition length_of (s : jsstring) : Z := Z.of_nat (length s).

(** Lines 24-35: the cached row, when [transcreationId] is truthy, a row
    is found and its [audio_data] is truthy. *)
Definition cacheCheck (ext : External) (d : AudioQueries.Db) (b : Body)
    : option (AudioQueries.AudioFile * jsstring) :=
  match transcreationId b with
  | Some tid =>
      if negb (tid =? 0)%Z then
        match AudioQueries.findByTranscreation (pick ext) d tid with
        | Some cachedAudio =>
            match AudioQueries.audio_data cachedAudio with
            | Some (c :: data) => Some (cachedAudio, c :: data)
            | _ => None
            end
        | None => None
        end
      else None
  | None => None
  end.

(** The response of lines 28-33. *)
Definition cachedResponse (cachedAudio : AudioQueries.AudioFile)
    (data : jsstring) : Response :=
  {| status := 200;
     body :=
       <[ "audioData"%string := JString data ]>
       (<[ "audioId"%string := JNumber (AudioQueries.id cachedAudio) ]>
       (<[ "cached"%string := JBool true ]>
       (<[ "charactersUsed"%string := JNumber 0 ]> ∅))) |}.

(** The response of lines 124-129. *)
Definition freshResponse (audioData : jsstring) (audioId : Json)
    (processedText : jsstring) : Response :=
  {| status := 200;
     body :=
       <[ "audioData"%string := JString audioData ]>
       (<[ "audioId"%string := audioId ]>
       (<[ "cached"%string := JBool false ]>
       (<[ "charactersUsed"%string := JNumber (length_of processedText) ]>
          ∅))) |}.

Definition DATA_URL : jsstring := js "data:audio/mpeg;base64,".

(** Lines 37-129: truncation, voice, synthesis, storage, response. *)
Definition synthesize (ext : External) (d : AudioQueries.Db)
    (text language apiKey : jsstring) (transcreationId : option Z) : Run :=
  let processedText := Truncate.truncateForSpeech text in
  let voiceId := Voice.voiceId language in
  match convert ext voiceId processedText apiKey with
  | Thrown e =>
      {| response := handleError e; db := d;
         calls := [CallConvert voiceId processedText apiKey] |}
  | Returned chunks =>
      let buffer := concat chunks in
      let audioData := DATA_URL ++ base64 ext buffer in
      match transcreationId with
      | Some tid =>
          if negb (tid =? 0)%Z then
            match insertError ext with
            | Some e =>
                {| response := handleError e; db := d;
                   calls := [CallConvert voiceId processedText apiKey;
                             CallInsert] |}
            | None =>
                let '(d', audioId) :=
                  AudioQueries.insert d (now ext) tid language voiceId
                    (length_of buffer) audioData in
                {| response :=
                     freshResponse audioData (JNumber audioId) processedText;
                   db := d';
                   calls := [CallConvert voiceId processedText apiKey;
                             CallInsert] |}
            end
          else
            {| response := freshResponse audioData JNull processedText;
               db := d;
               calls := [CallConvert voiceId processedText apiKey] |}
      | None =>
          {| response := freshResponse audioData JNull processedText;
             db := d;
             calls := [CallConvert voiceId processedText apiKey] |}
      end
  end.

(** The handler.  [request] is what [await request.json()] and the
    destructuring yield: the body, or the error they throw. *)
Definition POST (ext : External) (d : AudioQueries.Db)
    (request : Outcome Body) : Run :=
  match request with
  | Thrown e => {| response := handleError e; db := d; calls := [] |}
  | Returned b =>
      match text b, language b with
      | Some (t0 :: t), Some (l0 :: l) =>
          match apiKey b with
          | Some (k0 :: k) =>
              match cacheCheck ext d b with
              | Some (cachedAudio, data) =>
                  {| response := cachedResponse cachedAudio data; db := d;
                     calls := [] |}
              | None =>
                  synthesize ext d (t0 :: t) (l0 :: l) (k0 :: k)
                    (transcreationId b)
              end
          | _ =>
              {| response := respond 400 "ElevenLabs API key is required";
                 db := d; calls := [] |}
          end
      | _, _ =>
          {| response := respond 400 "Text and language are required";
             db := d; calls := [] |}
      end
  end.

(** *** Specification vocabulary *)

(** [pick] returns one of the rows it is given, and none only when
    there is none. *)
Definition chooses
    (pick : list AudioQueries.AudioFile -> option AudioQueries.AudioFile)
    : Prop :=
  forall rows,
    match pick rows with
    | Some r => In r rows
    | None => rows = []
    end.


(** The shapes a run can take. *)
Inductive RunShape (ext : External) (d : AudioQueries.Db)
    (request : Outcome Body) (run : Run) : Prop :=
| Rejected (st : Z) (message : string) :
    st <> 200%Z ->
    run = {| response := respond st message; db := d; calls := [] |} ->
    RunShape ext d request run
| Cached (b : Body) (cachedAudio : AudioQueries.AudioFile) (data : jsstring) :
    request = Returned b ->
    cacheCheck ext d b = Some (cachedAudio, data) ->
    run = {| response := cachedResponse cachedAudio data; db := d;
             calls := [] |} ->
    RunShape ext d request run
| Synthesized (b : Body) (txt lang key : jsstring) :
    request = Returned b ->
    text b = Some txt -> language b = Some lang -> apiKey b = Some key ->
    txt <> [] -> lang <> [] -> key <> [] ->
    cacheCheck ext d b = None ->
    run = synthesize ext d txt lang key (transcreationId b) ->
    RunShape ext d request run.

End GenerateAudio.

(** A speech request that is synthesized and stored, and a later one
    for the same transcreation. *)
Module AudioScenario.
Import GenerateAudio.

Definition ext : External :=
  {| convert := fun _ _ _ => Js.Returned [[73; 68]%N; [51]%N];
     base64 := fun _ => js "SUQz";
     pick := head;
     now := 1700000000;
     insertError := None |}.

Definition request : Body :=
  {| text := Some (js "Namaste."); language := Some (js "Hindi");
     transcreationId := Some 7%Z; apiKey := Some (js "sk-test") |}.

Definition later : Body :=
  {| text := Some (js "Hola."); language := Some (js "Spanish");
     transcreationId := Some 7%Z; apiKey := Some (js "sk-test") |}.

End AudioScenario.

(** ** The table [transcreations] and its queries *)

Module TranscreationQueries.

(** A row of [transcreations]; [created_at] is [CURRENT_TIMESTAMP] at
    the insertion, in seconds. *)
Record Transcreation : Type := {
  id : Z;
  document_id : Z;
  target_language : jsstring;
  transcreated_text : jsstring;
  original_length : Z;
  transcreated_length : Z;
  created_at : Z
}.

Record Db : Type := { transcreations : list Transcreation; sequence : Z }.

Definition empty : Db := {| transcreations := []; sequence := 0 |}.

(** The rows that [ORDER BY created_at DESC] may put first. *)
Definition newest (rows : list Transcreation) : list Transcreation :=
  List.filter
    (fun r => forallb (fun r' => (created_at r' <=? created_at r)%Z) rows)
    rows.

(** [findByDocumentAndLanguage.get(documentId, targetLanguage)]: one row
    of [SELECT * FROM transcreations WHERE document_id = ? AND
    target_language = ? ORDER BY created_at DESC LIMIT 1]; [pick]
    chooses among rows of the same time stamp. *)
Definition findByDocumentAndLanguage
    (pick : list Transcreation -> option Transcreation) (db : Db)
    (documentId : Z) (targetLanguage : jsstring) : option Transcreation :=
  pick (newest
          (List.filter
             (fun r => bool_decide (document_id r = documentId)
                       && bool_decide (target_language r = targetLanguage))
             (transcreations db))).

(** [insert.run(...)] at the time [now]. *)
Definition insert (db : Db) (now : Z) (documentId : Z)
    (targetLanguage transcreatedText : jsstring)
    (originalLength transcreatedLength : Z) : Db * Z :=
  let rowid := (sequence db + 1)%Z in
  ({| transcreations :=
        transcreations db ++
        [{| id := rowid; document_id := documentId;
            target_language := targetLanguage;
            transcreated_text := transcreatedText;
            original_length := originalLength;
            transcreated_length := transcreatedLength;
            created_at := now |}];
      sequence := rowid |},
   rowid).

End TranscreationQueries.

(** ** The transcreation handler: [POST] of the transcreate route *)

Module Transcreate.
Import Js.

(** The JSON body of a request, with fields of the types the client
    sends; [None] stands for an absent or [null] field. *)
Record Body : Type := {
  text : option jsstring;
  targetLanguage : option jsstring;
  documentId : option Z;
  apiKey : option jsstring
}.

Inductive Json : Type :=
| JString (s : jsstring)
| JNumber (n : Z)
| JBool (b : bool)
| JNull.

Record Response : Type := { status : Z; body : gmap string Json }.

(** What the handler asks of its surroundings.  [countTokens apiKey
    prompt] stands for the construction of the client and of the model
    and the token count; [generateContent apiKey prompt] for the
    generation and [response.text()].  Each returns or throws. *)
Record External : Type := {
  countTokens : jsstring -> jsstring -> Outcome Z;
  generateContent : jsstring -> jsstring -> Outcome jsstring;
  pick : list TranscreationQueries.Transcreation
         -> option TranscreationQueries.Transcreation;
  now : Z;                              (* CURRENT_TIMESTAMP *)
  insertError : option jsstring         (* the insertion throws this *)
}.

(** The components a request reached, in order. *)
Inductive Call : Type :=
| CallCountTokens (apiKey prompt : jsstring)
| CallGenerateContent (apiKey prompt : jsstring)
| CallInsert.

Record Run : Type := {
  response : Response;
  db : TranscreationQueries.Db;
  calls : list Call
}.

Definition respond (st : Z) (message : string) : Response :=
  {| status := st;
     body := {[ "error"%string := JString (js message) ]} |}.

(** The [catch] of the handler, for a thrown [Error]. *)
Definition handleError (message : jsstring) : Response :=
  if includes (js "API_KEY") message || includes (js "401") message
  then respond 401 "Invalid Google API key. Please check your GOOGLE_API_KEY environment variable."
  else if includes (js "quota") message || includes (js "limit") message
          || includes (js "429") message
  then respond 429 "API quota exceeded. Please try again later."
  else if includes (js "model") message || includes (js "Model") message
  then respond 503 "AI model temporarily unavailable. Please try again."
  else respond 500 "Failed to transcreate content. Please try again or contact support.".

Definition length_of (s : jsstring) : Z := Z.of_nat (length s).

Definition NL : jsstring := [10%N].
Definition QUOTE : jsstring := [34%N].

(** The template literal of the prompt, with its line breaks and
    indentation. *)
Definition prompt (targetLanguage text : jsstring) : jsstring :=
  NL ++
  js "      As an expert academic translator and summarizer, your task is to transcreate the following text from a research paper into " ++ targetLanguage ++ js "." ++ NL ++
  NL ++
  js "      Your goal is to make the content clear, readable, and sound natural when narrated. Follow these rules strictly:" ++ NL ++
  js "      1.  **Simplify, Don't Just Translate**: Do not provide a literal, word-for-word translation. Instead, rephrase and simplify complex sentences. Break down long, convoluted sentences into shorter, more digestible ones (ideally 15-20 words)." ++ NL ++
  js "      2.  **Use Common Vocabulary**: Replace technical jargon and overly formal words with more common, everyday equivalents in " ++ targetLanguage ++ js ", unless the term is a critical keyword that cannot be translated (e.g., " ++ QUOTE ++ js "BERT" ++ QUOTE ++ js ", " ++ QUOTE ++ js "GAN" ++ QUOTE ++ js ")." ++ NL ++
  js "      3.  **Optimize for Audio**: The final text should be optimized for text-to-speech (TTS). It should flow smoothly and be easy to listen to. Read it aloud in your " ++ QUOTE ++ js "mind" ++ QUOTE ++ js " to check the cadence." ++ NL ++
  js "      4.  **Preserve Core Meaning**: While simplifying, you must retain the original text's core concepts, findings, and nuances. Do not add new information or opinions." ++ NL ++
  js "      5.  **Format for Readability**: Use paragraphs to structure the content logically." ++ NL ++
  NL ++
  js "      Here is the text to transcreate:" ++ NL ++
  js "      ---" ++ NL ++
  js "      " ++ text ++ NL ++
  js "      ---" ++ NL ++
  js "    ".

(** The cached row, when [documentId] is truthy and a row is found. *)
Definition cacheCheck (ext : External) (d : TranscreationQueries.Db)
    (b : Body) (lang : jsstring)
    : option TranscreationQueries.Transcreation :=
  match documentId b with
  | Some doc =>
      if negb (doc =? 0)%Z
      then TranscreationQueries.findByDocumentAndLanguage (pick ext) d doc lang
      else None
  | None => None
  end.

Definition cachedResponse (cached : TranscreationQueries.Transcreation)
    : Response :=
  {| status := 200;
     body :=
       <[ "transcreatedText"%string :=
            JString (TranscreationQueries.transcreated_text cached) ]>
       (<[ "transcreationId"%string :=
             JNumber (TranscreationQueries.id cached) ]>
       (<[ "cached"%string := JBool true ]>
       (<[ "tokensUsed"%string := JNumber 0 ]> ∅))) |}.

Definition freshResponse (transcreatedText : jsstring)
    (transcreationId : Json) (totalTokens : Z) : Response :=
  {| status := 200;
     body :=
       <[ "transcreatedText"%string := JString transcreatedText ]>
       (<[ "transcreationId"%string := transcreationId ]>
       (<[ "cached"%string := JBool false ]>
       (<[ "tokensUsed"%string := JNumber totalTokens ]> ∅))) |}.

(** From the prompt to the response. *)
Definition generate (ext : External) (d : TranscreationQueries.Db)
    (txt lang key : jsstring) (documentId : option Z) : Run :=
  let p := prompt lang txt in
  match countTokens ext key p with
  | Thrown e =>
      {| response := handleError e; db := d;
         calls := [CallCountTokens key p] |}
  | Returned totalTokens =>
      match generateContent ext key p with
      | Thrown e =>
          {| response := handleError e; db := d;
             calls := [CallCountTokens key p; CallGenerateContent key p] |}
      | Returned transcreatedText =>
          match documentId with
          | Some doc =>
              if negb (doc =? 0)%Z then
                match insertError ext with
                | Some e =>
                    {| response := handleError e; db := d;
                       calls := [CallCountTokens key p;
                                 CallGenerateContent key p; CallInsert] |}
                | None =>
                    let '(d', transcreationId) :=
                      TranscreationQueries.insert d (now ext) doc lang
                        transcreatedText (length_of txt)
                        (length_of transcreatedText) in
                    {| response :=
                         freshResponse transcreatedText
                           (JNumber transcreationId) totalTokens;
                       db := d';
                       calls := [CallCountTokens key p;
                                 CallGenerateContent key p; CallInsert] |}
                end
              else
                {| response :=
                     freshResponse transcreatedText JNull totalTokens;
                   db := d;
                   calls := [CallCountTokens key p;
                             CallGenerateContent key p] |}
          | None =>
              {| response := freshResponse transcreatedText JNull totalTokens;
                 db := d;
                 calls := [CallCountTokens key p;
                           CallGenerateContent key p] |}
          end
      end
  end.

(** The handler.  [request] is what [await request.json()] and the
    destructuring yield: the body, or the error they throw. *)
Definition POST (ext : External) (d : TranscreationQueries.Db)
    (request : Outcome Body) : Run :=
  match request with
  | Thrown e => {| response := handleError e; db := d; calls := [] |}
  | Returned b =>
      match text b, targetLanguage b with
      | Some (t0 :: t), Some (l0 :: l) =>
          match apiKey b with
          | Some (k0 :: k) =>
              match cacheCheck ext d b (l0 :: l) with
              | Some cached =>
                  {| response := cachedResponse cached; db := d;
                     calls := [] |}
              | None =>
                  generate ext d (t0 :: t) (l0 :: l) (k0 :: k) (documentId b)
              end
          | _ =>
              {| response := respond 400 "Google Gemini API key is required";
                 db := d; calls := [] |}
          end
      | _, _ =>
          {| response := respond 400 "Text and target language are required";
             db := d; calls := [] |}
      end
  end.

(** *** Specification vocabulary *)

Definition truthyString (v : option jsstring) : bool :=
  match v with
  | Some (_ :: _) => true
  | _ => false
  end.

(** [pick] returns one of the rows it is given, and none only when
    there is none. *)
Definition chooses
    (pick : list TranscreationQueries.Transcreation
            -> option TranscreationQueries.Transcreation) : Prop :=
  forall rows,
    match pick rows with
    | Some r => In r rows
    | None => rows = []
    end.

(** The shapes a run can take. *)
Inductive RunShape (ext : External) (d : TranscreationQueries.Db)
    (request : Outcome Body) (run : Run) : Prop :=
| Rejected (st : Z) (message : string) :
    st <> 200%Z ->
    run = {| response := respond st message; db := d; calls := [] |} ->
    RunShape ext d request run
| Cached (b : Body) (lang : jsstring)
    (cached : TranscreationQueries.Transcreation) :
    request = Returned b -> targetLanguage b = Some lang ->
    cacheCheck ext d b lang = Some cached ->
    run = {| response := cachedResponse cached; db := d; calls := [] |} ->
    RunShape ext d request run
| Generated (b : Body) (txt lang key : jsstring) :
    request = Returned b ->
    text b = Some txt -> targetLanguage b = Some lang ->
    apiKey b = Some key ->
    txt <> [] -> lang <> [] -> key <> [] ->
    cacheCheck ext d b lang = None ->
    run = generate ext d txt lang key (documentId b) ->
    RunShape ext d request run.

End Transcreate.

(** A transcreation that is generated and stored, and a later request
    for the same document and language. *)
Module TranscreateScenario.
Import Transcreate.

Definition ext : External :=
  {| countTokens := fun _ _ => Js.Returned 321%Z;
     generateContent := fun _ _ => Js.Returned (js "Namaste duniya.");
     pick := head;
     now := 1700000000;
     insertError := None |}.

Definition request : Body :=
  {| text := Some (js "Hello world."); targetLanguage := Some (js "Hindi");
     documentId := Some 3%Z; apiKey := Some (js "g-test") |}.

Definition later : Body :=
  {| text := Some (js "Another text."); targetLanguage := Some (js "Hindi");
     documentId := Some 3%Z; apiKey := Some (js "g-other") |}.

End TranscreateScenario.

(** * Properties *)

(** ** The cleaner *)

Module CleanFacts.
Import Char Clean.

(** *** Character classes *)

Lemma terminator_not_space c : isTerminator c = true -> isSpace c = false.
Proof.
  unfold isTerminator. intros H.
  repeat (apply orb_prop in H; destruct H as [H|H]);
    apply N.eqb_eq in H; subst c; reflexivity.
Qed.

Lemma space_not_terminator c : isSpace c = true -> isTerminator c = false.
Proof.
  intros H. destruct (isTerminator c) eqn:E; [|reflexivity].
  apply terminator_not_space in E. congruence.
Qed.

Lemma isSpace_space : isSpace space = true.
Proof. reflexivity. Qed.

Lemma isTerminator_space : isTerminator space = false.
Proof. reflexivity. Qed.

Lemma isAllowed_space : isAllowed space = true.
Proof. reflexivity. Qed.

Lemma newline_is_space c : isNewline c = true -> isSpace c = true /\ c <> space.
Proof.
  unfold isNewline. intros H. apply N.eqb_eq in H. subst c.
  split; [reflexivity | discriminate].
Qed.

(** *** One-step equations *)

Lemma terminatorNext_cons c r :
  terminatorNext (c :: r) = if isSpace c then terminatorNext r else isTerminator c.
Proof. unfold terminatorNext. simpl. destruct (isSpace c); reflexivity. Qed.

Lemma tightenBefore_cons c r :
  tightenBefore (c :: r) =
  if isSpace c && terminatorNext r then tightenBefore r
  else c :: tightenBefore r.
Proof. reflexivity. Qed.

Lemma spaceAfter_cons b c r :
  spaceAfter b (c :: r) =
  if isTerminator c then c :: space :: spaceAfter true r
  else if isSpace c && b then spaceAfter true r
  else c :: spaceAfter false r.
Proof. reflexivity. Qed.

Lemma trimEnd_cons c r :
  trimEnd (c :: r) =
  match trimEnd r with
  | [] => if isSpace c then [] else [c]
  | x :: l => c :: x :: l
  end.
Proof. reflexivity. Qed.

(** *** Single-spaced text is a fixed point of the first three steps *)

Lemma replaceRuns_none p rep b s :
  forallb (fun c => negb (p c)) s = true -> replaceRuns p rep b s = s.
Proof.
  revert b. induction s as [|c r IH]; intros b H; simpl in *; [reflexivity|].
  apply andb_prop in H. destruct H as [Hc Hr].
  destruct (p c); [discriminate|]. now rewrite IH.
Qed.

Lemma singleSpaced_weaken b s : singleSpaced b s -> singleSpaced false s.
Proof.
  destruct s as [|c r]; simpl; [trivial|].
  destruct (isSpace c); [|trivial]. intros (? & ? & ?). auto.
Qed.

Lemma singleSpaced_collapse b s :
  singleSpaced b s -> replaceRuns isSpace space b s = s.
Proof.
  revert b. induction s as [|c r IH]; intros b H; simpl in *; [reflexivity|].
  destruct (isSpace c).
  - destruct H as (-> & -> & H). now rewrite IH.
  - now rewrite IH.
Qed.

Lemma collapse_singleSpaced b s :
  singleSpaced b (replaceRuns isSpace space b s).
Proof.
  revert b. induction s as [|c r IH]; intros b; simpl; [trivial|].
  destruct (isSpace c) eqn:E.
  - destruct b; [apply IH|]. simpl. rewrite ?isSpace_space. auto.
  - simpl. rewrite E. apply IH.
Qed.

Lemma singleSpaced_no_newline b s :
  singleSpaced b s -> forallb (fun c => negb (isNewline c)) s = true.
Proof.
  revert b. induction s as [|c r IH]; intros b H; simpl in *; [reflexivity|].
  destruct (isNewline c) eqn:E; simpl.
  - apply newline_is_space in E. destruct E as [E1 E2].
    rewrite E1 in H. destruct H as (-> & _). congruence.
  - destruct (isSpace c); [destruct H as (_ & _ & H)|]; eauto.
Qed.

Lemma singleSpaced_tightenBefore b s :
  singleSpaced b s -> singleSpaced b (tightenBefore s).
Proof.
  revert b. induction s as [|c r IH]; intros b H; simpl in *; [trivial|].
  destruct (isSpace c) eqn:E; simpl.
  - destruct H as (-> & -> & H). destruct (terminatorNext r).
    + eapply singleSpaced_weaken, IH, H.
    + simpl. rewrite ?isSpace_space. auto.
  - rewrite E. auto.
Qed.

Lemma singleSpaced_spaceAfter a b s :
  singleSpaced a s -> singleSpaced (a || b) (spaceAfter b s).
Proof.
  revert a b. induction s as [|c r IH]; intros a b H; simpl in *; [trivial|].
  destruct (isTerminator c) eqn:T.
  - rewrite (terminator_not_space _ T) in H. simpl.
    rewrite (terminator_not_space _ T). simpl. rewrite ?isSpace_space.
    repeat split. apply (IH false true H).
  - destruct (isSpace c) eqn:E; simpl.
    + destruct H as (-> & -> & H). destruct b; simpl.
      * apply (IH true true H).
      * rewrite ?isSpace_space. repeat split.
        apply (IH true false H).
    + rewrite E. apply (IH false false H).
Qed.

Lemma singleSpaced_dropSpaces b s :
  singleSpaced b s -> singleSpaced false (dropSpaces s).
Proof.
  revert b. induction s as [|c r IH]; intros b H; simpl in *; [trivial|].
  destruct (isSpace c) eqn:E.
  - destruct H as (_ & _ & H). eauto.
  - simpl. now rewrite E.
Qed.

Lemma singleSpaced_trimEnd b s :
  singleSpaced b s -> singleSpaced b (trimEnd s).
Proof.
  revert b. induction s as [|c r IH]; intros b H; [trivial|].
  rewrite trimEnd_cons. simpl in H.
  destruct (isSpace c) eqn:E.
  - destruct H as (-> & -> & H). apply IH in H.
    destruct (trimEnd r); [trivial|]. simpl (singleSpaced false (_ :: _)).
    rewrite ?isSpace_space. auto.
  - apply IH in H. destruct (trimEnd r); simpl; rewrite E; auto.
Qed.

(** *** The allow-list is preserved by every step *)

Lemma allAllowed_replaceRuns p rep b s :
  isAllowed rep = true -> allAllowed s = true ->
  allAllowed (replaceRuns p rep b s) = true.
Proof.
  intros Hrep. unfold allAllowed.
  revert b. induction s as [|c r IH]; intros b H; simpl in *; [reflexivity|].
  apply andb_prop in H. destruct H as [Hc Hr].
  destruct (p c); [destruct b|]; simpl; rewrite ?Hrep, ?Hc; simpl; auto.
Qed.

Lemma stripSpecial_allowed s : allAllowed s = true -> stripSpecial s = s.
Proof.
  unfold allAllowed, stripSpecial.
  induction s as [|c r IH]; intros H; simpl in *; [reflexivity|].
  apply andb_prop in H. destruct H as [Hc Hr]. rewrite Hc. now rewrite IH.
Qed.

Lemma allAllowed_stripSpecial s : allAllowed (stripSpecial s) = true.
Proof.
  unfold allAllowed, stripSpecial.
  induction s as [|c r IH]; [reflexivity|].
  cbn [map forallb].
  destruct (isAllowed c) eqn:E; rewrite ?E, ?isAllowed_space, IH; reflexivity.
Qed.

Lemma allAllowed_tightenBefore s :
  allAllowed s = true -> allAllowed (tightenBefore s) = true.
Proof.
  unfold allAllowed.
  induction s as [|c r IH]; intros H; simpl in *; [reflexivity|].
  apply andb_prop in H. destruct H as [Hc Hr].
  destruct (isSpace c && terminatorNext r); simpl; rewrite ?Hc; simpl; auto.
Qed.

Lemma allAllowed_spaceAfter b s :
  allAllowed s = true -> allAllowed (spaceAfter b s) = true.
Proof.
  unfold allAllowed.
  revert b. induction s as [|c r IH]; intros b H; simpl in *; [reflexivity|].
  apply andb_prop in H. destruct H as [Hc Hr].
  destruct (isTerminator c); [|destruct (isSpace c && b)]; simpl;
    rewrite ?Hc, ?isAllowed_space; simpl; auto.
Qed.

Lemma allAllowed_dropSpaces s :
  allAllowed s = true -> allAllowed (dropSpaces s) = true.
Proof.
  unfold allAllowed.
  induction s as [|c r IH]; intros H; simpl in *; [reflexivity|].
  destruct (isSpace c); [|exact H].
  apply andb_prop in H. destruct H as [Hc Hr]. auto.
Qed.

Lemma allAllowed_trimEnd s :
  allAllowed s = true -> allAllowed (trimEnd s) = true.
Proof.
  unfold allAllowed.
  induction s as [|c r IH]; intros H; [reflexivity|].
  rewrite trimEnd_cons. simpl in H.
  apply andb_prop in H. destruct H as [Hc Hr]. apply IH in Hr.
  destruct (trimEnd r); [destruct (isSpace c)|]; cbn [forallb] in *;
    rewrite ?Hc; cbn [andb]; auto.
Qed.

(** *** Looking ahead through white space *)

Lemma terminatorNext_tightenBefore s :
  terminatorNext (tightenBefore s) = terminatorNext s.
Proof.
  induction s as [|c r IH]; [reflexivity|]. simpl.
  rewrite terminatorNext_cons. destruct (isSpace c) eqn:E; simpl.
  - destruct (terminatorNext r) eqn:T; [exact IH|].
    rewrite terminatorNext_cons, E. congruence.
  - now rewrite terminatorNext_cons, E.
Qed.

Lemma terminatorNext_spaceAfter b s :
  terminatorNext (spaceAfter b s) = terminatorNext s.
Proof.
  revert b. induction s as [|c r IH]; intros b; [reflexivity|]. simpl.
  rewrite (terminatorNext_cons c r).
  destruct (isTerminator c) eqn:T.
  - now rewrite terminatorNext_cons, (terminator_not_space _ T).
  - destruct (isSpace c) eqn:E; simpl.
    + destruct b; [apply IH|]. rewrite terminatorNext_cons, E. apply IH.
    + now rewrite terminatorNext_cons, E.
Qed.

Lemma terminatorNext_trimEnd s :
  terminatorNext (trimEnd s) = terminatorNext s.
Proof.
  induction s as [|c r IH]; [reflexivity|].
  rewrite trimEnd_cons, (terminatorNext_cons c r).
  destruct (trimEnd r) as [|x l].
  - destruct (isSpace c) eqn:E; [exact IH|].
    now rewrite terminatorNext_cons, E.
  - rewrite terminatorNext_cons. destruct (isSpace c); [exact IH|reflexivity].
Qed.

Lemma tight_tightenBefore s : tight (tightenBefore s).
Proof.
  induction s as [|c r IH]; simpl; [trivial|].
  destruct (isSpace c) eqn:E; simpl.
  - destruct (terminatorNext r) eqn:T; [exact IH|].
    split; [|exact IH]. intros _. now rewrite terminatorNext_tightenBefore.
  - split; [congruence | exact IH].
Qed.

(** *** Text made of white space only *)

Lemma blank_tightenBefore s : trimEnd s = [] -> tightenBefore s = s.
Proof.
  induction s as [|c r IH]; [reflexivity|].
  rewrite trimEnd_cons. intros H. simpl.
  destruct (trimEnd r) eqn:R; [|discriminate].
  rewrite <- (terminatorNext_trimEnd r), R.
  rewrite andb_false_r. now rewrite IH.
Qed.

Lemma blank_spaceAfter b s : trimEnd s = [] -> trimEnd (spaceAfter b s) = [].
Proof.
  revert b. induction s as [|c r IH]; intros b; [reflexivity|].
  rewrite trimEnd_cons. intros H.
  destruct (trimEnd r) eqn:R; [|discriminate].
  destruct (isSpace c) eqn:E; [|discriminate].
  simpl. rewrite (space_not_terminator _ E), E. simpl.
  destruct b; [now apply IH|].
  rewrite trimEnd_cons, IH, E; reflexivity.
Qed.

(** *** Trimming commutes with the two punctuation steps *)

Lemma trimStart_trimEnd s : trimStart (trimEnd s) = trimEnd (trimStart s).
Proof.
  unfold trimStart. induction s as [|c r IH]; [reflexivity|].
  rewrite trimEnd_cons. simpl (dropSpaces (c :: r)).
  destruct (isSpace c) eqn:E.
  - rewrite <- IH. destruct (trimEnd r); [reflexivity|].
    simpl. now rewrite E.
  - rewrite trimEnd_cons.
    destruct (trimEnd r); simpl; now rewrite E.
Qed.

Lemma trimEnd_punctuate b s :
  trimEnd (spaceAfter b (tightenBefore (trimEnd s)))
  = trimEnd (spaceAfter b (tightenBefore s)).
Proof.
  revert b. induction s as [|c r IH]; intros b; [reflexivity|].
  rewrite trimEnd_cons.
  destruct (trimEnd r) as [|x l] eqn:R.
  - (* [r] is blank *)
    simpl (tightenBefore (c :: r)).
    rewrite <- (terminatorNext_trimEnd r), R, andb_false_r.
    rewrite (blank_tightenBefore r R).
    destruct (isSpace c) eqn:E.
    + simpl. rewrite (space_not_terminator _ E), E. simpl.
      destruct b.
      * now rewrite (blank_spaceAfter true r R).
      * now rewrite trimEnd_cons, (blank_spaceAfter false r R), E.
    + simpl. rewrite E. simpl.
      destruct (isTerminator c).
      * rewrite !trimEnd_cons, (blank_spaceAfter true r R).
        reflexivity.
      * rewrite !trimEnd_cons, (blank_spaceAfter false r R).
        rewrite ?E. simpl. now rewrite ?E.
  - (* [r] has a last visible character *)
    rewrite <- R in IH |- *. simpl (tightenBefore (c :: _)).
    rewrite terminatorNext_trimEnd.
    destruct (isSpace c && terminatorNext r); [apply IH|].
    simpl. destruct (isTerminator c).
    + rewrite !trimEnd_cons, IH. reflexivity.
    + destruct (isSpace c && b).
      * apply IH.
      * rewrite !trimEnd_cons, IH. reflexivity.
Qed.

Lemma trimStart_punctuate s :
  trimStart (spaceAfter false (tightenBefore (trimStart s)))
  = trimStart (spaceAfter false (tightenBefore s)).
Proof.
  unfold trimStart. induction s as [|c r IH]; [reflexivity|].
  simpl (dropSpaces (c :: r)). destruct (isSpace c) eqn:E; [|reflexivity].
  rewrite IH. simpl. rewrite E. simpl.
  destruct (terminatorNext r); [reflexivity|].
  simpl. rewrite (space_not_terminator _ E), E. simpl. now rewrite E.
Qed.

Lemma trim_punctuate s :
  trim (spaceAfter false (tightenBefore (trim s)))
  = trim (spaceAfter false (tightenBefore s)).
Proof.
  unfold trim.
  rewrite <- trimStart_trimEnd, trimEnd_punctuate, trimStart_trimEnd.
  now rewrite trimStart_punctuate.
Qed.

(** *** The punctuation steps reach a fixed point on tight text *)

Lemma punctuate_stable b s :
  tight s ->
  spaceAfter b (tightenBefore (spaceAfter b s)) = spaceAfter b s.
Proof.
  revert b. induction s as [|c r IH]; intros b H; [reflexivity|].
  destruct H as [Hc Hr].
  rewrite (spaceAfter_cons b c r). destruct (isTerminator c) eqn:T.
  - rewrite tightenBefore_cons, (terminator_not_space _ T). cbn [andb].
    rewrite spaceAfter_cons, T. do 2 f_equal.
    rewrite tightenBefore_cons, isSpace_space. cbn [andb].
    destruct (terminatorNext (spaceAfter true r)); [now apply IH|].
    rewrite spaceAfter_cons, isTerminator_space, isSpace_space. cbn [andb].
    now apply IH.
  - destruct (isSpace c) eqn:E; destruct b; cbn [andb].
    + now apply IH.
    + rewrite tightenBefore_cons, E, terminatorNext_spaceAfter, (Hc eq_refl).
      cbn [andb]. rewrite spaceAfter_cons, T, E. cbn [andb].
      f_equal. now apply IH.
    + rewrite tightenBefore_cons, E. cbn [andb].
      rewrite spaceAfter_cons, T, E. cbn [andb]. 
      (* the flag is reset by a visible character *)
      f_equal. now apply IH.
    + rewrite tightenBefore_cons, E. cbn [andb].
      rewrite spaceAfter_cons, T, E. cbn [andb]. f_equal. now apply IH.
Qed.

(** *** The cleaner on allow-listed text *)

Lemma clean_allowed s :
  allAllowed s = true ->
  cleanAndProcessText s
  = trim (spaceAfter false (tightenBefore (collapseWhitespace s))).
Proof.
  intros H. unfold cleanAndProcessText, collapseNewlines.
  rewrite (replaceRuns_none isNewline).
  - rewrite stripSpecial_allowed; [reflexivity|].
    now apply allAllowed_replaceRuns.
  - eapply singleSpaced_no_newline, collapse_singleSpaced.
Qed.

Lemma clean_singleSpaced s :
  allAllowed s = true -> singleSpaced false (cleanAndProcessText s).
Proof.
  intros H. rewrite (clean_allowed s H). unfold trim, trimStart.
  apply singleSpaced_trimEnd.
  eapply singleSpaced_dropSpaces.
  apply (singleSpaced_spaceAfter false false).
  apply singleSpaced_tightenBefore, collapse_singleSpaced.
Qed.

Lemma clean_allAllowed s : allAllowed (cleanAndProcessText s) = true.
Proof.
  unfold cleanAndProcessText, trim, trimStart.
  apply allAllowed_trimEnd, allAllowed_dropSpaces, allAllowed_spaceAfter,
    allAllowed_tightenBefore, allAllowed_stripSpecial.
Qed.

(** *** Idempotence *)

(** C2 (as amended): on text in which every character passes the
    allow-list of the third replacement, cleaning twice gives the same
    result as cleaning once. *)
Theorem cleanAndProcessText_idempotent_allowed (s : jsstring) :
  allAllowed s = true ->
  cleanAndProcessText (cleanAndProcessText s) = cleanAndProcessText s.
Proof.
  intros H.
  rewrite (clean_allowed (cleanAndProcessText s) (clean_allAllowed s)).
  unfold collapseWhitespace.
  rewrite (singleSpaced_collapse false _ (clean_singleSpaced s H)).
  rewrite (clean_allowed s H), trim_punctuate.
  rewrite (punctuate_stable false _ (tight_tightenBefore _)).
  reflexivity.
Qed.

Lemma cleanAndProcessText_idempotent_allowed_witness :
  allAllowed (js "Dr. Who ?  Yes , here !") = true /\
  cleanAndProcessText (cleanAndProcessText (js "Dr. Who ?  Yes , here !"))
  = cleanAndProcessText (js "Dr. Who ?  Yes , here !").
Proof.
  split; [reflexivity|].
  apply (cleanAndProcessText_idempotent_allowed (js "Dr. Who ?  Yes , here !")).
  reflexivity.
Defined.

(** C2 (as stated) fails: a stripped character leaves a space behind,
    next to the spaces already there, and only a second pass collapses
    them. *)
Lemma cleanAndProcessText_not_idempotent :
  cleanAndProcessText (js "a@@b") = js "a  b" /\
  cleanAndProcessText (cleanAndProcessText (js "a@@b")) = js "a b" /\
  cleanAndProcessText (cleanAndProcessText (js "a@@b"))
  <> cleanAndProcessText (js "a@@b").
Proof. repeat split; vm_compute; congruence. Qed.

(** X4: from the second pass on the text no longer changes, whatever the
    input: cleaning the cleaned text once more reaches a text that
    further cleaning leaves as it is. *)
Corollary cleanAndProcessText_stable_after_one (s : jsstring) :
  cleanAndProcessText (cleanAndProcessText (cleanAndProcessText s))
  = cleanAndProcessText (cleanAndProcessText s).
Proof.
  pose proof (clean_allAllowed s) as A.
  pose proof (clean_allAllowed (cleanAndProcessText s)) as A'.
  rewrite (clean_allowed _ A'). unfold collapseWhitespace.
  rewrite (singleSpaced_collapse false _ (clean_singleSpaced _ A)).
  rewrite (clean_allowed _ A), trim_punctuate.
  rewrite (punctuate_stable false _ (tight_tightenBefore _)).
  reflexivity.
Qed.

End CleanFacts.

(** ** Truncation *)

Module TruncateFacts.
Import Truncate.

(** *** [lastIndexOf] and the last index of a class *)

Lemma lastIndexWhere_bounds p s :
  (-1 <= lastIndexWhere p s < Z.of_nat (length s))%Z.
Proof.
  induction s as [|x r IH]; simpl; [lia|].
  destruct (0 <=? lastIndexWhere p r)%Z eqn:E; [lia|].
  destruct (p x); lia.
Qed.

Lemma lastIndexWhere_ext p q s :
  (forall x, p x = q x) -> lastIndexWhere p s = lastIndexWhere q s.
Proof.
  intros H. induction s as [|x r IH]; simpl; [reflexivity|].
  now rewrite IH, H.
Qed.

Lemma lastIndexOf_where c s :
  lastIndexOf c s = lastIndexWhere (fun x => N.eqb x c) s.
Proof. induction s as [|x r IH]; simpl; [reflexivity|]. now rewrite IH. Qed.

Lemma lastIndexWhere_max p q s :
  Z.max (lastIndexWhere p s) (lastIndexWhere q s)
  = lastIndexWhere (fun x => p x || q x) s.
Proof.
  induction s as [|x r IH]; simpl; [reflexivity|].
  rewrite <- IH.
  pose proof (lastIndexWhere_bounds p r).
  pose proof (lastIndexWhere_bounds q r).
  destruct (Z.leb_spec 0 (lastIndexWhere p r));
    destruct (Z.leb_spec 0 (lastIndexWhere q r));
    destruct (Z.leb_spec 0 (Z.max (lastIndexWhere p r) (lastIndexWhere q r)));
    try lia; destruct (p x), (q x); simpl; lia.
Qed.

Lemma cutPoint_where s : cutPoint s = lastIndexWhere Char.isTerminator s.
Proof.
  unfold cutPoint. rewrite !lastIndexOf_where, !lastIndexWhere_max.
  apply lastIndexWhere_ext. intros x. unfold Char.isTerminator.
  destruct (x =? 46)%N, (x =? 63)%N, (x =? 33)%N; reflexivity.
Qed.

Lemma lastIndexWhere_none p s :
  lastIndexWhere p s = (-1)%Z <->
  (forall j x, s !! j = Some x -> p x = false).
Proof.
  induction s as [|y r IH]; simpl.
  - split; [intros _ j x H; destruct j; discriminate | reflexivity].
  - pose proof (lastIndexWhere_bounds p r) as B.
    destruct (Z.leb_spec 0 (lastIndexWhere p r)) as [L|L].
    + split; [lia|]. intros H.
      assert (lastIndexWhere p r = (-1)%Z); [|lia].
      apply IH. intros j x Hj. apply (H (S j) x Hj).
    + assert (R : lastIndexWhere p r = (-1)%Z) by lia.
      destruct (p y) eqn:P.
      * split; [lia|]. intros H. specialize (H 0 y eq_refl). congruence.
      * split; [|reflexivity]. intros _ [|j] x Hj.
        -- injection Hj as <-. exact P.
        -- apply (proj1 IH R j x Hj).
Qed.

Lemma lastIndexWhere_at p s c :
  lastIndexWhere p s = Z.of_nat c <->
  (exists x, s !! c = Some x /\ p x = true) /\
  (forall j x, c < j -> s !! j = Some x -> p x = false).
Proof.
  revert c. induction s as [|y r IH]; intros c; simpl.
  - split; [lia|]. intros [(x & H & _) _]. destruct c; discriminate.
  - pose proof (lastIndexWhere_bounds p r) as B.
    destruct (Z.leb_spec 0 (lastIndexWhere p r)) as [L|L].
    + destruct c as [|c].
      * split; [lia|]. intros [_ H].
        assert (lastIndexWhere p r = (-1)%Z); [|lia].
        apply lastIndexWhere_none. intros j x Hj.
        apply (H (S j) x); [lia | exact Hj].
      * split.
        { intros H. assert (K : lastIndexWhere p r = Z.of_nat c) by lia.
          apply IH in K. destruct K as [(x & Hx & Px) Hlater].
          split; [exists x; auto|].
          intros [|j] x' Hj Hl; [lia|].
          apply (Hlater j x'); [lia | exact Hl]. }
        intros [Hx Hlater].
        assert (lastIndexWhere p r = Z.of_nat c); [|lia].
        apply IH. split; [exact Hx|].
        intros j x Hj Hl. apply (Hlater (S j) x); [lia | exact Hl].
    + assert (R : lastIndexWhere p r = (-1)%Z) by lia.
      pose proof (proj1 (lastIndexWhere_none p r) R) as None.
      destruct c as [|c].
      * destruct (p y) eqn:P.
        -- split; [intros _|reflexivity]. split; [exists y; auto|].
           intros [|j] x Hj Hl; [lia|]. apply (None j x Hl).
        -- split; [lia|]. intros [(x & Hx & Px) _].
           injection Hx as <-. congruence.
      * split; [destruct (p y); lia|].
        intros [(x & Hx & Px) _]. rewrite (None c x Hx) in Px. discriminate.
Qed.

(** The cut point of the code is the last terminator of the
    specification. *)
Lemma cutPoint_last bound text c :
  isLastTerminator bound text c ->
  cutPoint (substring0 bound text) = Z.of_nat c.
Proof.
  intros (Hc & (x & Hx & Px) & Hlater).
  rewrite cutPoint_where. apply lastIndexWhere_at. unfold substring0. split.
  - exists x. split; [|exact Px]. rewrite lookup_take_lt; auto.
  - intros j y Hj Hy. apply lookup_take_Some in Hy. destruct Hy as [Hy Hb].
    apply (Hlater j y); [lia | exact Hy].
Qed.

Lemma cutPoint_none bound text :
  noTerminator bound text -> cutPoint (substring0 bound text) = (-1)%Z.
Proof.
  intros H. rewrite cutPoint_where. apply lastIndexWhere_none.
  intros j x Hj. unfold substring0 in Hj.
  apply lookup_take_Some in Hj. destruct Hj as [Hj Hb]. eauto.
Qed.

Lemma last_of_cutPoint bound text c :
  cutPoint (substring0 bound text) = Z.of_nat c ->
  isLastTerminator bound text c.
Proof.
  intros H. rewrite cutPoint_where in H. unfold substring0 in H.
  apply lastIndexWhere_at in H. destruct H as [(x & Hx & Px) Hlater].
  pose proof Hx as Hx'. apply lookup_take_Some in Hx'.
  destruct Hx' as [Hx' Hc].
  split; [exact Hc|]. split.
  - exists x. auto.
  - intros j y Hj Hy. apply (Hlater j y); [lia|].
    rewrite lookup_take_lt; [exact Hy | lia].
Qed.

(** *** The two truncations *)

Lemma substring0_length n s : length (substring0 n s) <= n.
Proof. unfold substring0. rewrite length_take. lia. Qed.

Lemma substring0_substring0 n m s :
  n <= m -> substring0 n (substring0 m s) = substring0 n s.
Proof. intros H. unfold substring0. rewrite take_take. f_equal. lia. Qed.

Lemma truncateExtracted_short s :
  length s <= MAX_CHARS_EXTRACT -> truncateExtracted s = (s, false).
Proof.
  intros H. unfold truncateExtracted.
  destruct (Nat.ltb_spec MAX_CHARS_EXTRACT (length s)); [lia | reflexivity].
Qed.

Lemma truncateExtracted_long s :
  MAX_CHARS_EXTRACT < length s ->
  length (fst (truncateExtracted s)) <= MAX_CHARS_EXTRACT /\
  snd (truncateExtracted s) = true.
Proof.
  unfold truncateExtracted. generalize MAX_CHARS_EXTRACT. intros m H.
  destruct (Nat.ltb_spec m (length s)); [|lia].
  destruct (0 <? lastIndexOf 46 (substring0 m s))%Z;
    cbn [fst snd]; (split; [|reflexivity]).
  - etransitivity; [apply substring0_length|].
    pose proof (lastIndexWhere_bounds (fun x => N.eqb x 46)
                  (substring0 m s)) as B.
    rewrite <- lastIndexOf_where in B.
    pose proof (substring0_length m s). lia.
  - apply substring0_length.
Qed.

Lemma truncateForSpeech_short s :
  length s <= MAX_CHARS_SPEECH -> truncateForSpeech s = s.
Proof.
  intros H. unfold truncateForSpeech.
  destruct (Nat.ltb_spec MAX_CHARS_SPEECH (length s)); [lia | reflexivity].
Qed.

Lemma truncateForSpeech_long s :
  MAX_CHARS_SPEECH < length s ->
  (length (truncateForSpeech s) <= MAX_CHARS_SPEECH) \/
  (truncateForSpeech s = substring0 MAX_CHARS_SPEECH s ++ ellipsis /\
   length (truncateForSpeech s) = MAX_CHARS_SPEECH + length ellipsis).
Proof.
  unfold truncateForSpeech, nearEnough.
  generalize MAX_CHARS_SPEECH. intros m H.
  destruct (Nat.ltb_spec m (length s)); [|lia].
  destruct (Z.ltb_spec (7 * Z.of_nat m) (10 * cutPoint (substring0 m s))).
  - left.
    pose proof (lastIndexWhere_bounds Char.isTerminator (substring0 m s)) as B.
    rewrite <- cutPoint_where in B.
    pose proof (substring0_length m s).
    etransitivity; [apply substring0_length|]. lia.
  - right. split; [reflexivity|].
    rewrite length_app. unfold substring0. rewrite length_take. lia.
Qed.

(** C1: the truncation invariant, on both paths.  At most the budget
    is kept; only the pre-speech path may add the ellipsis marker on
    top of it; text within the budget is returned unchanged. *)
Theorem truncation_invariant (s : jsstring) :
  (length s <= 2200 -> truncateExtracted s = (s, false)) /\
  (2200 < length s -> length (fst (truncateExtracted s)) <= 2200) /\
  (length s <= 2000 -> truncateForSpeech s = s) /\
  (2000 < length s ->
     length (truncateForSpeech s) <= 2000 \/
     (truncateForSpeech s = substring0 2000 s ++ ellipsis /\
      length (truncateForSpeech s) = 2000 + length ellipsis)).
Proof.
  split; [apply truncateExtracted_short|].
  split; [intros H; apply (truncateExtracted_long s H)|].
  split; [apply truncateForSpeech_short | apply truncateForSpeech_long].
Qed.

Lemma truncation_invariant_witness :
  truncateExtracted (js "Short text.") = (js "Short text.", false) /\
  length (fst (truncateExtracted
                 (repeat 97%N 1200 ++ js ". " ++ repeat 98%N 1200))) <= 2200 /\
  truncateForSpeech (js "Short text.") = js "Short text." /\
  (length (truncateForSpeech (repeat 97%N 2100)) <= 2000 \/
   (truncateForSpeech (repeat 97%N 2100)
    = substring0 2000 (repeat 97%N 2100) ++ ellipsis /\
    length (truncateForSpeech (repeat 97%N 2100)) = 2000 + length ellipsis)).
Proof.
  pose proof (truncation_invariant (js "Short text.")) as (E1 & _ & S1 & _).
  pose proof (truncation_invariant
                (repeat 97%N 1200 ++ js ". " ++ repeat 98%N 1200))
    as (_ & E2 & _).
  pose proof (truncation_invariant (repeat 97%N 2100)) as (_ & _ & _ & S2).
  split; [apply E1; apply Nat.leb_le; vm_compute; reflexivity|].
  split; [apply E2; apply Nat.ltb_lt; vm_compute; reflexivity|].
  split; [apply S1; apply Nat.leb_le; vm_compute; reflexivity|].
  apply S2. apply Nat.ltb_lt. vm_compute. reflexivity.
Defined.

(** *** Sentence-boundary cut before speech *)

Lemma nearEnough_index c : nearEnough (Z.of_nat c) = (1400 <? c).
Proof.
  unfold nearEnough, MAX_CHARS_SPEECH.
  destruct (Nat.ltb_spec 1400 c); [apply Z.ltb_lt | apply Z.ltb_ge]; lia.
Qed.

Lemma truncateForSpeech_cut text c :
  MAX_CHARS_SPEECH < length text ->
  isLastTerminator MAX_CHARS_SPEECH text c ->
  truncateForSpeech text =
  if 1400 <? c then substring0 (c + 1) text
  else substring0 MAX_CHARS_SPEECH text ++ ellipsis.
Proof.
  intros Hlen Hc. unfold truncateForSpeech.
  destruct (Nat.ltb_spec MAX_CHARS_SPEECH (length text)); [|lia].
  rewrite (cutPoint_last _ _ _ Hc), nearEnough_index.
  destruct (1400 <? c); [|reflexivity].
  destruct Hc as [Hc _].
  replace (Z.to_nat (Z.of_nat c + 1)) with (c + 1) by lia.
  apply substring0_substring0. lia.
Qed.

Lemma truncateForSpeech_no_terminator text :
  MAX_CHARS_SPEECH < length text ->
  noTerminator MAX_CHARS_SPEECH text ->
  truncateForSpeech text = substring0 MAX_CHARS_SPEECH text ++ ellipsis.
Proof.
  intros Hlen Hc. unfold truncateForSpeech.
  destruct (Nat.ltb_spec MAX_CHARS_SPEECH (length text)); [|lia].
  now rewrite (cutPoint_none _ _ Hc).
Qed.

(** C6 (as amended): for text longer than 2000 characters, with [c] the
    largest index below 2000 holding [.], [?] or [!]: when [c] is
    strictly greater than 1400 (70% of the budget) the output is the
    prefix through [c]; when [c <= 1400], or when there is no such
    character, it is the 2000-character cut followed by the ellipsis. *)
Theorem truncateForSpeech_sentence_boundary (text : jsstring) :
  2000 < length text ->
  (forall c, isLastTerminator 2000 text c ->
     truncateForSpeech text =
     if 1400 <? c then substring0 (c + 1) text
     else substring0 2000 text ++ ellipsis) /\
  (noTerminator 2000 text ->
     truncateForSpeech text = substring0 2000 text ++ ellipsis).
Proof.
  intros H. split.
  - intros c. now apply truncateForSpeech_cut.
  - now apply truncateForSpeech_no_terminator.
Qed.

Lemma truncateForSpeech_sentence_boundary_witness :
  2000 < length (repeat 97%N 1500 ++ js "." ++ repeat 98%N 600) /\
  isLastTerminator 2000 (repeat 97%N 1500 ++ js "." ++ repeat 98%N 600) 1500 /\
  truncateForSpeech (repeat 97%N 1500 ++ js "." ++ repeat 98%N 600)
  = repeat 97%N 1500 ++ js ".".
Proof.
  assert (L : 2000 < length (repeat 97%N 1500 ++ js "." ++ repeat 98%N 600))
    by (apply Nat.ltb_lt; vm_compute; reflexivity).
  assert (C : isLastTerminator 2000
                (repeat 97%N 1500 ++ js "." ++ repeat 98%N 600) 1500)
    by (apply last_of_cutPoint; vm_compute; reflexivity).
  split; [exact L|]. split; [exact C|].
  rewrite (proj1 (truncateForSpeech_sentence_boundary _ L) 1500 C).
  vm_compute. reflexivity.
Defined.

(** C6 (as stated) fails at the boundary: a terminator at index 1400 is
    no further back than 70% of the budget, yet the code requires
    [cutPoint > 1400] and appends the ellipsis to the hard cut. *)
Lemma truncateForSpeech_boundary_1400 :
  2000 < length (repeat 97%N 1400 ++ js "." ++ repeat 98%N 700) /\
  isLastTerminator 2000 (repeat 97%N 1400 ++ js "." ++ repeat 98%N 700) 1400 /\
  (7 * 2000 <= 10 * 1400) /\
  truncateForSpeech (repeat 97%N 1400 ++ js "." ++ repeat 98%N 700)
  = repeat 97%N 1400 ++ js "." ++ repeat 98%N 599 ++ js "..." /\
  truncateForSpeech (repeat 97%N 1400 ++ js "." ++ repeat 98%N 700)
  <> substring0 1401 (repeat 97%N 1400 ++ js "." ++ repeat 98%N 700).
Proof.
  split; [apply Nat.ltb_lt; vm_compute; reflexivity|].
  split; [apply last_of_cutPoint; vm_compute; reflexivity|].
  split; [lia|].
  split; [vm_compute; reflexivity|].
  intros H. apply (f_equal length) in H. vm_compute in H. discriminate H.
Qed.

End TruncateFacts.

(** ** The page cap of the text-layer extractor *)

Module PdfTextFacts.
Import PdfText.

Lemma acc_settle s st : acc (settle s st) = acc st.
Proof. unfold settle. destruct (settled st); reflexivity. Qed.

Lemma currentPage_settle s st : currentPage (settle s st) = currentPage st.
Proof. unfold settle. destruct (settled st); reflexivity. Qed.

Lemma settled_settle s st :
  settled (settle s st) = match settled st with Some o => Some o | None => Some s end.
Proof.
  unfold settle. destruct (settled st) eqn:E; [exact E | reflexivity].
Qed.

Lemma settled_addText item st : settled (addText item st) = settled st.
Proof.
  unfold addText. destruct (truthyText item); [|reflexivity].
  destruct (currentPage st <=? maxPages)%Z; reflexivity.
Qed.

(** One callback, on the accumulator and the current page. *)
Lemma onItem_tokens st cb :
  acc (onItem st cb) ++ withinCap (tokens (currentPage (onItem st cb)) [])
  = acc st ++ withinCap (tokens (currentPage st) [cb]) /\
  forall rest,
    tokens (currentPage st) (cb :: rest)
    = tokens (currentPage st) [cb] ++ tokens (currentPage (onItem st cb)) rest.
Proof.
  destruct cb as [message|item|]; simpl.
  - rewrite acc_settle, currentPage_settle. auto.
  - unfold addText.
    destruct (truthyPage item) as [p|] eqn:P; simpl.
    + destruct (Z.ltb_spec maxPages p) as [L|L].
      * rewrite acc_settle, currentPage_settle. simpl.
        destruct (truthyText item) as [t|]; simpl; [|auto].
        destruct (Z.leb_spec p maxPages); [lia|]. auto.
      * destruct (truthyText item) as [t|]; simpl; [|auto].
        destruct (Z.leb_spec p maxPages); [|lia].
        simpl. rewrite !app_nil_r. auto.
    + destruct (truthyText item) as [t|]; simpl; [|auto].
      destruct (currentPage st <=? maxPages)%Z; simpl;
        rewrite ?app_nil_r; auto.
  - rewrite acc_settle, currentPage_settle. auto.
Qed.

Lemma withinCap_app a b : withinCap (a ++ b) = withinCap a ++ withinCap b.
Proof. unfold withinCap. apply flat_map_app. Qed.

(** The accumulator holds the tokens delivered for pages up to the cap,
    and nothing else. *)
Lemma acc_fold events st :
  acc (fold_left onItem events st)
  = acc st ++ withinCap (tokens (currentPage st) events).
Proof.
  revert st. induction events as [|cb rest IH]; intros st.
  - simpl. now rewrite app_nil_r.
  - cbn [fold_left]. rewrite IH.
    destruct (onItem_tokens st cb) as [H1 H2].
    rewrite (H2 rest), withinCap_app, app_assoc, <- H1.
    simpl. now rewrite app_nil_r.
Qed.

Lemma acc_parse events : acc (parse events) = withinCap (tokens 0 events).
Proof. unfold parse. now rewrite acc_fold. Qed.

(** The promise keeps its first settlement. *)
Lemma settled_onItem st cb o :
  settled st = Some o -> settled (onItem st cb) = Some o.
Proof.
  intros H. destruct cb as [message|item|]; simpl.
  - now rewrite settled_settle, H.
  - destruct (truthyPage item) as [p|]; [|now rewrite settled_addText].
    destruct (maxPages <? p)%Z.
    + now rewrite settled_settle; simpl; rewrite H.
    + now rewrite settled_addText.
  - now rewrite settled_settle; simpl; rewrite H.
Qed.

Lemma settled_fold events st o :
  settled st = Some o -> settled (fold_left onItem events st) = Some o.
Proof.
  revert st. induction events as [|cb rest IH]; intros st H; [exact H|].
  cbn [fold_left]. apply IH, settled_onItem, H.
Qed.

(** The first page item beyond the cap resolves the promise with what
    was accumulated before it. *)
Lemma settled_overCap st item :
  settled st = None -> overCap item ->
  settled (onItem st (CbItem item)) = Some (Resolved (Clean.trim (acc st))).
Proof.
  intros H (p & P & L). simpl. rewrite P.
  destruct (Z.ltb_spec maxPages p); [|lia].
  rewrite settled_settle. simpl. now rewrite H.
Qed.

Lemma parse_app pre post :
  parse (pre ++ post) = fold_left onItem post (parse pre).
Proof. unfold parse. apply fold_left_app. Qed.

(** The page counter follows every page item of the stream, before and
    after the promise is settled. *)
Lemma pageCount_settle s st : pageCount (settle s st) = pageCount st.
Proof. unfold settle. destruct (settled st); reflexivity. Qed.

Lemma pageCount_addText item st : pageCount (addText item st) = pageCount st.
Proof.
  unfold addText. destruct (truthyText item); [|reflexivity].
  destruct (currentPage st <=? maxPages)%Z; reflexivity.
Qed.

Lemma pageCount_fold events st :
  pageCount (fold_left onItem events st) = highestPage (pageCount st) events.
Proof.
  revert st. induction events as [|cb rest IH]; intros st; [reflexivity|].
  cbn [fold_left highestPage]. rewrite IH.
  destruct cb as [message|item|]; cbn [onItem].
  - now rewrite pageCount_settle.
  - destruct (truthyPage item) as [p|]; [|now rewrite pageCount_addText].
    destruct (maxPages <? p)%Z.
    + now rewrite pageCount_settle.
    + now rewrite pageCount_addText.
  - now rewrite pageCount_settle.
Qed.

(** C5 (as amended): in a stream that reaches a page item beyond the cap
    of 3 before the promise is settled, the accumulator holds at every
    step exactly the tokens delivered for pages up to 3, never one of
    page 4 or later; the promise is resolved at that page item with the
    trimmed text accumulated so far, and nothing the parser delivers
    afterwards changes the text returned, although the callback still
    handles it: the page counter follows the page items of the whole
    stream. *)
Theorem page_cap (pre rest : list Callback) (item : Item) :
  overCap item -> settled (parse pre) = None ->
  (forall k,
     acc (parse (take k (pre ++ CbItem item :: rest)))
     = withinCap (tokens 0 (take k (pre ++ CbItem item :: rest)))) /\
  settled (parse (pre ++ CbItem item :: rest))
  = Some (Resolved (Clean.trim (withinCap (tokens 0 pre)))) /\
  pageCount (parse (pre ++ CbItem item :: rest))
  = highestPage 0 (pre ++ CbItem item :: rest).
Proof.
  intros Hover Hpending. split; [|split].
  - intros k. apply acc_parse.
  - rewrite parse_app. cbn [fold_left].
    rewrite <- acc_parse.
    apply settled_fold, settled_overCap; assumption.
  - unfold parse. now rewrite pageCount_fold.
Qed.

Lemma page_cap_witness :
  overCap {| page := Some 4%Z; text := None |} /\
  settled (parse [CbItem {| page := Some 1%Z; text := None |};
                  CbItem {| page := None; text := Some (js "Intro") |};
                  CbItem {| page := Some 3%Z; text := None |};
                  CbItem {| page := None; text := Some (js "End") |}]) = None /\
  settled (parse ([CbItem {| page := Some 1%Z; text := None |};
                   CbItem {| page := None; text := Some (js "Intro") |};
                   CbItem {| page := Some 3%Z; text := None |};
                   CbItem {| page := None; text := Some (js "End") |}]
                  ++ CbItem {| page := Some 4%Z; text := None |}
                  :: [CbItem {| page := None; text := Some (js "Hidden") |};
                      CbEnd]))
  = Some (Resolved (js "Intro End")).
Proof.
  assert (O : overCap {| page := Some 4%Z; text := None |})
    by (exists 4%Z; split; [reflexivity | unfold maxPages; lia]).
  split; [exact O|]. split; [reflexivity|].
  exact (proj1 (proj2 (page_cap
                  [CbItem {| page := Some 1%Z; text := None |};
                   CbItem {| page := None; text := Some (js "Intro") |};
                   CbItem {| page := Some 3%Z; text := None |};
                   CbItem {| page := None; text := Some (js "End") |}]
                  [CbItem {| page := None; text := Some (js "Hidden") |};
                   CbEnd]
                  {| page := Some 4%Z; text := None |} O eq_refl))).
Defined.

(** C5 (as stated) fails in its last part: the callback cannot stop
    [PdfReader], which goes on delivering items after the cap is
    exceeded, and the callback handles them.  Here the items after the
    one of page 4 raise the page counters from 4 to 5, and the handler
    reports 5 pages. *)
Lemma parse_continues_after_cap :
  overCap {| page := Some 4%Z; text := None |} /\
  settled (parse Scenario.beforeCap) = None /\
  totalPages (parse (Scenario.beforeCap ++ [Scenario.pageItem 4])) = 4%Z /\
  totalPages (parse (Scenario.beforeCap ++ Scenario.pageItem 4
                     :: Scenario.afterCap)) = 5%Z /\
  parse (Scenario.beforeCap ++ Scenario.pageItem 4 :: Scenario.afterCap)
  <> parse (Scenario.beforeCap ++ [Scenario.pageItem 4]) /\
  ExtractPdf.field Scenario.first "pages" = Some (ExtractPdf.JNumber 5).
Proof.
  split; [exists 4%Z; split; [reflexivity | unfold maxPages; lia]|].
  repeat split; try (vm_compute; reflexivity).
  intros H. apply (f_equal totalPages) in H. vm_compute in H. discriminate H.
Qed.

(** Tokens delivered for a page beyond the cap add nothing. *)
Lemma withinCap_beyond p t toks :
  (maxPages < p)%Z -> withinCap ((p, t) :: toks) = withinCap toks.
Proof.
  intros H. unfold withinCap. simpl.
  destruct (Z.leb_spec p maxPages); [lia | reflexivity].
Qed.

(** When the page items are numbered from 1, every token belongs to a
    page numbered from 1, or was delivered before the first page item
    (page [cur]). *)
Lemma tokens_pages cur events :
  (forall item p, In (CbItem item) events -> truthyPage item = Some p ->
                  (1 <= p)%Z) ->
  List.Forall (fun pt => (1 <= fst pt)%Z \/ fst pt = cur) (tokens cur events).
Proof.
  revert cur. induction events as [|cb rest IH]; intros cur Hpages.
  - constructor.
  - assert (Hrest : forall item p, In (CbItem item) rest ->
              truthyPage item = Some p -> (1 <= p)%Z)
      by (intros i p Hi; apply Hpages; right; exact Hi).
    destruct cb as [message|item|]; cbn [tokens]; auto.
    set (cur' := match truthyPage item with Some p => p | None => cur end).
    assert (Hcur' : (1 <= cur')%Z \/ cur' = cur).
    { unfold cur'. destruct (truthyPage item) as [p|] eqn:P; [left|right; auto].
      apply (Hpages item p); [left; reflexivity | exact P]. }
    assert (Htail : List.Forall (fun pt => (1 <= fst pt)%Z \/ fst pt = cur)
                      (tokens cur' rest)).
    { eapply List.Forall_impl; [|apply (IH cur' Hrest)].
      intros pt [H|H]; [left; exact H|]. rewrite H. exact Hcur'. }
    destruct (truthyText item); [constructor; [exact Hcur'|]|]; exact Htail.
Qed.

End PdfTextFacts.

(** ** The OCR fallback *)

Module OcrFacts.
Import Js Ocr.

(** *** Paths *)

Lemma elem_of_fs (path : jsstring) (fs : FS) :
  path ∈ fs <-> is_Some (fs !! path).
Proof. reflexivity. Qed.

Lemma not_elem_of_empty_fs (path : jsstring) : path ∉ (∅ : FS).
Proof. rewrite elem_of_fs, lookup_empty. intros [k H]. discriminate H. Qed.

Lemma elem_of_insert_fs (path q : jsstring) (k : Kind) (fs : FS) :
  q ∈ <[path := k]> fs <-> q = path \/ q ∈ fs.
Proof.
  rewrite !elem_of_fs, lookup_insert_is_Some. split.
  - intros [<-|[_ H]]; auto.
  - intros [->|H]; [now left|].
    destruct (decide (path = q)); [now left | now right].
Qed.

Lemma elem_of_delete_fs (path q : jsstring) (fs : FS) :
  q ∈ delete path fs <-> q <> path /\ q ∈ fs.
Proof.
  rewrite !elem_of_fs, lookup_delete_is_Some. split.
  - intros [N H]. split; [congruence | exact H].
  - intros [N H]. split; [congruence | exact H].
Qed.

Lemma exists_true (path : jsstring) (fs : FS) k :
  fs !! path = Some k -> bool_decide (path ∈ fs) = true.
Proof. intros H. apply bool_decide_eq_true_2. rewrite elem_of_fs, H. eauto. Qed.

Lemma exists_false (path : jsstring) (fs : FS) :
  fs !! path = None -> bool_decide (path ∈ fs) = false.
Proof.
  intros H. apply bool_decide_eq_false_2. rewrite elem_of_fs, H.
  intros [k E]. discriminate E.
Qed.

(** *** The [finally] block *)

(** The [finally] block removes the file when there is one, throws on a
    directory, and does nothing when the path is missing. *)
Lemma cleanup_cases path fs :
  cleanup path fs
  = match fs !! path with
    | Some Directory => (Thrown EISDIR, fs)
    | _ => (Returned tt, delete path fs)
    end.
Proof.
  unfold cleanup, bind, existsSync, unlinkSync. cbv beta iota.
  destruct (fs !! path) as [[|]|] eqn:E.
  - rewrite (exists_true _ _ _ E), E. reflexivity.
  - rewrite (exists_true _ _ _ E), E. reflexivity.
  - rewrite (exists_false _ _ E). unfold ret. now rewrite delete_id.
Qed.

Lemma tryFinally_cleanup {A} (body : M A) path fs :
  tryFinally body (cleanup path) fs
  = match snd (body fs) !! path with
    | Some Directory => (Thrown EISDIR, snd (body fs))
    | _ => (fst (body fs), delete path (snd (body fs)))
    end.
Proof.
  unfold tryFinally. destruct (body fs) as [o fs']. cbn [fst snd].
  rewrite cleanup_cases. destruct (fs' !! path) as [[|]|]; reflexivity.
Qed.

(** *** One page *)

(** A page never throws: it adds its contribution, or nothing. *)
Lemma ocrPage_returns env pageNum extractedText fs :
  fst (ocrPage env pageNum extractedText fs)
  = Returned (extractedText ++ pageContribution env pageNum).
Proof.
  unfold ocrPage, pageContribution, tryCatch, bind, create, existsSync,
    unlinkSync, throw, ret.
  destruct (convert env pageNum) as [e|[|c path]]; cbn [fst];
    rewrite ?app_nil_r; try reflexivity.
  destruct (recognize env pageNum) as [e|pageText]; cbn [fst];
    rewrite ?app_nil_r; try reflexivity.
  rewrite (exists_true _ _ _ (lookup_insert_eq fs (c :: path) RegularFile)).
  rewrite lookup_insert_eq. cbn [fst].
  destruct (Clean.trim pageText); rewrite ?app_nil_r; reflexivity.
Qed.

(** What a page leaves on disk: the image, when its recognition throws;
    otherwise nothing at the path of the image. *)
Lemma ocrPage_files env pageNum extractedText fs :
  snd (ocrPage env pageNum extractedText fs)
  = match convert env pageNum with
    | ConvertOk (c :: path) =>
        match recognize env pageNum with
        | RecognizeThrows _ => <[c :: path := RegularFile]> fs
        | RecognizeOk _ => delete (c :: path) fs
        end
    | _ => fs
    end.
Proof.
  unfold ocrPage, tryCatch, bind, create, existsSync, unlinkSync, throw, ret.
  destruct (convert env pageNum) as [e|[|c path]]; try reflexivity.
  destruct (recognize env pageNum) as [e|pageText]; try reflexivity.
  rewrite (exists_true _ _ _ (lookup_insert_eq fs (c :: path) RegularFile)).
  rewrite lookup_insert_eq. cbn [snd]. apply delete_insert_eq.
Qed.

(** A page makes no directory. *)
Lemma ocrPage_directory env pageNum extractedText fs path :
  snd (ocrPage env pageNum extractedText fs) !! path = Some Directory ->
  fs !! path = Some Directory.
Proof.
  rewrite ocrPage_files.
  destruct (convert env pageNum) as [e|[|c p]]; auto.
  destruct (recognize env pageNum) as [e|pageText].
  - rewrite lookup_insert_Some. intros [[_ H]|[_ H]]; [discriminate H | exact H].
  - rewrite lookup_delete_Some. tauto.
Qed.


(** *** The three pages *)

Lemma ocrPages_returns env fs :
  fst (ocrPages env fs)
  = Returned (pageContribution env 1 ++ pageContribution env 2
              ++ pageContribution env 3).
Proof.
  unfold ocrPages, bind.
  pose proof (ocrPage_returns env 1 [] fs) as H1.
  destruct (ocrPage env 1 [] fs) as [o1 fs1]. cbn [fst] in H1. subst o1.
  pose proof (ocrPage_returns env 2 ([] ++ pageContribution env 1) fs1) as H2.
  destruct (ocrPage env 2 _ fs1) as [o2 fs2]. cbn [fst] in H2. subst o2.
  rewrite ocrPage_returns. cbn [app]. now rewrite app_assoc.
Qed.

(** The loop is the three pages one after the other. *)
Lemma ocrPages_files env fs :
  exists t1 t2,
    snd (ocrPages env fs)
    = snd (ocrPage env 3 t2
             (snd (ocrPage env 2 t1 (snd (ocrPage env 1 [] fs))))).
Proof.
  unfold ocrPages, bind.
  pose proof (ocrPage_returns env 1 [] fs) as H1.
  destruct (ocrPage env 1 [] fs) as [o1 fs1]. cbn [fst snd] in *. subst o1.
  pose proof (ocrPage_returns env 2 ([] ++ pageContribution env 1) fs1) as H2.
  exists ([] ++ pageContribution env 1).
  destruct (ocrPage env 2 _ fs1) as [o2 fs2]. cbn [fst snd] in *. subst o2.
  eexists. reflexivity.
Qed.

Lemma ocrPages_directory env fs path :
  snd (ocrPages env fs) !! path = Some Directory ->
  fs !! path = Some Directory.
Proof.
  destruct (ocrPages_files env fs) as (t1 & t2 & ->). intros H.
  now apply ocrPage_directory, ocrPage_directory, ocrPage_directory in H.
Qed.


(** *** The try block *)

(** What the try block returns and leaves when the write and the
    converter set-up succeed. *)
Lemma tryBlock_succeeds env buffer filename fs :
  writeError env = None -> fromPathError env = None ->
  tryBlock env buffer filename fs
  = (Returned (Clean.trim (pageContribution env 1 ++ pageContribution env 2
                           ++ pageContribution env 3)),
     snd (ocrPages env (<[tempPdfPath env filename := RegularFile]> fs))).
Proof.
  intros Hwrite Hfrom.
  unfold tryBlock, tryCatch, bind, writeFileSync, create. rewrite Hwrite, Hfrom.
  pose proof (ocrPages_returns env
                (<[tempPdfPath env filename := RegularFile]> fs)) as P.
  destruct (ocrPages env _) as [o fs2]. cbn [fst] in P. subst o. reflexivity.
Qed.

(** When one of them fails the block throws the OCR error. *)
Lemma tryBlock_fails env buffer filename fs :
  writeError env <> None \/ fromPathError env <> None ->
  fst (tryBlock env buffer filename fs) = Thrown OCR_FAILED.
Proof.
  intros Hfail. unfold tryBlock, tryCatch, bind, writeFileSync, create, throw.
  destruct (writeError env) as [e|]; [reflexivity|].
  destruct (fromPathError env) as [e|]; [reflexivity|].
  destruct Hfail; congruence.
Qed.



(** After a write that put a file there, the path of the temporary PDF
    holds a file or nothing at the end of the block. *)
Lemma tryBlock_written env buffer filename fs :
  writeError env = None \/ writeLeavesFile env = true ->
  snd (tryBlock env buffer filename fs) !! tempPdfPath env filename
  <> Some Directory.
Proof.
  intros Hw.
  unfold tryBlock, tryCatch, bind, writeFileSync, create, throw, ret.
  destruct (writeError env) as [e|].
  - destruct Hw as [Hw| ->]; [discriminate Hw|]. cbn [snd].
    rewrite lookup_insert_eq. discriminate.
  - destruct (fromPathError env) as [e|].
    + cbn [snd]. rewrite lookup_insert_eq. discriminate.
    + pose proof (ocrPages_directory env
                    (<[tempPdfPath env filename := RegularFile]> fs)
                    (tempPdfPath env filename)) as D.
      rewrite lookup_insert_eq in D.
      destruct (ocrPages env _) as [[t|e] fs2]; cbn [snd] in *;
        intros H; apply D in H; discriminate H.
Qed.

(** *** The whole call *)

(** The directory step: it throws and the call ends, or the try block
    runs on the file system it leaves, followed by the [finally]
    block. *)
Lemma ocr_unfold env buffer filename fs :
  extractTextWithOCR env buffer filename fs
  = match (if bool_decide (tempDir env ∈ fs) then ret tt
           else mkdirSync (tempDir env) (mkdirError env)) fs with
    | (Returned _, fs1) =>
        tryFinally (tryBlock env buffer filename)
          (cleanup (tempPdfPath env filename)) fs1
    | (Thrown e, fs1) => (Thrown e, fs1)
    end.
Proof. reflexivity. Qed.

Lemma ocr_run env buffer filename fs :
  ((tempDir env ∉ fs) /\
   exists e, mkdirError env = Some e /\
             extractTextWithOCR env buffer filename fs = (Thrown e, fs)) \/
  (entered env fs /\
   exists fs1,
     (fs1 = fs \/
      (tempDir env ∉ fs) /\ fs1 = <[tempDir env := Directory]> fs) /\
     extractTextWithOCR env buffer filename fs
     = tryFinally (tryBlock env buffer filename)
         (cleanup (tempPdfPath env filename)) fs1).
Proof.
  rewrite ocr_unfold.
  destruct (bool_decide (tempDir env ∈ fs)) eqn:E.
  - apply bool_decide_eq_true in E. right. split; [now left|].
    exists fs. split; [now left | reflexivity].
  - apply bool_decide_eq_false in E. unfold mkdirSync.
    destruct (mkdirError env) as [e|] eqn:Hmk.
    + left. split; [exact E|]. exists e. split; reflexivity.
    + right. split; [now right|].
      exists (<[tempDir env := Directory]> fs). split; [now right | reflexivity].
Qed.

(** When the steps outside the per-page [try] succeed, the fallback
    returns the trimmed contributions of the three pages. *)
Lemma ocr_returns env buffer filename fs :
  outerStepsSucceed env fs ->
  fst (extractTextWithOCR env buffer filename fs)
  = Returned (Clean.trim (pageContribution env 1 ++ pageContribution env 2
                          ++ pageContribution env 3)).
Proof.
  intros (Hdir & Hwrite & Hfrom).
  destruct (ocr_run env buffer filename fs)
    as [(Hno & e & Hmk & _)|(_ & fs1 & _ & ->)].
  { destruct Hdir as [H|H]; [destruct (Hno H) | congruence]. }
  rewrite tryFinally_cleanup.
  pose proof (tryBlock_written env buffer filename fs1 (or_introl Hwrite)) as W.
  rewrite (tryBlock_succeeds env buffer filename fs1 Hwrite Hfrom) in *.
  cbn [fst snd] in *.
  destruct (snd (ocrPages env _) !! tempPdfPath env filename) as [[|]|];
    [reflexivity | destruct (W eq_refl) | reflexivity].
Qed.

Lemma ocr_thrown_outer env buffer filename fs e :
  fst (extractTextWithOCR env buffer filename fs) = Thrown e ->
  ~ outerStepsSucceed env fs.
Proof.
  intros H Hok. rewrite (ocr_returns env buffer filename fs Hok) in H.
  discriminate H.
Qed.

(** A failure of the write or of the converter set-up, inside the outer
    [try], makes the fallback throw. *)
Lemma ocr_throws_wrapped env buffer filename fs :
  entered env fs ->
  (writeError env <> None \/ fromPathError env <> None) ->
  fst (extractTextWithOCR env buffer filename fs) = Thrown OCR_FAILED \/
  fst (extractTextWithOCR env buffer filename fs) = Thrown EISDIR.
Proof.
  intros Hdir Hfail.
  destruct (ocr_run env buffer filename fs)
    as [(Hno & e & Hmk & _)|(_ & fs1 & _ & ->)].
  { destruct Hdir as [H|H]; [destruct (Hno H) | congruence]. }
  rewrite tryFinally_cleanup.
  destruct (snd (tryBlock env buffer filename fs1) !! _) as [[|]|];
    cbn [fst]; auto using tryBlock_fails.
Qed.





(** The exit on which the [finally] block throws: the path of the
    temporary PDF is the [temp] directory, the write fails on it, and
    [unlinkSync] fails on it in turn; its error replaces the OCR error
    and the directory stays. *)
Example finally_throws_on_directory :
  tempPdfPath Scenario.dirEnv (js "x/..") = tempDir Scenario.dirEnv /\
  extractTextWithOCR Scenario.dirEnv [37; 80; 68; 70]%N (js "x/..")
    {[ js "/app/temp" := Directory ]}
  = (Thrown EISDIR, {[ js "/app/temp" := Directory ]}).
Proof.
  split; [reflexivity|].
  destruct (ocr_run Scenario.dirEnv [37; 80; 68; 70]%N (js "x/..")
              {[ js "/app/temp" := Directory ]})
    as [(Hno & _)|(_ & fs1 & [->|[Hno _]] & ->)].
  - destruct Hno. exists Directory. reflexivity.
  - rewrite tryFinally_cleanup. reflexivity.
  - destruct Hno. exists Directory. reflexivity.
Qed.


End OcrFacts.

(** ** The extraction handler *)

Module ExtractFacts.
Import Js ExtractPdf.

(** Case analysis on every condition of a cascade of [if]s. *)
Ltac split_ifs :=
  repeat match goal with
         | |- context [if ?b then _ else _] => destruct b
         end.

(** *** Response bodies *)

Lemma respond_cached st message :
  body (respond st message) !! "cached"%string = None.
Proof. reflexivity. Qed.

Lemma handleError_cached e : body (handleError e) !! "cached"%string = None.
Proof.
  unfold handleError. split_ifs; reflexivity.
Qed.

Lemma freshResponse_cached t p o w f i :
  body (freshResponse t p o w f i) !! "cached"%string = Some (JBool false).
Proof. reflexivity. Qed.

Lemma cachedResponse_fields doc :
  body (cachedResponse doc) !! "cached"%string = Some (JBool true) /\
  body (cachedResponse doc) !! "text"%string
  = Some (JString (Database.extracted_text doc)) /\
  body (cachedResponse doc) !! "originalLength"%string
  = Some (JNumber (length_of (Database.extracted_text doc))) /\
  body (cachedResponse doc) !! "extractedLength"%string
  = Some (JNumber (length_of (Database.extracted_text doc))) /\
  body (cachedResponse doc) !! "wasTruncated"%string = None.
Proof. repeat split; reflexivity. Qed.

(** *** The stages of the handler *)

Lemma store_calls d fs file t tp used :
  calls (store d fs file t tp used) = used ++ [CallInsert].
Proof.
  unfold store. destruct (Truncate.truncateExtracted _). reflexivity.
Qed.

Lemma store_response d fs file t tp used :
  exists finalText originalLength wasTruncated documentId,
    response (store d fs file t tp used)
    = Some (freshResponse finalText tp originalLength wasTruncated
              (name file) documentId).
Proof.
  unfold store. destruct (Truncate.truncateExtracted _) as [ft w].
  simpl. eauto 10.
Qed.

Lemma validate_respond file r :
  validate file = Some r -> exists st message, r = respond st message.
Proof.
  unfold validate. split_ifs; intros H; inversion H; eauto.
Qed.

Lemma afterTextLayer_ocr ext d fs file t tp :
  In CallOcr (calls (afterTextLayer ext d fs file t tp))
  <-> length (Clean.trim t) < 50.
Proof.
  unfold afterTextLayer.
  destruct (Nat.ltb_spec (length (Clean.trim t)) 50) as [L|L].
  - split; [auto|]. intros _.
    destruct (Ocr.extractTextWithOCR _ _ _ _) as [[ocrText|e] fs'].
    + destruct (Clean.trim ocrText); [simpl; auto|].
      rewrite store_calls. simpl. auto.
    + simpl. auto.
  - rewrite store_calls. simpl. split; [|lia].
    intros [H|[H|[]]]; discriminate H.
Qed.

Lemma POST_extracts ext d fs request t :
  extracts ext d request t ->
  exists file tp,
    request = Some file /\
    POST ext d fs request = afterTextLayer ext d fs file t tp.
Proof.
  intros (file & tp & -> & Hv & Hc & Ht).
  exists file, tp. split; [reflexivity|].
  unfold POST. rewrite Hv, Hc.
  destruct (textLayer ext file) as [used o]. simpl in Ht. subst o.
  reflexivity.
Qed.

Lemma POST_ocr_extracts ext d fs request :
  In CallOcr (calls (POST ext d fs request)) ->
  exists t, extracts ext d request t /\ length (Clean.trim t) < 50.
Proof.
  unfold POST. destruct request as [file|]; [|intros []].
  destruct (validate file) as [r|] eqn:V; [intros []|].
  destruct (cacheCheck d file) eqn:C; [intros []|].
  destruct (textLayer ext file) as [used [[[t tp]|e]|]] eqn:T.
  - intros H. apply afterTextLayer_ocr in H. exists t. split; [|exact H].
    exists file, tp. rewrite T. auto.
  - unfold textLayer in T. destruct (bytes file); [inversion T; intros []|].
    destruct (negb _); inversion T; simpl; intuition discriminate.
  - unfold textLayer in T. destruct (bytes file); [inversion T|].
    destruct (negb _); inversion T; simpl; intuition discriminate.
Qed.

Lemma store_files d fs file t tp used : files (store d fs file t tp used) = fs.
Proof.
  unfold store. destruct (Truncate.truncateExtracted _) as [ft w]. reflexivity.
Qed.

(** What follows the text layer, below the threshold: the fallback runs
    on the buffer and the name of the upload, and the run is made of
    what it returns and leaves. *)
Lemma afterTextLayer_below ext d fs file t tp :
  length (Clean.trim t) < 50 ->
  files (afterTextLayer ext d fs file t tp)
  = snd (Ocr.extractTextWithOCR (ocrEnv ext) (bytes file) (name file) fs) /\
  (forall e,
     fst (Ocr.extractTextWithOCR (ocrEnv ext) (bytes file) (name file) fs)
     = Thrown e ->
     response (afterTextLayer ext d fs file t tp) = Some (handleError e) /\
     db (afterTextLayer ext d fs file t tp) = d) /\
  (forall ocrText,
     fst (Ocr.extractTextWithOCR (ocrEnv ext) (bytes file) (name file) fs)
     = Returned ocrText ->
     (Clean.trim ocrText = [] ->
      response (afterTextLayer ext d fs file t tp)
      = Some (respond 400 NO_TEXT) /\
      db (afterTextLayer ext d fs file t tp) = d) /\
     (Clean.trim ocrText <> [] ->
      afterTextLayer ext d fs file t tp
      = store d
          (snd (Ocr.extractTextWithOCR (ocrEnv ext) (bytes file) (name file)
                  fs))
          file ocrText tp [CallPdfReader; CallOcr])).
Proof.
  intros L. unfold afterTextLayer.
  destruct (Nat.ltb_spec (length (Clean.trim t)) 50) as [_|G]; [|lia].
  destruct (Ocr.extractTextWithOCR _ _ _ _) as [[ocrText|e] fs'];
    cbn [fst snd].
  - destruct (Clean.trim ocrText) as [|c r] eqn:T.
    + split; [reflexivity|]. split; [intros e H; discriminate H|].
      intros o H. inversion H; subst o. rewrite T. split; [auto | congruence].
    + split; [apply store_files|]. split; [intros e H; discriminate H|].
      intros o H. inversion H; subst o. rewrite T.
      split; [discriminate | reflexivity].
  - split; [reflexivity|]. split; [|intros o H; discriminate H].
    intros e' H. inversion H; subst e'. auto.
Qed.

(** From the threshold on the fallback is not run. *)
Lemma afterTextLayer_above ext d fs file t tp :
  50 <= length (Clean.trim t) ->
  afterTextLayer ext d fs file t tp = store d fs file t tp [CallPdfReader].
Proof.
  intros L. unfold afterTextLayer.
  destruct (Nat.ltb_spec (length (Clean.trim t)) 50); [lia | reflexivity].
Qed.

(** C4: in a run whose text-layer extraction yields [t], the OCR
    fallback is invoked exactly when the trimmed [t] has fewer than 50
    characters.  Below 50 the fallback runs on the buffer and the name
    of the upload: the run leaves the file system the fallback leaves,
    answers with the error it throws, or with 400 when it returns blank
    text, and otherwise stores and returns the text it returns, not
    [t].  From 50 on the fallback is not run: [t] is stored and
    returned, the file system is untouched, and the run is the same
    whatever the OCR environment. *)
Theorem ocr_threshold (ext : External) (d : Database.Db) (fs : FS)
    (request : option File) (t : jsstring) :
  extracts ext d request t ->
  exists file totalPages,
    request = Some file /\
    snd (textLayer ext file) = Some (Returned (t, totalPages)) /\
    (In CallOcr (calls (POST ext d fs request))
     <-> length (Clean.trim t) < 50) /\
    (length (Clean.trim t) < 50 ->
     files (POST ext d fs request)
     = snd (Ocr.extractTextWithOCR (ocrEnv ext) (bytes file) (name file) fs) /\
     (forall e,
        fst (Ocr.extractTextWithOCR (ocrEnv ext) (bytes file) (name file) fs)
        = Thrown e ->
        response (POST ext d fs request) = Some (handleError e) /\
        db (POST ext d fs request) = d) /\
     (forall ocrText,
        fst (Ocr.extractTextWithOCR (ocrEnv ext) (bytes file) (name file) fs)
        = Returned ocrText ->
        (Clean.trim ocrText = [] ->
         response (POST ext d fs request) = Some (respond 400 NO_TEXT) /\
         db (POST ext d fs request) = d) /\
        (Clean.trim ocrText <> [] ->
         POST ext d fs request
         = store d
             (snd (Ocr.extractTextWithOCR (ocrEnv ext) (bytes file)
                     (name file) fs))
             file ocrText totalPages [CallPdfReader; CallOcr]))) /\
    (50 <= length (Clean.trim t) ->
     POST ext d fs request = store d fs file t totalPages [CallPdfReader] /\
     files (POST ext d fs request) = fs /\
     forall env',
       POST {| pdfEvents := pdfEvents ext; ocrEnv := env' |} d fs request
       = POST ext d fs request).
Proof.
  intros (file & tp & -> & Hv & Hc & Ht).
  exists file, tp. split; [reflexivity|]. split; [exact Ht|].
  assert (E : forall ext',
             pdfEvents ext' = pdfEvents ext ->
             POST ext' d fs (Some file) = afterTextLayer ext' d fs file t tp).
  { intros ext' Hev. unfold POST. rewrite Hv, Hc.
    assert (T : textLayer ext' file = textLayer ext file)
      by (unfold textLayer; now rewrite Hev).
    rewrite T. destruct (textLayer ext file) as [used o].
    cbn [snd] in Ht. subst o. reflexivity. }
  rewrite (E ext eq_refl).
  split; [apply afterTextLayer_ocr|]. split.
  - apply afterTextLayer_below.
  - intros L. rewrite (afterTextLayer_above ext d fs file t tp L).
    split; [reflexivity|]. split; [apply store_files|].
    intros env'.
    rewrite (E {| pdfEvents := pdfEvents ext; ocrEnv := env' |} eq_refl).
    now apply afterTextLayer_above.
Qed.

Lemma ocr_threshold_witness :
  (extracts Scenario.ext Database.empty (Some Scenario.older)
     (js "This is the first page of the paper, with enough text. Second. Third") /\
   ~ In CallOcr
       (calls (POST Scenario.ext Database.empty ∅ (Some Scenario.older))) /\
   files (POST Scenario.ext Database.empty ∅ (Some Scenario.older)) = ∅) /\
  (extracts Scenario.scanExt Database.empty (Some Scenario.older) [] /\
   In CallOcr
     (calls (POST Scenario.scanExt Database.empty ∅ (Some Scenario.older))) /\
   files (POST Scenario.scanExt Database.empty ∅ (Some Scenario.older))
   = snd (Ocr.extractTextWithOCR Scenario.scanEnv (bytes Scenario.older)
            (name Scenario.older) ∅) /\
   js "/app/temp" ∈ files (POST Scenario.scanExt Database.empty ∅
                             (Some Scenario.older))).
Proof.
  split.
  - assert (E : extracts Scenario.ext Database.empty (Some Scenario.older)
                  (js "This is the first page of the paper, with enough text. Second. Third")).
    { exists Scenario.older, 5%Z. repeat split; vm_compute; reflexivity. }
    split; [exact E|].
    destruct (ocr_threshold Scenario.ext Database.empty ∅
                (Some Scenario.older) _ E)
      as (file & tp & Hreq & _ & Hiff & _ & Hhigh).
    split.
    + intros H. pose proof (proj1 Hiff H) as L. vm_compute in L. lia.
    + apply Hhigh. apply Nat.leb_le. vm_compute. reflexivity.
  - assert (E : extracts Scenario.scanExt Database.empty
                  (Some Scenario.older) []).
    { exists Scenario.older, 1%Z. repeat split; vm_compute; reflexivity. }
    split; [exact E|].
    destruct (ocr_threshold Scenario.scanExt Database.empty ∅
                (Some Scenario.older) _ E)
      as (file & tp & Hreq & _ & Hiff & Hlow & _).
    inversion Hreq; subst file. clear Hreq.
    assert (L : length (Clean.trim []) < 50)
      by (apply Nat.ltb_lt; vm_compute; reflexivity).
    split; [now apply Hiff|].
    destruct (Hlow L) as (F & _). split; [exact F|].
    rewrite F. exists Directory. vm_compute. reflexivity.
Defined.

(** *** The cache *)

Lemma cacheCheck_match d file doc :
  cacheCheck d file = Some doc ->
  In doc (Database.documents d) /\
  Database.filename doc = name file /\ Database.file_size doc = size file.
Proof.
  unfold cacheCheck, Database.findByFilename.
  destruct (find _ _) as [row|] eqn:F; [|discriminate].
  destruct (Z.eqb_spec (Database.file_size row) (size file)); [|discriminate].
  intros H. inversion H. subst row.
  apply find_some in F. destruct F as [Hin Hname].
  apply bool_decide_eq_true in Hname. auto.
Qed.

(** A hit answers from the stored row and touches nothing else. *)
Lemma POST_hit ext d fs file doc :
  validate file = None ->
  cacheCheck d file = Some doc ->
  POST ext d fs (Some file)
  = {| response := Some (cachedResponse doc); db := d; files := fs;
       calls := [] |}.
Proof. intros Hv Hc. unfold POST. now rewrite Hv, Hc. Qed.

(** The runs that answer with [cached: true] are the cache hits. *)
Lemma POST_cached_inv ext d fs request :
  field (POST ext d fs request) "cached" = Some (JBool true) ->
  exists file doc,
    request = Some file /\ cacheCheck d file = Some doc /\
    POST ext d fs request
    = {| response := Some (cachedResponse doc); db := d; files := fs;
         calls := [] |}.
Proof.
  unfold POST, field.
  destruct request as [file|];
    [|cbn [response]; rewrite respond_cached; discriminate].
  destruct (validate file) as [r|] eqn:V.
  - apply validate_respond in V. destruct V as (st & m & ->).
    cbn [response]. rewrite respond_cached. discriminate.
  - destruct (cacheCheck d file) as [doc|] eqn:C; [eauto 10|].
    destruct (textLayer ext file) as [used [[[t tp]|e]|]].
    + unfold afterTextLayer.
      assert (S : forall fs1 t1 used1,
                 match response (store d fs1 file t1 tp used1) with
                 | Some resp => body resp !! "cached"%string
                 | None => None
                 end = Some (JBool true) -> False).
      { intros fs1 t1 used1.
        destruct (store_response d fs1 file t1 tp used1)
          as (ft & ol & w & i & ->).
        rewrite freshResponse_cached. discriminate. }
      destruct (length (Clean.trim t) <? 50); [|intros H; destruct (S _ _ _ H)].
      destruct (Ocr.extractTextWithOCR _ _ _ _) as [[ocrText|e] fs'].
      * destruct (Clean.trim ocrText).
        -- cbn [response]. rewrite respond_cached. discriminate.
        -- intros H; destruct (S _ _ _ H).
      * cbn [response]. rewrite handleError_cached. discriminate.
    + cbn [response]. rewrite handleError_cached. discriminate.
    + cbn [response]. discriminate.
Qed.

(** C9: a call that hits the cache answers [cached: true] with the
    stored text, reports [originalLength] and [extractedLength] both
    equal to the length of that text, and has no [wasTruncated]
    property: the response is built from the stored row alone. *)
Theorem cached_response_lengths (ext : External) (d : Database.Db)
    (fs : FS) (file : File) (doc : Database.Document) :
  validate file = None ->
  cacheCheck d file = Some doc ->
  response (POST ext d fs (Some file)) = Some (cachedResponse doc) /\
  field (POST ext d fs (Some file)) "cached" = Some (JBool true) /\
  field (POST ext d fs (Some file)) "text"
  = Some (JString (Database.extracted_text doc)) /\
  field (POST ext d fs (Some file)) "originalLength"
  = Some (JNumber (length_of (Database.extracted_text doc))) /\
  field (POST ext d fs (Some file)) "extractedLength"
  = Some (JNumber (length_of (Database.extracted_text doc))) /\
  field (POST ext d fs (Some file)) "originalLength"
  = field (POST ext d fs (Some file)) "extractedLength" /\
  field (POST ext d fs (Some file)) "wasTruncated" = None.
Proof.
  intros Hv Hc. rewrite (POST_hit ext d fs file doc Hv Hc).
  unfold field. cbn [response].
  destruct (cachedResponse_fields doc) as (Hcached & Ht & Ho & He & Hw).
  rewrite Hcached, Ht, Ho, He, Hw. auto 10.
Qed.

Lemma cached_response_lengths_witness :
  validate Scenario.older = None /\
  (exists doc,
     cacheCheck (db Scenario.first) Scenario.older = Some doc /\
     field (POST Scenario.ext (db Scenario.first) ∅ (Some Scenario.older))
       "originalLength"
     = Some (JNumber (length_of (Database.extracted_text doc))) /\
     field (POST Scenario.ext (db Scenario.first) ∅ (Some Scenario.older))
       "extractedLength"
     = Some (JNumber (length_of (Database.extracted_text doc))) /\
     field (POST Scenario.ext (db Scenario.first) ∅ (Some Scenario.older))
       "wasTruncated" = None).
Proof.
  assert (V : validate Scenario.older = None) by (vm_compute; reflexivity).
  split; [exact V|].
  destruct (cacheCheck (db Scenario.first) Scenario.older) as [doc|] eqn:C;
    [|vm_compute in C; discriminate C].
  exists doc. split; [reflexivity|].
  destruct (cached_response_lengths Scenario.ext (db Scenario.first) ∅
              Scenario.older doc V C) as (_ & _ & _ & Ho & He & _ & Hw).
  auto.
Defined.

(** The same, read off the response: what [cached: true] implies. *)
Lemma cached_true_lengths ext d fs request :
  field (POST ext d fs request) "cached" = Some (JBool true) ->
  field (POST ext d fs request) "originalLength"
  = field (POST ext d fs request) "extractedLength" /\
  field (POST ext d fs request) "wasTruncated" = None.
Proof.
  intros H. apply POST_cached_inv in H.
  destruct H as (file & doc & _ & _ & ->).
  unfold field. cbn [response].
  destruct (cachedResponse_fields doc) as (_ & _ & Ho & He & Hw).
  now rewrite Ho, He, Hw.
Qed.





(** C3 fails on a table that already holds another file of the same
    name: [findByFilename] returns the older row, its size differs, and
    the upload is extracted and stored again although the table holds
    a row with its name and size. *)
Theorem cache_miss_behind_older_row :
  map (fun doc => (Database.filename doc, Database.file_size doc))
      (Database.documents (db Scenario.second))
  = [(js "paper.pdf", 1000%Z); (js "paper.pdf", 2000%Z)] /\
  (name Scenario.upload, size Scenario.upload) = (js "paper.pdf", 2000%Z) /\
  cacheCheck (db Scenario.second) Scenario.upload = None /\
  field Scenario.third "cached" = Some (JBool false) /\
  calls Scenario.third = [CallPdfReader; CallInsert] /\
  length (Database.documents (db Scenario.third)) = 3.
Proof. repeat split; vm_compute; reflexivity. Qed.

Lemma cacheCheck_first d file : cacheCheck d file = cacheCheckWith head d file.
Proof.
  unfold cacheCheck, cacheCheckWith, Database.findByFilename.
  assert (H : forall (p : Database.Document -> bool) l,
             find p l = head (List.filter p l)).
  { intros p l. induction l as [|x r IH]; [reflexivity|].
    cbn [find List.filter]. destruct (p x); [reflexivity | exact IH]. }
  now rewrite H.
Qed.

(** The miss does not depend on which of the rows bearing the name [.get]
    returns: with both files stored, one of the two is never found. *)
Lemma cache_miss_any_row_order
    (pick : list Database.Document -> option Database.Document) :
  (forall l doc, pick l = Some doc -> In doc l) ->
  cacheCheckWith pick (db Scenario.second) Scenario.older = None \/
  cacheCheckWith pick (db Scenario.second) Scenario.upload = None.
Proof.
  intros Hpick.
  assert (Hsizes : forall doc,
             In doc (Database.documents (db Scenario.second)) ->
             Database.file_size doc = 1000%Z \/
             Database.file_size doc = 2000%Z).
  { apply List.Forall_forall. vm_compute.
    repeat (apply List.Forall_cons;
            [first [left; reflexivity | right; reflexivity]|]).
    apply List.Forall_nil. }
  unfold cacheCheckWith.
  change (name Scenario.upload) with (name Scenario.older).
  set (docs := Database.documents (db Scenario.second)) in *. clearbody docs.
  destruct (pick _) as [doc|] eqn:P; [|auto].
  apply Hpick in P. apply filter_In in P. destruct P as [Hin _].
  destruct (Hsizes doc Hin) as [-> | ->]; [right | left]; reflexivity.
Qed.

(** *** The fallback and its caller *)

Lemma afterTextLayer_blank_ocr ext d fs file t tp ocrText :
  length (Clean.trim t) < 50 ->
  fst (Ocr.extractTextWithOCR (ocrEnv ext) (bytes file) (name file) fs)
  = Returned ocrText ->
  Clean.trim ocrText = [] ->
  response (afterTextLayer ext d fs file t tp) = Some (respond 400 NO_TEXT) /\
  db (afterTextLayer ext d fs file t tp) = d.
Proof.
  intros L Hocr Hblank. unfold afterTextLayer.
  destruct (Nat.ltb_spec (length (Clean.trim t)) 50); [|lia].
  destruct (Ocr.extractTextWithOCR _ _ _ _) as [o fs'].
  cbn [fst] in Hocr. subst o. rewrite Hblank. auto.
Qed.

(** C7: the fallback throws only when a step outside the per-page
    [try] fails; a failing page contributes nothing and the other pages
    are still read; when no page yields text the fallback returns the
    empty string, and the handler answers 400 with the extraction
    failure message, storing nothing. *)
Theorem ocr_failure_modes (ext : External) (d : Database.Db) (fs : FS)
    (file : File) (t : jsstring) (tp : Z) :
  let env := ocrEnv ext in
  let run := Ocr.extractTextWithOCR env (bytes file) (name file) fs in
  (forall e, fst run = Thrown e -> ~ Ocr.outerStepsSucceed env fs) /\
  (Ocr.outerStepsSucceed env fs ->
     fst run = Returned (Clean.trim (Ocr.pageContribution env 1
                                     ++ Ocr.pageContribution env 2
                                     ++ Ocr.pageContribution env 3))) /\
  (Ocr.outerStepsSucceed env fs ->
     Ocr.pageContribution env 1 = [] -> Ocr.pageContribution env 2 = [] ->
     Ocr.pageContribution env 3 = [] ->
     fst run = Returned [] /\
     (length (Clean.trim t) < 50 ->
      response (afterTextLayer ext d fs file t tp)
      = Some (respond 400 NO_TEXT) /\
      db (afterTextLayer ext d fs file t tp) = d)).
Proof.
  intros env run. split; [|split].
  - intros e. apply OcrFacts.ocr_thrown_outer.
  - apply OcrFacts.ocr_returns.
  - intros Hok H1 H2 H3.
    pose proof (OcrFacts.ocr_returns env (bytes file) (name file) fs Hok) as R.
    rewrite H1, H2, H3 in R. split; [exact R|].
    intros L. now apply (afterTextLayer_blank_ocr ext d fs file t tp []).
Qed.

Lemma ocr_failure_modes_witness :
  Ocr.outerStepsSucceed Scenario.blankEnv ∅ /\
  fst (Ocr.extractTextWithOCR Scenario.blankEnv (bytes Scenario.older)
         (js "paper.pdf") ∅)
  = Returned [] /\
  response (afterTextLayer Scenario.blankExt Database.empty ∅
              Scenario.older [] 1)
  = Some (respond 400 NO_TEXT).
Proof.
  assert (Hok : Ocr.outerStepsSucceed Scenario.blankEnv ∅)
    by (repeat split; try right; reflexivity).
  destruct (ocr_failure_modes Scenario.blankExt Database.empty ∅
              Scenario.older [] 1) as (_ & _ & H).
  destruct (H Hok eq_refl eq_refl eq_refl) as [R C].
  split; [exact Hok|]. split; [exact R|].
  apply C. vm_compute. lia.
Defined.

(** A page that fails is skipped and the next one is still read. *)
Example ocr_skips_failed_pages :
  fst (Ocr.extractTextWithOCR Scenario.scanEnv (bytes Scenario.older)
         (js "paper.pdf") ∅)
  = Returned (js "scanned").
Proof.
  rewrite OcrFacts.ocr_returns; [reflexivity|].
  repeat split; try right; reflexivity.
Qed.

End ExtractFacts.

(** ** Voice selection *)

Module VoiceFacts.
Import Voice.

Lemma voiceMap_values language v :
  voiceMap !! language = Some v ->
  v = js "pNInz6obpgDQGcFmaJgB" \/ v = js "EXAVITQu4vr4xnSDxMaL".
Proof.
  unfold voiceMap. rewrite !lookup_insert_Some, lookup_empty.
  intuition (try discriminate; auto).
Qed.

(** The five mapped languages get their mapped voice. *)
Lemma voiceId_mapped :
  voiceId (js "Hindi") = VString (js "pNInz6obpgDQGcFmaJgB") /\
  voiceId (js "Telugu") = VString (js "pNInz6obpgDQGcFmaJgB") /\
  voiceId (js "Spanish") = VString (js "EXAVITQu4vr4xnSDxMaL") /\
  voiceId (js "French") = VString (js "EXAVITQu4vr4xnSDxMaL") /\
  voiceId (js "Chinese") = VString (js "EXAVITQu4vr4xnSDxMaL").
Proof. repeat split; vm_compute; reflexivity. Qed.

(** Apart from the names of the members of [Object.prototype], every
    language gets a voice: its mapped one, or the default. *)
Lemma voiceId_total language :
  (forall p, In p objectPrototype -> js p <> language) ->
  voiceId language
  = VString (default DEFAULT_VOICE (voiceMap !! language)).
Proof.
  intros Hown. unfold voiceId, get.
  destruct (voiceMap !! language) as [v|] eqn:E.
  - destruct (voiceMap_values language v E) as [-> | ->]; reflexivity.
  - destruct (find _ objectPrototype) as [p|] eqn:F; [|reflexivity].
    apply find_some in F. destruct F as [Hin Heq].
    apply bool_decide_eq_true in Heq. destruct (Hown p Hin Heq).
Qed.

(** C10 fails for a language named like a member of
    [Object.prototype]: [voiceMap] has no such own property, the read
    yields the inherited member, which is truthy, and the default voice
    is not used. *)
Theorem voiceId_inherited_member :
  voiceMap !! js "constructor" = None /\
  voiceId (js "constructor") = VInherited "constructor" /\
  voiceId (js "constructor") <> VString DEFAULT_VOICE.
Proof. repeat split; vm_compute; congruence. Qed.

End VoiceFacts.

(** ** Further properties of the cleaner *)

Module CleanShapeFacts.
Import Char Clean Shape CleanFacts.

Lemma dropSpaces_idem s : dropSpaces (dropSpaces s) = dropSpaces s.
Proof.
  induction s as [|c r IH]; [reflexivity|]. simpl.
  destruct (isSpace c) eqn:E; [exact IH|]. simpl. now rewrite E.
Qed.

Lemma trimEnd_idem s : trimEnd (trimEnd s) = trimEnd s.
Proof.
  induction s as [|c r IH]; [reflexivity|].
  rewrite trimEnd_cons. destruct (trimEnd r) as [|x l] eqn:R.
  - destruct (isSpace c) eqn:E; [reflexivity|].
    rewrite trimEnd_cons. cbn [trimEnd]. now rewrite E.
  - rewrite trimEnd_cons, IH. reflexivity.
Qed.

Lemma trim_idem s : trim (trim s) = trim s.
Proof.
  unfold trim. rewrite (trimStart_trimEnd (trimStart s)).
  unfold trimStart. now rewrite dropSpaces_idem, trimEnd_idem.
Qed.

(** *** White space in cleaned text *)

Lemma singleSpaced_onlySpaces b s : singleSpaced b s -> onlySpaces s.
Proof.
  revert b. induction s as [|c r IH]; intros b H; [constructor|].
  simpl in H. destruct (isSpace c) eqn:E.
  - destruct H as (-> & _ & H). constructor; [auto | exact (IH _ H)].
  - constructor; [congruence | exact (IH _ H)].
Qed.

Lemma onlySpaces_stripSpecial s : onlySpaces s -> onlySpaces (stripSpecial s).
Proof.
  unfold stripSpecial. induction 1 as [|c r Hc Hr IH]; [constructor|].
  cbn [map]. constructor; [|exact IH].
  destruct (isAllowed c); auto.
Qed.

Lemma onlySpaces_tightenBefore s : onlySpaces s -> onlySpaces (tightenBefore s).
Proof.
  induction 1 as [|c r Hc Hr IH]; [constructor|].
  rewrite tightenBefore_cons.
  destruct (isSpace c && terminatorNext r); [exact IH|].
  constructor; assumption.
Qed.

Lemma onlySpaces_spaceAfter b s : onlySpaces s -> onlySpaces (spaceAfter b s).
Proof.
  intros H. revert b. induction H as [|c r Hc Hr IH]; intros b; [constructor|].
  rewrite spaceAfter_cons.
  destruct (isTerminator c); [|destruct (isSpace c && b)].
  - constructor; [exact Hc|]. constructor; [auto | apply IH].
  - apply IH.
  - constructor; [exact Hc | apply IH].
Qed.

Lemma onlySpaces_dropSpaces s : onlySpaces s -> onlySpaces (dropSpaces s).
Proof.
  induction 1 as [|c r Hc Hr IH]; [constructor|].
  simpl. destruct (isSpace c) eqn:E; [exact IH|].
  constructor; [congruence | exact Hr].
Qed.

Lemma onlySpaces_trimEnd s : onlySpaces s -> onlySpaces (trimEnd s).
Proof.
  induction 1 as [|c r Hc Hr IH]; [constructor|].
  rewrite trimEnd_cons. destruct (trimEnd r) as [|x l].
  - destruct (isSpace c) eqn:E; constructor; [congruence | constructor].
  - constructor; assumption.
Qed.

Lemma collapseNewlines_collapsed s :
  collapseNewlines (collapseWhitespace s) = collapseWhitespace s.
Proof.
  unfold collapseNewlines. apply replaceRuns_none.
  eapply singleSpaced_no_newline, collapse_singleSpaced.
Qed.

(** X1: the second replacement of the cleaner, which collapses runs of
    line breaks, never changes anything: the first replacement has
    already turned every line break into a space. *)
Theorem newline_step_is_noop (s : jsstring) :
  collapseNewlines (collapseWhitespace s) = collapseWhitespace s /\
  cleanAndProcessText s
  = trim (spaceAfter false
            (tightenBefore (stripSpecial (collapseWhitespace s)))).
Proof.
  split; [apply collapseNewlines_collapsed|].
  unfold cleanAndProcessText. now rewrite collapseNewlines_collapsed.
Qed.

(** X2: cleaned text is a single line without padding: every character
    passes the allow-list, the only white-space character left is the
    space (no tab, no line break), and there is no white space at either
    end. *)
Theorem cleaned_text_shape (s : jsstring) :
  allAllowed (cleanAndProcessText s) = true /\
  onlySpaces (cleanAndProcessText s) /\
  trim (cleanAndProcessText s) = cleanAndProcessText s.
Proof.
  split; [apply clean_allAllowed|]. split.
  - unfold cleanAndProcessText, trim, trimStart.
    apply onlySpaces_trimEnd, onlySpaces_dropSpaces, onlySpaces_spaceAfter,
      onlySpaces_tightenBefore, onlySpaces_stripSpecial.
    rewrite collapseNewlines_collapsed.
    eapply singleSpaced_onlySpaces, collapse_singleSpaced.
  - unfold cleanAndProcessText. apply trim_idem.
Qed.

(** *** Terminators in cleaned text *)

Lemma spacedAfter_spaceAfter b s : spacedAfter (spaceAfter b s).
Proof.
  revert b. induction s as [|c r IH]; intros b; [exact I|].
  rewrite spaceAfter_cons.
  destruct (isTerminator c) eqn:T; [|destruct (isSpace c && b)].
  - split; [reflexivity|]. split; [|apply IH].
    rewrite isTerminator_space. discriminate.
  - apply IH.
  - split; [congruence | apply IH].
Qed.

Lemma spacedAfter_dropSpaces s : spacedAfter s -> spacedAfter (dropSpaces s).
Proof.
  induction s as [|c r IH]; intros H; [exact I|].
  simpl. destruct (isSpace c); [apply IH, H | exact H].
Qed.

Lemma trimEnd_head s x l : trimEnd s = x :: l -> exists r, s = x :: r.
Proof.
  destruct s as [|c r]; [discriminate|].
  rewrite trimEnd_cons. destruct (trimEnd r).
  - destruct (isSpace c); [discriminate|]. intros H. inversion H. eauto.
  - intros H. inversion H. eauto.
Qed.

Lemma spacedAfter_trimEnd s : spacedAfter s -> spacedAfter (trimEnd s).
Proof.
  induction s as [|c r IH]; intros H; [exact I|].
  destruct H as [Hc Hr]. rewrite trimEnd_cons.
  destruct (trimEnd r) as [|x l] eqn:R.
  - destruct (isSpace c); [exact I|]. split; [trivial | exact I].
  - split; [|apply IH, Hr].
    intros T. destruct (trimEnd_head r x l R) as [r' ->]. apply Hc, T.
Qed.

Lemma spacedAfter_lookup s i c :
  spacedAfter s -> s !! i = Some c -> isTerminator c = true ->
  s !! S i = None \/ s !! S i = Some space.
Proof.
  revert i. induction s as [|x r IH]; intros i H Hi T; [discriminate|].
  destruct H as [Hx Hr]. destruct i as [|i].
  - injection Hi as ->. specialize (Hx T).
    destruct r as [|y r']; [left; reflexivity|]. right. now rewrite Hx.
  - apply (IH i Hr Hi T).
Qed.

(** X3: in cleaned text every sentence terminator ([.], [!] or [?]) is
    the last character or is followed by a space. *)
Theorem cleaned_terminators_spaced (s : jsstring) (i : nat) (c : N) :
  cleanAndProcessText s !! i = Some c ->
  isTerminator c = true ->
  cleanAndProcessText s !! S i = None \/
  cleanAndProcessText s !! S i = Some space.
Proof.
  apply spacedAfter_lookup.
  unfold cleanAndProcessText, trim, trimStart.
  apply spacedAfter_trimEnd, spacedAfter_dropSpaces, spacedAfter_spaceAfter.
Qed.

Lemma cleaned_terminators_spaced_witness :
  cleanAndProcessText (js "Stop!Go on .") !! 4 = Some 33%N /\
  cleanAndProcessText (js "Stop!Go on .") !! 5 = Some space.
Proof.
  assert (H : cleanAndProcessText (js "Stop!Go on .") !! 4 = Some 33%N)
    by reflexivity.
  split; [exact H|].
  destruct (cleaned_terminators_spaced (js "Stop!Go on .") 4 33%N H eq_refl)
    as [E|E]; [discriminate E | exact E].
Defined.

(** *** Stability and degenerate inputs *)

Lemma blank_trim s : trimEnd s = [] -> trim s = [].
Proof.
  intros H. unfold trim. rewrite <- trimStart_trimEnd, H. reflexivity.
Qed.

(** *** When the cleaned text is empty *)

Lemma forallb_replaceRuns (q : N -> bool) p rep b s :
  q rep = true -> forallb q s = true ->
  forallb q (replaceRuns p rep b s) = true.
Proof.
  intros Hrep. revert b.
  induction s as [|c r IH]; intros b H; [reflexivity|].
  cbn [forallb] in H. apply andb_prop in H. destruct H as [Hc Hr].
  cbn [replaceRuns]. destruct (p c).
  - destruct b; [now apply IH|]. cbn [forallb]. now rewrite Hrep, IH.
  - cbn [forallb]. now rewrite Hc, IH.
Qed.

Lemma blank_all_spaces s : forallb isSpace s = true -> trimEnd s = [].
Proof.
  induction s as [|c r IH]; [reflexivity|]. cbn [forallb]. intros H.
  apply andb_prop in H. destruct H as [Hc Hr].
  now rewrite trimEnd_cons, (IH Hr), Hc.
Qed.

Lemma symbols_blank s :
  symbolsOnly s = true ->
  trimEnd (stripSpecial (collapseNewlines (collapseWhitespace s))) = [].
Proof.
  intros H. rewrite collapseNewlines_collapsed. apply blank_all_spaces.
  assert (Q : symbolsOnly (collapseWhitespace s) = true).
  { apply forallb_replaceRuns; [|exact H].
    now rewrite isSpace_space, orb_true_r. }
  revert Q. generalize (collapseWhitespace s). intros l.
  unfold symbolsOnly, stripSpecial.
  induction l as [|c r IH]; [reflexivity|]. cbn [forallb map]. intros Q.
  apply andb_prop in Q. destruct Q as [Hc Hr]. rewrite (IH Hr), andb_true_r.
  destruct (isAllowed c) eqn:A; [|apply isSpace_space].
  exact Hc.
Qed.

Lemma In_replaceRuns p rep b s c :
  In c s -> p c = false -> In c (replaceRuns p rep b s).
Proof.
  intros Hin Hp. revert b.
  induction s as [|x r IH]; intros b; [destruct Hin|].
  cbn [replaceRuns]. destruct Hin as [->|Hin].
  - rewrite Hp. now left.
  - destruct (p x); [destruct b|]; cbn [In]; auto.
Qed.

Lemma In_stripSpecial s c :
  In c s -> isAllowed c = true -> In c (stripSpecial s).
Proof.
  intros Hin Ha. unfold stripSpecial. apply in_map_iff. exists c.
  now rewrite Ha.
Qed.

Lemma In_tightenBefore s c :
  In c s -> isSpace c = false -> In c (tightenBefore s).
Proof.
  intros Hin Hs. induction s as [|x r IH]; [destruct Hin|].
  rewrite tightenBefore_cons. destruct Hin as [->|Hin].
  - rewrite Hs. now left.
  - destruct (isSpace x && terminatorNext r); cbn [In]; auto.
Qed.

Lemma In_spaceAfter b s c :
  In c s -> isSpace c = false -> In c (spaceAfter b s).
Proof.
  intros Hin Hs. revert b.
  induction s as [|x r IH]; intros b; [destruct Hin|].
  rewrite spaceAfter_cons. destruct Hin as [->|Hin].
  - destruct (isTerminator c); [now left|]. rewrite Hs. now left.
  - destruct (isTerminator x); [cbn [In]; auto|].
    destruct (isSpace x && b); cbn [In]; auto.
Qed.

Lemma In_dropSpaces s c :
  In c s -> isSpace c = false -> In c (dropSpaces s).
Proof.
  intros Hin Hs. induction s as [|x r IH]; [destruct Hin|].
  cbn [dropSpaces]. destruct (isSpace x) eqn:E.
  - destruct Hin as [->|Hin]; [congruence | auto].
  - exact Hin.
Qed.

Lemma In_trimEnd s c : In c s -> isSpace c = false -> In c (trimEnd s).
Proof.
  intros Hin Hs. induction s as [|x r IH]; [destruct Hin|].
  rewrite trimEnd_cons. destruct Hin as [->|Hin].
  - destruct (trimEnd r); [rewrite Hs|]; now left.
  - specialize (IH Hin). destruct (trimEnd r); [destruct IH|now right].
Qed.

(** A character of the allow-list that is not white space survives the
    cleaning. *)
Lemma In_clean s c :
  In c s -> isAllowed c = true -> isSpace c = false ->
  In c (cleanAndProcessText s).
Proof.
  intros Hin Ha Hs. unfold cleanAndProcessText, trim, trimStart.
  apply In_trimEnd; [|exact Hs]. apply In_dropSpaces; [|exact Hs].
  apply In_spaceAfter; [|exact Hs]. apply In_tightenBefore; [|exact Hs].
  apply In_stripSpecial; [|exact Ha].
  rewrite collapseNewlines_collapsed. now apply In_replaceRuns.
Qed.

Lemma clean_symbols s : symbolsOnly s = true -> cleanAndProcessText s = [].
Proof.
  intros H. unfold cleanAndProcessText.
  pose proof (symbols_blank s H) as B.
  rewrite (blank_tightenBefore _ B). apply blank_trim.
  now apply blank_spaceAfter.
Qed.

(** X16: the cleaned text is empty exactly when the input holds no word
    character and none of the listed punctuation marks, that is, when
    each of its characters is white space or outside the allow-list. *)
Theorem cleaned_empty_iff (s : jsstring) :
  cleanAndProcessText s = [] <-> symbolsOnly s = true.
Proof.
  split; [|apply clean_symbols].
  intros H. unfold symbolsOnly. apply forallb_forall. intros c Hin.
  destruct (isAllowed c) eqn:A; [|reflexivity].
  destruct (isSpace c) eqn:S; [reflexivity|].
  pose proof (In_clean s c Hin A S) as I. rewrite H in I. destruct I.
Qed.

End CleanShapeFacts.

(** ** Further properties of the truncations *)

Module TruncateMoreFacts.
Import Truncate Shape TruncateFacts.

Lemma lastPeriod_index bound text c :
  isLastPeriod bound text c ->
  lastIndexOf 46 (substring0 bound text) = Z.of_nat c.
Proof.
  intros (Hc & Hx & Hlater).
  rewrite lastIndexOf_where. apply lastIndexWhere_at. unfold substring0. split.
  - exists 46%N. split; [|reflexivity]. rewrite lookup_take_lt; auto.
  - intros j y Hj Hy. apply lookup_take_Some in Hy. destruct Hy as [Hy Hb].
    destruct (N.eqb_spec y 46) as [->|]; [|reflexivity].
    destruct (Hlater j); [lia | exact Hy].
Qed.

Lemma noPeriod_index bound text :
  noPeriod bound text -> lastIndexOf 46 (substring0 bound text) = (-1)%Z.
Proof.
  intros H. rewrite lastIndexOf_where. apply lastIndexWhere_none.
  intros j y Hy. unfold substring0 in Hy.
  apply lookup_take_Some in Hy. destruct Hy as [Hy Hb].
  destruct (N.eqb_spec y 46) as [->|]; [|reflexivity].
  destruct (H j Hb Hy).
Qed.

Lemma lastPeriod_of_index bound text c :
  lastIndexOf 46 (substring0 bound text) = Z.of_nat c ->
  isLastPeriod bound text c.
Proof.
  intros H. rewrite lastIndexOf_where in H. unfold substring0 in H.
  apply lastIndexWhere_at in H. destruct H as [(x & Hx & Px) Hlater].
  apply N.eqb_eq in Px. subst x.
  pose proof Hx as Hx'. apply lookup_take_Some in Hx'.
  destruct Hx' as [Hx' Hc].
  split; [exact Hc|]. split; [exact Hx'|].
  intros j Hj Hy.
  assert (F : N.eqb 46 46 = false); [|discriminate F].
  apply (Hlater j 46%N); [lia|]. rewrite lookup_take_lt; [exact Hy | lia].
Qed.

Lemma truncateExtracted_cut text c :
  MAX_CHARS_EXTRACT < length text ->
  isLastPeriod MAX_CHARS_EXTRACT text c ->
  truncateExtracted text =
  (if 0 <? c then substring0 (c + 1) text
   else substring0 MAX_CHARS_EXTRACT text, true).
Proof.
  intros Hlen Hc. unfold truncateExtracted.
  destruct (Nat.ltb_spec MAX_CHARS_EXTRACT (length text)); [|lia].
  rewrite (lastPeriod_index _ _ _ Hc). destruct Hc as [Hc _].
  destruct (Nat.ltb_spec 0 c) as [P|P].
  - destruct (Z.ltb_spec 0 (Z.of_nat c)); [|lia].
    replace (Z.to_nat (Z.of_nat c + 1)) with (c + 1) by lia.
    f_equal. apply substring0_substring0. lia.
  - destruct (Z.ltb_spec 0 (Z.of_nat c)); [lia | reflexivity].
Qed.

(** X5: the truncation before transcreation has no proximity guard.  For
    cleaned text longer than 2200 characters, with [c] the largest index
    below 2200 holding a full stop: when [c > 0] the stored text is the
    prefix through that full stop, however far back it lies; when the
    only full stop is at index 0, or there is none, it is the
    2200-character cut.  [wasTruncated] is set in each case. *)
Theorem truncateExtracted_last_period (text : jsstring) :
  2200 < length text ->
  (forall c, isLastPeriod 2200 text c ->
     truncateExtracted text =
     (if 0 <? c then substring0 (c + 1) text else substring0 2200 text, true)) /\
  (noPeriod 2200 text ->
     truncateExtracted text = (substring0 2200 text, true)).
Proof.
  intros H. split.
  - intros c. now apply truncateExtracted_cut.
  - intros Hn. unfold truncateExtracted.
    destruct (Nat.ltb_spec MAX_CHARS_EXTRACT (length text));
      [|unfold MAX_CHARS_EXTRACT in *; lia].
    pose proof (noPeriod_index MAX_CHARS_EXTRACT text Hn) as E.
    now rewrite E.
Qed.

Lemma truncateExtracted_last_period_witness :
  2200 < length (js "A." ++ repeat 97%N 3000) /\
  isLastPeriod 2200 (js "A." ++ repeat 97%N 3000) 1 /\
  truncateExtracted (js "A." ++ repeat 97%N 3000) = (js "A.", true).
Proof.
  assert (L : 2200 < length (js "A." ++ repeat 97%N 3000))
    by (apply Nat.ltb_lt; vm_compute; reflexivity).
  assert (C : isLastPeriod 2200 (js "A." ++ repeat 97%N 3000) 1)
    by (apply lastPeriod_of_index; vm_compute; reflexivity).
  split; [exact L|]. split; [exact C|].
  rewrite (proj1 (truncateExtracted_last_period _ L) 1 C).
  vm_compute. reflexivity.
Defined.

(** X6: neither truncation rewrites what it keeps: the text stored after
    extraction is a prefix of the cleaned text, and the text sent to
    speech is a prefix of its input, followed by the ellipsis or not. *)
Theorem truncations_keep_a_prefix (s : jsstring) :
  (exists rest, s = fst (truncateExtracted s) ++ rest) /\
  (exists kept rest,
     s = kept ++ rest /\
     (truncateForSpeech s = kept \/ truncateForSpeech s = kept ++ ellipsis)).
Proof.
  assert (P : forall k n, exists rest,
               s = substring0 k (substring0 n s) ++ rest).
  { intros k n. unfold substring0. rewrite take_take.
    exists (drop (k `min` n) s). now rewrite take_drop. }
  assert (Q : forall n, exists rest, s = substring0 n s ++ rest).
  { intros n. unfold substring0. exists (drop n s). now rewrite take_drop. }
  split.
  - unfold truncateExtracted.
    destruct (MAX_CHARS_EXTRACT <? length s);
      [|exists []; cbn [fst]; now rewrite app_nil_r].
    destruct (0 <? lastIndexOf 46 _)%Z; cbn [fst]; [apply P | apply Q].
  - unfold truncateForSpeech.
    destruct (MAX_CHARS_SPEECH <? length s);
      [|exists s, []; rewrite app_nil_r; auto].
    destruct (nearEnough _).
    + destruct (P (Z.to_nat (cutPoint (substring0 MAX_CHARS_SPEECH s) + 1))
                  MAX_CHARS_SPEECH) as [rest E]. eauto.
    + destruct (Q MAX_CHARS_SPEECH) as [rest E]. eauto.
Qed.

End TruncateMoreFacts.

(** ** Further properties of the text-layer extractor *)

Module PdfTextMoreFacts.
Import PdfText PdfShape PdfTextFacts.

Lemma acc_addText_within item st :
  (currentPage st <= maxPages)%Z ->
  acc (addText item st)
  = acc st ++ match truthyText item with
              | Some t => t ++ [Char.space]
              | None => []
              end.
Proof.
  intros H. unfold addText. destruct (truthyText item) as [t|].
  - destruct (Z.leb_spec (currentPage st) maxPages); [reflexivity | lia].
  - now rewrite app_nil_r.
Qed.

Lemma currentPage_addText item st :
  currentPage (addText item st) = currentPage st.
Proof.
  unfold addText. destruct (truthyText item); [|reflexivity].
  destruct (currentPage st <=? maxPages)%Z; reflexivity.
Qed.

(** A stream within the limit leaves the promise pending and keeps all
    its text. *)
Lemma fold_withinLimit events st :
  withinLimit events = true ->
  settled st = None -> (currentPage st <= maxPages)%Z ->
  settled (fold_left onItem events st) = None /\
  acc (fold_left onItem events st) = acc st ++ allText events.
Proof.
  revert st. induction events as [|cb rest IH]; intros st W S P.
  - cbn. now rewrite app_nil_r.
  - cbn [withinLimit forallb] in W. apply andb_prop in W.
    destruct W as [Wcb Wrest]. cbn [fold_left allText flat_map].
    destruct cb as [m|item|]; [discriminate Wcb| |discriminate Wcb].
    cbn [onItem]. destruct (truthyPage item) as [p|] eqn:Tp.
    + apply Z.leb_le in Wcb.
      destruct (Z.ltb_spec maxPages p); [lia|].
      set (st1 := {| acc := acc st; pageCount := Z.max (pageCount st) p;
                     currentPage := p; totalPages := totalPages st;
                     settled := settled st |}).
      destruct (IH (addText item st1) Wrest) as [IS IA].
      * now rewrite settled_addText.
      * now rewrite currentPage_addText.
      * split; [exact IS|]. rewrite IA, acc_addText_within by exact Wcb.
        cbn [acc st1]. now rewrite app_assoc.
    + destruct (IH (addText item st) Wrest) as [IS IA].
      * now rewrite settled_addText.
      * now rewrite currentPage_addText.
      * split; [exact IS|]. rewrite IA, acc_addText_within by exact P.
        now rewrite app_assoc.
Qed.

Lemma settled_beyond_limit cb st :
  withinLimit [cb] = false -> exists o, settled (onItem st cb) = Some o.
Proof.
  intros W. cbn in W. rewrite andb_true_r in W.
  destruct cb as [m|item|]; cbn [onItem].
  - rewrite settled_settle. destruct (settled st); eauto.
  - destruct (truthyPage item) as [p|]; [|discriminate W].
    apply Z.leb_gt in W. destruct (Z.ltb_spec maxPages p); [|lia].
    rewrite settled_settle. cbn. destruct (settled st); eauto.
  - rewrite settled_settle. cbn. destruct (settled st); eauto.
Qed.

Lemma pending_fold events st :
  settled st = None -> (currentPage st <= maxPages)%Z ->
  (settled (fold_left onItem events st) = None <-> withinLimit events = true).
Proof.
  intros S P. split; [|intros W; now apply fold_withinLimit].
  revert st S P. induction events as [|cb rest IH]; intros st S P H;
    [reflexivity|].
  cbn [withinLimit forallb]. cbn [fold_left] in H.
  destruct (withinLimit [cb]) eqn:W.
  - cbn in W. rewrite andb_true_r in W. rewrite W. cbn [andb].
    destruct (fold_withinLimit [cb] st) as [S1 _]; auto.
    { cbn. now rewrite W. }
    cbn [fold_left] in S1.
    apply (IH (onItem st cb)); [exact S1| |exact H].
    destruct cb as [m|item|]; [discriminate W| |discriminate W].
    cbn [onItem]. destruct (truthyPage item) as [p|].
    + apply Z.leb_le in W. destruct (Z.ltb_spec maxPages p); [lia|].
      now rewrite currentPage_addText.
    + now rewrite currentPage_addText.
  - destruct (settled_beyond_limit cb st W) as [o Ho].
    rewrite (settled_fold rest _ o Ho) in H. discriminate H.
Qed.

Lemma pending_iff_within_limit_aux events :
  withinLimit events = true -> settled (parse events) = None.
Proof.
  intros W. apply (pending_fold events initial); auto.
  unfold maxPages. cbn. lia.
Qed.


(** X8: a document of at most three pages is extracted whole: when the
    stream before the end of file holds no error and no page item beyond
    the cap, the promise is resolved with all its text tokens, each
    followed by a space, trimmed, and [totalPages] is the highest page
    number delivered. *)
Theorem small_document_whole (events : list Callback) :
  withinLimit events = true ->
  settled (parse (events ++ [CbEnd]))
  = Some (Resolved (Clean.trim (allText events))) /\
  totalPages (parse (events ++ [CbEnd])) = highestPage 0 events.
Proof.
  intros W.
  destruct (fold_withinLimit events initial W eq_refl) as [S A];
    [unfold maxPages; cbn; lia|].
  fold (parse events) in S, A. cbn [acc initial app] in A.
  rewrite parse_app. cbn [fold_left onItem]. split.
  - rewrite settled_settle. cbn. now rewrite S, A.
  - unfold settle. cbn. rewrite S. cbn.
    unfold parse. now rewrite pageCount_fold.
Qed.

Lemma small_document_whole_witness :
  withinLimit Scenario.beforeCap = true /\
  settled (parse (Scenario.beforeCap ++ [CbEnd]))
  = Some (Resolved (js "This is the first page of the paper, with enough text. Second. Third")) /\
  totalPages (parse (Scenario.beforeCap ++ [CbEnd])) = 3%Z.
Proof.
  assert (W : withinLimit Scenario.beforeCap = true) by reflexivity.
  destruct (small_document_whole Scenario.beforeCap W) as [S T].
  split; [exact W|]. split; [exact S | exact T].
Defined.

(** X9: a parser error is reported only when it is the first thing to
    settle the promise: delivered before any end of file or page beyond
    the cap it rejects with [PDF parsing failed: ] and its message;
    delivered after the promise is settled it is ignored. *)
Theorem parser_error_first_or_ignored (pre rest : list Callback)
    (message : jsstring) :
  (withinLimit pre = true ->
   settled (parse (pre ++ CbError message :: rest))
   = Some (Rejected (PARSE_FAILED ++ message))) /\
  (forall o, settled (parse pre) = Some o ->
             settled (parse (pre ++ CbError message :: rest)) = Some o).
Proof.
  split.
  - intros W. apply pending_iff_within_limit_aux in W.
    rewrite parse_app. cbn [fold_left]. apply settled_fold.
    cbn [onItem]. now rewrite settled_settle, W.
  - intros o H. rewrite parse_app. now apply settled_fold.
Qed.

End PdfTextMoreFacts.

(** ** Further properties of the OCR fallback *)

Module OcrMoreFacts.
Import Char Clean Js Ocr OcrShape CleanFacts CleanShapeFacts OcrFacts.

Lemma trimEnd_app_visible a b x l :
  trimEnd b = x :: l -> trimEnd (a ++ b) = a ++ x :: l.
Proof.
  intros H. induction a as [|c a IH]; [exact H|].
  cbn [app]. rewrite trimEnd_cons, IH. destruct a; reflexivity.
Qed.

Lemma trimEnd_app_blank a b : trimEnd b = [] -> trimEnd (a ++ b) = trimEnd a.
Proof.
  intros H. induction a as [|c a IH]; [exact H|].
  cbn [app]. now rewrite !trimEnd_cons, IH.
Qed.

Lemma dropSpaces_head s x l : dropSpaces s = x :: l -> isSpace x = false.
Proof.
  induction s as [|c r IH]; [discriminate|]. simpl.
  destruct (isSpace c) eqn:E; [exact IH|]. intros H. now inversion H; subst.
Qed.

Lemma trim_visible s x l : trim s = x :: l -> visible (x :: l).
Proof.
  intros H. split.
  - exists x, l. split; [reflexivity|]. unfold trim, trimStart in H.
    destruct (trimEnd_head _ _ _ H) as [r Hr]. exact (dropSpaces_head _ _ _ Hr).
  - rewrite <- H. unfold trim. apply trimEnd_idem.
Qed.

Lemma pageText_visible env n t : pageText env n = Some t -> visible t.
Proof.
  unfold pageText. destruct (convert env n) as [e|[|c p]]; try discriminate.
  destruct (recognize env n) as [e|pt]; try discriminate.
  destruct (trim pt) as [|x l] eqn:T; [discriminate|].
  intros H. inversion H; subst. exact (trim_visible _ _ _ T).
Qed.

Lemma pageContribution_pageText env n :
  pageContribution env n
  = match pageText env n with
    | Some t => t ++ [newline; newline]
    | None => []
    end.
Proof.
  unfold pageContribution, pageText.
  destruct (convert env n) as [e|[|c p]]; try reflexivity.
  destruct (recognize env n) as [e|pt]; try reflexivity.
  destruct (trim pt); reflexivity.
Qed.

Lemma contributions_recognized env :
  pageContribution env 1 ++ pageContribution env 2 ++ pageContribution env 3
  = flat_map (fun t => t ++ [newline; newline]) (recognized env).
Proof.
  rewrite !pageContribution_pageText. unfold recognized.
  cbn [omap list_omap].
  destruct (pageText env 1), (pageText env 2), (pageText env 3);
    cbn [flat_map app]; rewrite ?app_nil_r; reflexivity.
Qed.

Lemma recognized_visible env : List.Forall visible (recognized env).
Proof.
  unfold recognized. cbn [omap list_omap].
  destruct (pageText env 1) eqn:E1, (pageText env 2) eqn:E2,
    (pageText env 3) eqn:E3;
    repeat (apply List.Forall_cons; [eapply pageText_visible; eassumption|]);
    apply List.Forall_nil.
Qed.

Lemma trim_headed c r : isSpace c = false -> trim (c :: r) = trimEnd (c :: r).
Proof. intros E. unfold trim, trimStart. simpl dropSpaces. now rewrite E. Qed.

Lemma trim_join texts :
  List.Forall visible texts ->
  trim (flat_map (fun t => t ++ [newline; newline]) texts) = joinPages texts.
Proof.
  induction 1 as [|t rest Ht Hrest IH]; [reflexivity|].
  destruct Ht as [(c & r & -> & Ec) Hend].
  cbn [flat_map]. cbn [app]. rewrite trim_headed by exact Ec.
  change (c :: (r ++ [newline; newline])
               ++ flat_map (fun t => t ++ [newline; newline]) rest)
    with (((c :: r) ++ [newline; newline])
            ++ flat_map (fun t => t ++ [newline; newline]) rest).
  destruct rest as [|t2 rest2].
  - cbn [flat_map joinPages]. rewrite app_nil_r.
    rewrite trimEnd_app_blank by reflexivity. exact Hend.
  - inversion Hrest as [|? ? Ht2 _]; subst.
    destruct Ht2 as [(c2 & r2 & -> & Ec2) _].
    cbn [flat_map] in IH |- *. cbn [app] in IH.
    rewrite trim_headed in IH by exact Ec2.
    assert (J : exists l, joinPages ((c2 :: r2) :: rest2) = c2 :: l).
    { cbn [joinPages]. destruct rest2; cbn [app]; eauto. }
    destruct J as [l J]. rewrite J in IH.
    etransitivity;
      [exact (trimEnd_app_visible ((c :: r) ++ [newline; newline]) _ c2 l IH)|].
    change (joinPages ((c :: r) :: (c2 :: r2) :: rest2))
      with ((c :: r) ++ [newline; newline]
              ++ joinPages ((c2 :: r2) :: rest2)).
    rewrite J. now rewrite <- app_assoc.
Qed.

(** X10: when the steps outside the per-page [try] succeed, the fallback
    returns the trimmed texts of the pages that were converted and
    recognised as something other than white space, in page order and
    separated by one blank line, with nothing before the first or after
    the last. *)
Theorem ocr_joins_pages (env : Env) (buffer : list N) (filename : jsstring)
    (fs : FS) :
  outerStepsSucceed env fs ->
  fst (extractTextWithOCR env buffer filename fs)
  = Returned (joinPages (recognized env)).
Proof.
  intros H. rewrite (ocr_returns env buffer filename fs H).
  rewrite contributions_recognized, trim_join by apply recognized_visible.
  reflexivity.
Qed.

Lemma ocr_joins_pages_witness :
  outerStepsSucceed Scenario.env ∅ /\
  fst (extractTextWithOCR Scenario.env [37; 80; 68; 70]%N (js "paper.pdf") ∅)
  = Returned (js "scanned" ++ [newline; newline] ++ js "scanned"
                ++ [newline; newline] ++ js "scanned").
Proof.
  assert (H : outerStepsSucceed Scenario.env ∅).
  { split; [right; reflexivity|]. split; reflexivity. }
  split; [exact H|].
  exact (ocr_joins_pages Scenario.env [37; 80; 68; 70]%N (js "paper.pdf") ∅ H).
Defined.

(** *** What the fallback leaves on disk *)


(** A page keeps every file other than its own image. *)
Lemma ocrPage_keeps env n t fs q :
  q ∈ fs -> convert env n <> ConvertOk q -> q ∈ snd (ocrPage env n t fs).
Proof.
  intros Hq Hne. rewrite ocrPage_files.
  destruct (convert env n) as [e|[|c p]]; auto.
  destruct (recognize env n) as [e|pt].
  - rewrite elem_of_insert_fs. now right.
  - rewrite elem_of_delete_fs. split; [|exact Hq]. intros ->. now apply Hne.
Qed.

(** A page whose recognition throws leaves its image. *)
Lemma ocrPage_leaks env n t fs c p e :
  convert env n = ConvertOk (c :: p) -> recognize env n = RecognizeThrows e ->
  (c :: p) ∈ snd (ocrPage env n t fs).
Proof.
  intros Hc Hr. rewrite ocrPage_files, Hc, Hr.
  rewrite elem_of_insert_fs. now left.
Qed.


Lemma ocrPages_leaks env fs n c p e :
  1 <= n <= 3 ->
  convert env n = ConvertOk (c :: p) -> recognize env n = RecognizeThrows e ->
  (forall m, n < m <= 3 -> convert env m <> ConvertOk (c :: p)) ->
  (c :: p) ∈ snd (ocrPages env fs).
Proof.
  intros Hn Hc Hr Hlater. destruct (ocrPages_files env fs) as (t1 & t2 & ->).
  assert (N : n = 1 \/ n = 2 \/ n = 3) by lia.
  destruct N as [->|[->| ->]].
  - apply ocrPage_keeps; [|apply Hlater; lia].
    apply ocrPage_keeps; [|apply Hlater; lia].
    now apply (ocrPage_leaks env 1 _ _ c p e).
  - apply ocrPage_keeps; [|apply Hlater; lia].
    now apply (ocrPage_leaks env 2 _ _ c p e).
  - now apply (ocrPage_leaks env 3 _ _ c p e).
Qed.




(** X12: the image of a page is removed only after its recognition
    returns.  When the recognition of a page throws, the image written
    for that page is still on disk after the fallback has returned,
    unless a later page is converted to the same path. *)
Theorem ocr_failed_page_leaves_image (env : Env) (buffer : list N)
    (filename : jsstring) (fs : FS) (n : nat) (image e : jsstring) :
  outerStepsSucceed env fs ->
  1 <= n <= 3 ->
  convert env n = ConvertOk image -> image <> [] ->
  recognize env n = RecognizeThrows e ->
  (forall m, n < m <= 3 -> convert env m <> ConvertOk image) ->
  image <> tempPdfPath env filename ->
  image ∈ snd (extractTextWithOCR env buffer filename fs).
Proof.
  intros Hok Hn Hc Hne Hr Hlater Hpdf.
  destruct image as [|c p]; [congruence|].
  destruct Hok as (Hdir & Hwrite & Hfrom).
  destruct (ocr_run env buffer filename fs)
    as [(Hno & e' & Hmk & _)|(_ & fs1 & _ & ->)].
  { destruct Hdir as [H|H]; [destruct (Hno H) | congruence]. }
  rewrite tryFinally_cleanup.
  pose proof (tryBlock_written env buffer filename fs1 (or_introl Hwrite)) as W.
  rewrite (tryBlock_succeeds env buffer filename fs1 Hwrite Hfrom) in *.
  cbn [fst snd] in *.
  assert (L : (c :: p)
              ∈ snd (ocrPages env
                       (<[tempPdfPath env filename := RegularFile]> fs1)))
    by now apply (ocrPages_leaks env _ n c p e).
  destruct (snd (ocrPages env _) !! tempPdfPath env filename) as [[|]|];
    cbn [snd]; try (rewrite elem_of_delete_fs; split; [exact Hpdf | exact L]).
  destruct (W eq_refl).
Qed.

Lemma ocr_failed_page_leaves_image_witness :
  outerStepsSucceed Scenario.scanEnv ∅ /\
  js "/app/temp/page.png"
  ∈ snd (extractTextWithOCR Scenario.scanEnv [37; 80; 68; 70]%N
           (js "paper.pdf") ∅).
Proof.
  assert (H : outerStepsSucceed Scenario.scanEnv ∅).
  { split; [right; reflexivity|]. split; reflexivity. }
  split; [exact H|].
  apply (ocr_failed_page_leaves_image Scenario.scanEnv [37; 80; 68; 70]%N
           (js "paper.pdf") ∅ 3 (js "/app/temp/page.png")
           (js "tesseract failed") H).
  - lia.
  - reflexivity.
  - discriminate.
  - reflexivity.
  - intros m Hm. lia.
  - vm_compute. discriminate.
Defined.

End OcrMoreFacts.

(** ** Further properties of the extraction handler *)

Module ExtractMoreFacts.
Import Js ExtractPdf ExtractShape TruncateFacts ExtractFacts.

(** What [store] does, spelled out. *)
Lemma store_shape d fs file t tp used :
  exists finalText wasTruncated,
    Truncate.truncateExtracted (Clean.cleanAndProcessText t)
    = (finalText, wasTruncated) /\
    store d fs file t tp used
    = {| response :=
           Some (freshResponse finalText tp
                   (length_of (Clean.cleanAndProcessText t)) wasTruncated
                   (name file) (Database.sequence d + 1));
         db := {| Database.documents :=
                    Database.documents d ++ [newRow d file finalText tp];
                  Database.sequence := (Database.sequence d + 1)%Z |};
         files := fs;
         calls := used ++ [CallInsert] |}.
Proof.
  unfold store.
  destruct (Truncate.truncateExtracted (Clean.cleanAndProcessText t))
    as [finalText wasTruncated].
  exists finalText, wasTruncated. split; reflexivity.
Qed.

(** Every request either stores through [store], after the parser alone
    or the parser and the OCR fallback, or leaves the table alone and
    answers, if it answers, without [cached: false]. *)
Lemma POST_outcome ext d fs request :
  (exists file fs1 t tp used,
     request = Some file /\ validate file = None /\
     cacheCheck d file = None /\
     (used = [CallPdfReader] \/ used = [CallPdfReader; CallOcr]) /\
     POST ext d fs request = store d fs1 file t tp used) \/
  (db (POST ext d fs request) = d /\
   field (POST ext d fs request) "cached" <> Some (JBool false) /\
   (calls (POST ext d fs request) = [] \/
    calls (POST ext d fs request) = [CallPdfReader] \/
    calls (POST ext d fs request) = [CallPdfReader; CallOcr])).
Proof.
  destruct request as [file|]; cbn [POST].
  2:{ right. split; [reflexivity|]. split; [|auto].
      unfold field. cbn [response]. now rewrite respond_cached. }
  destruct (validate file) as [r|] eqn:V.
  { right. split; [reflexivity|]. split; [|auto].
    destruct (validate_respond file r V) as (st & m & ->).
    unfold field. cbn [response]. now rewrite respond_cached. }
  destruct (cacheCheck d file) as [doc|] eqn:C.
  { right. split; [reflexivity|]. split; [|auto].
    unfold field. cbn [response].
    destruct (cachedResponse_fields doc) as [-> _]. discriminate. }
  assert (T : (fst (textLayer ext file) = []
               /\ exists e, snd (textLayer ext file) = Some (Thrown e)) \/
              fst (textLayer ext file) = [CallPdfReader]).
  { unfold textLayer. destruct (bytes file); [left; eauto|].
    destruct (negb _); [left; eauto | right; reflexivity]. }
  destruct (textLayer ext file) as [used [[[t tp]|e]|]] eqn:TL;
    cbn [fst snd] in T.
  - destruct T as [[_ [e He]]| ->]; [discriminate He|].
    unfold afterTextLayer.
    destruct (length (Clean.trim t) <? 50).
    + destruct (Ocr.extractTextWithOCR _ _ _ _) as [[ocrText|e] fs1].
      * destruct (Clean.trim ocrText).
        -- right. split; [reflexivity|]. split; [|auto].
           unfold field. cbn [response]. now rewrite respond_cached.
        -- left. exists file, fs1, ocrText, tp, [CallPdfReader; CallOcr].
           auto 10.
      * right. split; [reflexivity|]. split; [|auto].
        unfold field. cbn [response]. now rewrite handleError_cached.
    + left. exists file, fs, t, tp, [CallPdfReader]. auto 10.
  - right. split; [reflexivity|]. cbn [calls]. split.
    + unfold field. cbn [response]. now rewrite handleError_cached.
    + destruct T as [[-> _]| ->]; auto.
  - right. split; [reflexivity|]. cbn [calls]. split.
    + unfold field. cbn [response]. discriminate.
    + destruct T as [[-> _]| ->]; auto.
Qed.

Lemma truncateExtracted_bound s finalText wasTruncated :
  Truncate.truncateExtracted s = (finalText, wasTruncated) ->
  length finalText <= 2200 /\ length finalText <= length s /\
  (wasTruncated = true <-> 2200 < length s) /\
  (wasTruncated = false -> finalText = s).
Proof.
  intros E. destruct (Nat.le_gt_cases (length s) Truncate.MAX_CHARS_EXTRACT)
    as [H|H].
  - rewrite (truncateExtracted_short s H) in E. inversion E; subst.
    change Truncate.MAX_CHARS_EXTRACT with 2200 in H.
    repeat split; auto; try lia; try (intros; discriminate).
  - destruct (truncateExtracted_long s H) as [L T]. rewrite E in L, T.
    cbn [fst snd] in L, T. subst wasTruncated.
    change Truncate.MAX_CHARS_EXTRACT with 2200 in H, L.
    repeat split; auto; try lia; try (intros; discriminate).
Qed.

Lemma fresh_fields t tp o w f i :
  body (freshResponse t tp o w f i) !! "text"%string = Some (JString t) /\
  body (freshResponse t tp o w f i) !! "originalLength"%string
  = Some (JNumber o) /\
  body (freshResponse t tp o w f i) !! "extractedLength"%string
  = Some (JNumber (length_of t)) /\
  body (freshResponse t tp o w f i) !! "wasTruncated"%string
  = Some (JBool w) /\
  body (freshResponse t tp o w f i) !! "documentId"%string
  = Some (JNumber i) /\
  body (freshResponse t tp o w f i) !! "pages"%string = Some (JNumber tp) /\
  body (freshResponse t tp o w f i) !! "extractedPages"%string
  = Some (JNumber (if (3 <? tp)%Z then 3 else tp)).
Proof. repeat split; reflexivity. Qed.

(** X13: a request changes the table in one way only.  Either the table
    is as before and the response, if any, does not say [cached: false];
    or the response says [cached: false] and exactly one row was
    appended, with the next id, the name and size of the upload and a
    text of at most 2200 characters, and the response carries that id
    and that text. *)
Theorem POST_appends_one_row_or_none (ext : External) (d : Database.Db)
    (fs : FS) (request : option File) :
  (db (POST ext d fs request) = d /\
   field (POST ext d fs request) "cached" <> Some (JBool false)) \/
  (exists file row,
     request = Some file /\
     Database.documents (db (POST ext d fs request))
     = Database.documents d ++ [row] /\
     Database.sequence (db (POST ext d fs request))
     = (Database.sequence d + 1)%Z /\
     Database.id row = (Database.sequence d + 1)%Z /\
     Database.filename row = name file /\
     Database.original_filename row = name file /\
     Database.file_size row = size file /\
     length (Database.extracted_text row) <= 2200 /\
     field (POST ext d fs request) "cached" = Some (JBool false) /\
     field (POST ext d fs request) "documentId"
     = Some (JNumber (Database.id row)) /\
     field (POST ext d fs request) "text"
     = Some (JString (Database.extracted_text row))).
Proof.
  destruct (POST_outcome ext d fs request)
    as [(file & fs1 & t & tp & used & -> & _ & _ & _ & ->)|(H & C & _)];
    [right | left; auto].
  destruct (store_shape d fs1 file t tp used) as (ft & w & E & ->).
  exists file, (newRow d file ft tp).
  destruct (truncateExtracted_bound _ _ _ E) as (L & _).
  unfold field. cbn [response db Database.documents Database.sequence newRow
                       Database.id Database.filename
                       Database.original_filename Database.file_size
                       Database.extracted_text].
  repeat split; auto.
Qed.

Lemma wellKeyed_append d row :
  wellKeyed d -> Database.id row = (Database.sequence d + 1)%Z ->
  wellKeyed {| Database.documents := Database.documents d ++ [row];
               Database.sequence := (Database.sequence d + 1)%Z |}.
Proof.
  intros (Hseq & Hnd & Hb) Hid. unfold wellKeyed.
  cbn [Database.documents Database.sequence]. split; [lia|]. split.
  - rewrite map_app. apply List.NoDup_app; [exact Hnd| |].
    + repeat constructor. intros [].
    + intros x Hin [Hx|[]]. subst x.
      apply in_map_iff in Hin. destruct Hin as (doc & Hdoc & Hin).
      rewrite List.Forall_forall in Hb. specialize (Hb doc Hin). lia.
  - apply List.Forall_app. split.
    + eapply List.Forall_impl; [|exact Hb]. cbn. intros doc ?. lia.
    + apply List.Forall_cons; [cbv beta; lia | apply List.Forall_nil].
Qed.

(** X14: the handler keeps the ids of the table distinct, positive and
    at most the counter, so a [documentId] it returns names one row. *)
Theorem POST_keeps_ids_distinct (ext : External) (d : Database.Db)
    (fs : FS) (request : option File) :
  wellKeyed d -> wellKeyed (db (POST ext d fs request)).
Proof.
  intros W.
  destruct (POST_outcome ext d fs request)
    as [(file & fs1 & t & tp & used & -> & _ & _ & _ & ->)|(-> & _)];
    [|exact W].
  destruct (store_shape d fs1 file t tp used) as (ft & w & E & ->).
  cbn [db]. now apply wellKeyed_append.
Qed.

Lemma POST_keeps_ids_distinct_witness :
  wellKeyed Database.empty /\
  wellKeyed (db (POST Scenario.ext (db Scenario.first) ∅
                   (Some Scenario.upload))).
Proof.
  assert (W : wellKeyed Database.empty).
  { split; [reflexivity|]. split; cbn; constructor. }
  split; [exact W|].
  apply POST_keeps_ids_distinct. unfold Scenario.first.
  apply POST_keeps_ids_distinct. exact W.
Defined.

(** X15: a response with [cached: false] reports consistent lengths:
    [extractedLength] is the length of [text], at most 2200 and at most
    [originalLength]; [wasTruncated] is set exactly when
    [originalLength] exceeds 2200, and when it is not set the two
    lengths agree. *)
Theorem fresh_response_lengths (ext : External) (d : Database.Db) (fs : FS)
    (request : option File) :
  field (POST ext d fs request) "cached" = Some (JBool false) ->
  exists text originalLength wasTruncated,
    field (POST ext d fs request) "text" = Some (JString text) /\
    field (POST ext d fs request) "extractedLength"
    = Some (JNumber (length_of text)) /\
    field (POST ext d fs request) "originalLength"
    = Some (JNumber (Z.of_nat originalLength)) /\
    field (POST ext d fs request) "wasTruncated"
    = Some (JBool wasTruncated) /\
    length text <= 2200 /\ length text <= originalLength /\
    (wasTruncated = true <-> 2200 < originalLength) /\
    (wasTruncated = false -> length text = originalLength).
Proof.
  intros C.
  destruct (POST_outcome ext d fs request)
    as [(file & fs1 & t & tp & used & _ & _ & _ & _ & E)|(_ & N & _)];
    [|destruct (N C)].
  rewrite E. destruct (store_shape d fs1 file t tp used) as (ft & w & T & ->).
  destruct (truncateExtracted_bound _ _ _ T) as (L1 & L2 & L3 & L4).
  exists ft, (length (Clean.cleanAndProcessText t)), w.
  unfold field. cbn [response].
  destruct (fresh_fields ft tp (length_of (Clean.cleanAndProcessText t)) w
              (name file) (Database.sequence d + 1))
    as (-> & -> & -> & -> & _).
  repeat split; auto; try apply L3. intros ->. now rewrite (L4 eq_refl).
Qed.

Lemma fresh_response_lengths_witness :
  field (POST Scenario.ext Database.empty ∅ (Some Scenario.older)) "cached" = Some (JBool false) /\
  exists text originalLength wasTruncated,
    field (POST Scenario.ext Database.empty ∅ (Some Scenario.older)) "text" = Some (JString text) /\
    field (POST Scenario.ext Database.empty ∅ (Some Scenario.older)) "extractedLength"
    = Some (JNumber (length_of text)) /\
    field (POST Scenario.ext Database.empty ∅ (Some Scenario.older)) "originalLength"
    = Some (JNumber (Z.of_nat originalLength)) /\
    field (POST Scenario.ext Database.empty ∅ (Some Scenario.older)) "wasTruncated" = Some (JBool wasTruncated) /\
    length text <= 2200 /\ length text <= originalLength /\
    (wasTruncated = true <-> 2200 < originalLength) /\
    (wasTruncated = false -> length text = originalLength).
Proof.
  assert (C : field (POST Scenario.ext Database.empty ∅ (Some Scenario.older)) "cached" = Some (JBool false))
    by (vm_compute; reflexivity).
  split; [exact C|].
  exact (fresh_response_lengths Scenario.ext Database.empty ∅
           (Some Scenario.older) C).
Defined.

(** *** Buffer checks *)

Lemma validate_size file : validate file = None -> (100 <= size file)%Z.
Proof.
  unfold validate. destruct (negb _); [discriminate|].
  destruct (_ <? size file)%Z; [discriminate|].
  destruct (Z.ltb_spec (size file) 100); [discriminate|]. auto.
Qed.

Lemma afterTextLayer_calls_head ext d fs file t tp :
  exists rest,
    calls (afterTextLayer ext d fs file t tp) = CallPdfReader :: rest.
Proof.
  unfold afterTextLayer. destruct (length (Clean.trim t) <? 50).
  - destruct (Ocr.extractTextWithOCR _ _ _ _) as [[ocrText|e] fs1].
    + destruct (Clean.trim ocrText); [eauto|].
      rewrite store_calls. eauto.
    + eauto.
  - rewrite store_calls. eauto.
Qed.

(** X17: for an upload that passes validation and misses the cache, and
    whose size is the length of its buffer, the parser is started
    exactly when the buffer begins with the four bytes of [%PDF];
    without them the answer is 400 [Invalid PDF file format], nothing
    is stored and no library is called. *)
Theorem missing_header_rejected (ext : External) (d : Database.Db) (fs : FS)
    (file : File) :
  validate file = None -> cacheCheck d file = None ->
  size file = Z.of_nat (length (bytes file)) ->
  (In CallPdfReader (calls (POST ext d fs (Some file)))
   <-> take 4 (bytes file) = [37; 80; 68; 70]%N) /\
  (take 4 (bytes file) <> [37; 80; 68; 70]%N ->
   POST ext d fs (Some file)
   = {| response :=
          Some (respond 400
                  "Invalid PDF file format. Please ensure you uploaded a valid PDF.");
        db := d; files := fs; calls := [] |}).
Proof.
  intros V C S. pose proof (validate_size file V) as H100.
  cbn [POST]. rewrite V, C. unfold textLayer.
  destruct (bytes file) as [|b0 rest] eqn:B; [cbn in S; lia|].
  destruct (bool_decide (take 4 (b0 :: rest) = [37; 80; 68; 70]%N)) eqn:Hd;
    cbn [negb].
  - apply bool_decide_eq_true in Hd. split; [|intros N; destruct (N Hd)].
    split; [intros _; exact Hd|]. intros _.
    destruct (PdfText.settled _) as [[t|e]|]; [|now left|now left].
    match goal with
    | |- In _ (calls (afterTextLayer ?a ?b ?c ?e ?f ?g)) =>
        destruct (afterTextLayer_calls_head a b c e f g) as [l ->]
    end.
    now left.
  - apply bool_decide_eq_false in Hd. split; [|intros _; reflexivity].
    split; [intros []|intros E; destruct (Hd E)].
Qed.

Lemma missing_header_rejected_witness :
  validate {| name := js "notes.pdf"; type := js "application/pdf";
              size := 100; bytes := repeat 0%N 100 |} = None /\
  response (POST Scenario.ext Database.empty ∅
              (Some {| name := js "notes.pdf"; type := js "application/pdf";
                       size := 100; bytes := repeat 0%N 100 |}))
  = Some (respond 400
            "Invalid PDF file format. Please ensure you uploaded a valid PDF.").
Proof.
  assert (V : validate {| name := js "notes.pdf"; type := js "application/pdf";
                          size := 100; bytes := repeat 0%N 100 |} = None)
    by reflexivity.
  split; [exact V|].
  rewrite (proj2 (missing_header_rejected Scenario.ext Database.empty ∅ _
                    V eq_refl eq_refl)); [reflexivity|].
  vm_compute. discriminate.
Defined.

(** *** Lookups after an insertion *)

Lemma find_app {A} (p : A -> bool) l l' :
  List.find p (l ++ l')
  = match List.find p l with
    | Some x => Some x
    | None => List.find p l'
    end.
Proof.
  induction l as [|x r IH]; [reflexivity|]. cbn [app List.find].
  destruct (p x); [reflexivity | exact IH].
Qed.

(** X18: an insertion never changes which row a file name finds: the
    row found before is found after, and the new row is found only for
    a name that no row bore. *)
Theorem findByFilename_insert (d : Database.Db) (fname oname : jsstring)
    (fsize : Z) (etext : jsstring) (pcount epages : Z) (key : jsstring) :
  Database.findByFilename
    (fst (Database.insert d fname oname fsize etext pcount epages)) key
  = match Database.findByFilename d key with
    | Some row => Some row
    | None =>
        if bool_decide (fname = key)
        then Some {| Database.id := Database.sequence d + 1;
                     Database.filename := fname;
                     Database.original_filename := oname;
                     Database.file_size := fsize;
                     Database.extracted_text := etext;
                     Database.page_count := pcount;
                     Database.extracted_pages := epages |}
        else None
    end.
Proof.
  unfold Database.findByFilename, Database.insert.
  cbn [fst Database.documents]. rewrite find_app.
  destruct (List.find _ (Database.documents d)); [reflexivity|].
  cbn [List.find Database.filename]. destruct (bool_decide (fname = key));
    reflexivity.
Qed.

(** *** A repeated upload *)



(** *** The components a request reaches *)


(** *** Text without readable characters *)

(** X22: the handler checks for empty text before the cleaning, not
    after it.  A text layer of 50 characters or more, none of them a
    word character or a listed punctuation mark, skips the OCR fallback
    and is stored and answered with status 200 and an empty [text]. *)
Theorem symbol_text_stored_empty (ext : External) (d : Database.Db)
    (fs : FS) (request : option File) (t : jsstring) :
  extracts ext d request t ->
  50 <= length (Clean.trim t) ->
  Shape.symbolsOnly t = true ->
  exists resp,
    response (POST ext d fs request) = Some resp /\
    status resp = 200%Z /\
    body resp !! "text"%string = Some (JString []) /\
    body resp !! "extractedLength"%string = Some (JNumber 0) /\
    body resp !! "cached"%string = Some (JBool false) /\
    calls (POST ext d fs request) = [CallPdfReader; CallInsert].
Proof.
  intros X L S.
  destruct (POST_extracts ext d fs request t X) as (file & tp & _ & ->).
  unfold afterTextLayer.
  destruct (Nat.ltb_spec (length (Clean.trim t)) 50); [lia|].
  destruct (store_shape d fs file t tp [CallPdfReader]) as (ft & w & T & ->).
  rewrite (CleanShapeFacts.clean_symbols t S) in T.
  rewrite (truncateExtracted_short []) in T
    by (cbn; unfold Truncate.MAX_CHARS_EXTRACT; lia).
  inversion T; subst ft w.
  eexists. split; [reflexivity|]. repeat split; reflexivity.
Qed.

Lemma symbol_text_stored_empty_witness :
  exists ext,
    extracts ext Database.empty (Some Scenario.older) (repeat 20013%N 60) /\
    50 <= length (Clean.trim (repeat 20013%N 60)) /\
    Shape.symbolsOnly (repeat 20013%N 60) = true /\
    field (POST ext Database.empty ∅ (Some Scenario.older)) "text"
    = Some (JString []).
Proof.
  exists {| pdfEvents := fun _ =>
              [PdfText.CbItem {| PdfText.page := None;
                                 PdfText.text := Some (repeat 20013%N 60) |};
               PdfText.CbEnd];
            ocrEnv := Scenario.env |}.
  assert (X : extracts
                {| pdfEvents := fun _ =>
                     [PdfText.CbItem {| PdfText.page := None;
                                        PdfText.text := Some (repeat 20013%N 60) |};
                      PdfText.CbEnd];
                   ocrEnv := Scenario.env |}
                Database.empty (Some Scenario.older) (repeat 20013%N 60)).
  { exists Scenario.older, 0%Z. repeat split; vm_compute; reflexivity. }
  assert (L : 50 <= length (Clean.trim (repeat 20013%N 60)))
    by (apply Nat.leb_le; vm_compute; reflexivity).
  assert (S : Shape.symbolsOnly (repeat 20013%N 60) = true)
    by (vm_compute; reflexivity).
  split; [exact X|]. split; [exact L|]. split; [exact S|].
  destruct (symbol_text_stored_empty _ Database.empty ∅ _ _ X L S)
    as (resp & R & _ & T & _).
  unfold field. rewrite R. exact T.
Defined.

End ExtractMoreFacts.

(** ** Further properties of the voice choice, and the client *)

Module ClientFacts.
Import Voice VoiceFacts ExtractPdf.

(** X23: the voice is the mapped one or the default exactly for the
    languages that are not named like a member of [Object.prototype];
    for those names the read yields the inherited member instead. *)
Theorem voiceId_string_iff (language : jsstring) :
  voiceId language = VString (default DEFAULT_VOICE (voiceMap !! language))
  <-> (forall p, In p objectPrototype -> js p <> language).
Proof.
  split; [|apply voiceId_total].
  intros H p Hin Heq. subst language. unfold objectPrototype in Hin.
  repeat (destruct Hin as [<-|Hin]; [vm_compute in H; discriminate H|]).
  destruct Hin.
Qed.

(** X24: every language the client offers has an entry of its own in
    [voiceMap], so a request sent by the page never gets the default
    voice by fallback, nor an inherited member. *)
Theorem offered_languages_have_voice (language : jsstring) :
  In language Page.languages ->
  exists v, voiceMap !! language = Some v /\ voiceId language = VString v.
Proof.
  unfold Page.languages. intros H.
  repeat (destruct H as [<-|H];
          [eexists; split; vm_compute; reflexivity|]).
  destruct H.
Qed.

Lemma offered_languages_have_voice_witness :
  In (js "Telugu") Page.languages /\
  exists v, voiceMap !! js "Telugu" = Some v /\
            voiceId (js "Telugu") = VString v.
Proof.
  assert (H : In (js "Telugu") Page.languages) by (right; left; reflexivity).
  split; [exact H|]. exact (offered_languages_have_voice (js "Telugu") H).
Defined.

(** X25: the validation of the handler is the check of the client with
    a lower bound added: an upload is validated exactly when the client
    would send it and it has at least 100 bytes. *)
Theorem server_validation_is_client_check (file : File) :
  validate file = None
  <-> Page.uploadAccepted file = true /\ (100 <= size file)%Z.
Proof.
  unfold validate, Page.uploadAccepted.
  destruct (bool_decide (type file = js "application/pdf")); cbn [negb andb].
  - destruct (10 * 1024 * 1024 <? size file)%Z; cbn [negb].
    + split; [discriminate | intros [H _]; discriminate H].
    + destruct (Z.ltb_spec (size file) 100).
      * split; [discriminate | intros [_ H']; lia].
      * split; auto.
  - split; [discriminate | intros [H _]; discriminate H].
Qed.

End ClientFacts.

(** ** The speech handler *)

Module GenerateAudioFacts.
Import Js GenerateAudio TruncateFacts.


Lemma respond_status st message : status (respond st message) = st.
Proof. reflexivity. Qed.

Lemma respond_field st message key :
  key <> "error"%string -> body (respond st message) !! key = None.
Proof.
  intros H. unfold respond. cbn [body].
  apply lookup_singleton_None. congruence.
Qed.

(** An error response is one of four, none with status 200 and none
    with a field besides [error]. *)
Lemma handleError_respond e :
  exists st message,
    handleError e = respond st message /\ st <> 200%Z.
Proof.
  unfold handleError.
  destruct (includes (js "Unauthenticated") e); [eexists _, _; split; [reflexivity|lia]|].
  destruct (_ || _ || _); [eexists _, _; split; [reflexivity|lia]|].
  destruct (_ || _); eexists _, _; (split; [reflexivity|lia]).
Qed.

Lemma POST_shape ext d request :
  RunShape ext d request (POST ext d request).
Proof.
  destruct request as [b|e]; cbn [POST].
  2:{ destruct (handleError_respond e) as (st & m & -> & Hst).
      now apply (Rejected _ _ _ _ st m). }
  destruct (text b) as [[|t0 t]|] eqn:T;
    try (apply (Rejected _ _ _ _ 400 "Text and language are required");
         [lia | reflexivity]).
  destruct (language b) as [[|l0 l]|] eqn:L;
    try (apply (Rejected _ _ _ _ 400 "Text and language are required");
         [lia | reflexivity]).
  destruct (apiKey b) as [[|k0 k]|] eqn:K;
    try (apply (Rejected _ _ _ _ 400 "ElevenLabs API key is required");
         [lia | reflexivity]).
  destruct (cacheCheck ext d b) as [[cachedAudio data]|] eqn:C.
  - now apply (Cached _ _ _ _ b cachedAudio data).
  - now apply (Synthesized _ _ _ _ b (t0 :: t) (l0 :: l) (k0 :: k)).
Qed.

(** What [synthesize] yields, case by case. *)
Lemma synthesize_cases ext d txt lang key tid :
  let call := CallConvert (Voice.voiceId lang)
                (Truncate.truncateForSpeech txt) key in
  (exists st message,
     st <> 200%Z /\
     response (synthesize ext d txt lang key tid) = respond st message /\
     db (synthesize ext d txt lang key tid) = d /\
     (calls (synthesize ext d txt lang key tid) = [call] \/
      calls (synthesize ext d txt lang key tid) = [call; CallInsert])) \/
  (exists chunks,
     convert ext (Voice.voiceId lang) (Truncate.truncateForSpeech txt) key
     = Returned chunks /\
     truthyNumber tid = false /\
     synthesize ext d txt lang key tid
     = {| response :=
            freshResponse (DATA_URL ++ base64 ext (concat chunks)) JNull
              (Truncate.truncateForSpeech txt);
          db := d; calls := [call] |}) \/
  (exists chunks n,
     convert ext (Voice.voiceId lang) (Truncate.truncateForSpeech txt) key
     = Returned chunks /\
     tid = Some n /\ n <> 0%Z /\ insertError ext = None /\
     synthesize ext d txt lang key tid
     = {| response :=
            freshResponse (DATA_URL ++ base64 ext (concat chunks))
              (JNumber (AudioQueries.sequence d + 1))
              (Truncate.truncateForSpeech txt);
          db := fst (AudioQueries.insert d (now ext) n lang
                       (Voice.voiceId lang) (length_of (concat chunks))
                       (DATA_URL ++ base64 ext (concat chunks)));
          calls := [call; CallInsert] |}).
Proof.
  cbv zeta. unfold synthesize.
  destruct (convert ext _ _ _) as [chunks|e].
  2:{ left. destruct (handleError_respond e) as (st & m & -> & Hst).
      exists st, m. auto. }
  destruct tid as [n|].
  2:{ right. left. exists chunks. auto. }
  destruct (Z.eqb_spec n 0) as [->|Hn]; cbn [negb].
  { right. left. exists chunks. auto. }
  destruct (insertError ext) as [e|] eqn:I.
  - left. destruct (handleError_respond e) as (st & m & -> & Hst).
    exists st, m. auto.
  - right. right. exists chunks, n. auto 10.
Qed.




Lemma audio_cached_fields cachedAudio data :
  status (cachedResponse cachedAudio data) = 200%Z /\
  body (cachedResponse cachedAudio data) !! "audioData"%string
  = Some (JString data) /\
  body (cachedResponse cachedAudio data) !! "audioId"%string
  = Some (JNumber (AudioQueries.id cachedAudio)) /\
  body (cachedResponse cachedAudio data) !! "cached"%string
  = Some (JBool true) /\
  body (cachedResponse cachedAudio data) !! "charactersUsed"%string
  = Some (JNumber 0).
Proof. repeat split; reflexivity. Qed.


Lemma newest_single r : AudioQueries.newest [r] = [r].
Proof.
  unfold AudioQueries.newest. cbn [List.filter forallb].
  now rewrite Z.leb_refl.
Qed.

Lemma filter_none {A} (p : A -> bool) l :
  (forall x, In x l -> p x = false) -> List.filter p l = [].
Proof.
  induction l as [|x r IH]; [reflexivity|]. intros H. cbn [List.filter].
  rewrite (H x) by now left. apply IH. intros y Hy. apply H. now right.
Qed.

(** X28: insert/lookup round trip of the speech cache.  After a request
    for a transcreation without rows was synthesized and stored, every
    valid request that names that transcreation is answered from the
    cache with the stored audio and its id, whatever its text and
    language, reports no characters used, calls nothing and leaves the
    table alone. *)
Theorem stored_audio_is_served (ext ext' : External) (d : AudioQueries.Db)
    (b b' : Body) (tid : Z) :
  chooses (pick ext') ->
  body (response (POST ext d (Returned b))) !! "cached"%string
  = Some (JBool false) ->
  transcreationId b = Some tid -> tid <> 0%Z ->
  (forall r, In r (AudioQueries.audio_files d) ->
             AudioQueries.transcreation_id r <> tid) ->
  truthyString (text b') = true -> truthyString (language b') = true ->
  truthyString (apiKey b') = true ->
  transcreationId b' = Some tid ->
  let first := POST ext d (Returned b) in
  let second := POST ext' (db first) (Returned b') in
  body (response second) !! "cached"%string = Some (JBool true) /\
  body (response second) !! "audioData"%string
  = body (response first) !! "audioData"%string /\
  body (response second) !! "audioId"%string
  = body (response first) !! "audioId"%string /\
  body (response second) !! "charactersUsed"%string = Some (JNumber 0) /\
  calls second = [] /\ db second = db first.
Proof.
  intros Hpick Hfresh Htid Hnz Hnone Ht' Hl' Hk' Htid'. cbv zeta.
  destruct (POST_shape ext d (Returned b))
    as [st m _ E | b0 ca data _ _ E | b0 txt lang k Hreq _ _ _ _ _ _ _ E].
  { rewrite E in Hfresh. cbn [response] in Hfresh.
    rewrite respond_field in Hfresh by discriminate. discriminate. }
  { rewrite E in Hfresh. discriminate Hfresh. }
  inversion Hreq; subst b0. clear Hreq. rewrite E in *. clear E.
  rewrite Htid in *.
  destruct (synthesize_cases ext d txt lang k (Some tid))
    as [(st & m & _ & Hr & _)
       |[(chunks & _ & Hn & _)|(chunks & n & _ & Hn & _ & _ & S)]].
  { rewrite Hr in Hfresh. rewrite respond_field in Hfresh by discriminate.
    discriminate. }
  { cbn in Hn. destruct (Z.eqb_spec tid 0); [tauto | discriminate]. }
  inversion Hn; subst n. clear Hn. rewrite S. cbn [db response].
  set (data := DATA_URL ++ base64 ext (concat chunks)).
  set (row := {| AudioQueries.id := AudioQueries.sequence d + 1;
                 AudioQueries.transcreation_id := tid;
                 AudioQueries.language := lang;
                 AudioQueries.voice_id := Voice.voiceId lang;
                 AudioQueries.audio_size := length_of (concat chunks);
                 AudioQueries.audio_data := Some data;
                 AudioQueries.created_at := now ext |}).
  assert (Hit : cacheCheck ext'
                  (fst (AudioQueries.insert d (now ext) tid lang
                          (Voice.voiceId lang) (length_of (concat chunks))
                          data)) b' = Some (row, data)).
  { unfold cacheCheck. rewrite Htid'.
    destruct (Z.eqb_spec tid 0); [tauto|]. cbn [negb].
    unfold AudioQueries.findByTranscreation, AudioQueries.insert.
    cbn [fst AudioQueries.audio_files]. rewrite List.filter_app.
    rewrite filter_none.
    2:{ intros x Hx. apply bool_decide_eq_false_2. now apply Hnone. }
    cbn [app List.filter AudioQueries.transcreation_id].
    rewrite bool_decide_eq_true_2 by reflexivity.
    fold row. rewrite newest_single.
    pose proof (Hpick [row]) as P. destruct (pick ext' [row]) as [r|].
    - destruct P as [<-|[]]. reflexivity.
    - discriminate P. }
  cbn [POST].
  destruct (text b') as [[|t0 t]|]; try discriminate Ht'.
  destruct (language b') as [[|l0 l]|]; try discriminate Hl'.
  destruct (apiKey b') as [[|k0 k1]|]; try discriminate Hk'.
  rewrite Hit. cbn [response calls db]. repeat split; reflexivity.
Qed.

Lemma stored_audio_is_served_witness :
  chooses (pick AudioScenario.ext) /\
  body (response (POST AudioScenario.ext
                    (db (POST AudioScenario.ext AudioQueries.empty
                           (Returned AudioScenario.request)))
                    (Returned AudioScenario.later))) !! "audioData"%string
  = Some (JString (js "data:audio/mpeg;base64,SUQz")).
Proof.
  assert (P : chooses (pick AudioScenario.ext)).
  { intros [|r rows]; cbn; auto. }
  split; [exact P|].
  destruct (stored_audio_is_served AudioScenario.ext AudioScenario.ext
              AudioQueries.empty AudioScenario.request AudioScenario.later 7
              P eq_refl eq_refl)
    as (_ & A & _).
  - discriminate.
  - intros r [].
  - reflexivity.
  - reflexivity.
  - reflexivity.
  - reflexivity.
  - rewrite A. reflexivity.
Defined.

(** X29: the table [audio_files] changes in one way only.  A request
    either leaves it as it was, or appends one row for the request's
    transcreation, holding the data URL that the response returns as
    [audioData] and bearing the id it returns as [audioId], with
    [cached: false].  A request without a [transcreationId] (absent,
    [null] or 0) never stores, is never answered from the cache, and
    has [audioId: null] when it succeeds. *)
Theorem audio_table_change (ext : External) (d : AudioQueries.Db)
    (request : Outcome Body) :
  (db (POST ext d request) = d \/
   exists b tid row data,
     request = Returned b /\ transcreationId b = Some tid /\ tid <> 0%Z /\
     AudioQueries.audio_files (db (POST ext d request))
     = AudioQueries.audio_files d ++ [row] /\
     AudioQueries.id row = (AudioQueries.sequence d + 1)%Z /\
     AudioQueries.transcreation_id row = tid /\
     AudioQueries.audio_data row = Some (DATA_URL ++ data) /\
     body (response (POST ext d request)) !! "audioData"%string
     = Some (JString (DATA_URL ++ data)) /\
     body (response (POST ext d request)) !! "audioId"%string
     = Some (JNumber (AudioQueries.id row)) /\
     body (response (POST ext d request)) !! "cached"%string
     = Some (JBool false)) /\
  (forall b, request = Returned b ->
     truthyNumber (transcreationId b) = false ->
     db (POST ext d request) = d /\
     body (response (POST ext d request)) !! "cached"%string
     <> Some (JBool true) /\
     (status (response (POST ext d request)) = 200%Z ->
      body (response (POST ext d request)) !! "audioId"%string
      = Some JNull)).
Proof.
  destruct (POST_shape ext d request)
    as [st m Hst E | b ca data Hreq C E | b txt lang k Hreq _ _ _ _ _ _ _ E];
    rewrite E; clear E.
  - split; [now left|]. intros b _ _. cbn [db response].
    rewrite respond_field by discriminate. rewrite respond_status.
    split; [reflexivity|]. split; [discriminate|]. intros H. destruct (Hst H).
  - split; [now left|]. intros b0 Hb Hn. rewrite Hreq in Hb.
    inversion Hb; subst b0. unfold cacheCheck in C.
    destruct (transcreationId b) as [n|]; [|discriminate C].
    cbn in Hn. rewrite Hn in C. discriminate C.
  - destruct (synthesize_cases ext d txt lang k (transcreationId b))
      as [(st & m & Hst & Hr & Hd & _)
         |[(chunks & _ & Hn & S)|(chunks & n & _ & Hn & Hnz & _ & S)]].
    + rewrite Hd, Hr. split; [now left|]. intros b0 _ _.
      rewrite respond_field by discriminate. rewrite respond_status.
      split; [reflexivity|]. split; [discriminate|].
      intros H. destruct (Hst H).
    + rewrite S. cbn [db response]. split; [now left|]. intros b0 _ _.
      split; [reflexivity|]. split; [discriminate|]. reflexivity.
    + rewrite S. cbn [db response]. split.
      * right. eexists b, n, _, (base64 ext (concat chunks)).
        split; [exact Hreq|]. split; [exact Hn|]. split; [exact Hnz|].
        unfold AudioQueries.insert. cbn [fst AudioQueries.audio_files].
        split; [reflexivity|]. repeat split; reflexivity.
      * intros b0 Hb Hf. rewrite Hreq in Hb. inversion Hb; subst b0.
        rewrite Hn in Hf. cbn in Hf.
        destruct (Z.eqb_spec n 0); [tauto | discriminate Hf].
Qed.

End GenerateAudioFacts.

(** ** The transcreation handler *)

Module TranscreateFacts.
Import Js Transcreate.

Lemma respondT_field st message key :
  key <> "error"%string -> body (respond st message) !! key = None.
Proof.
  intros H. unfold respond. cbn [body].
  apply lookup_singleton_None. congruence.
Qed.

Lemma handleErrorT_respond e :
  exists st message, handleError e = respond st message /\ st <> 200%Z.
Proof.
  unfold handleError.
  destruct (_ || _); [eexists _, _; split; [reflexivity|lia]|].
  destruct (_ || _ || _); [eexists _, _; split; [reflexivity|lia]|].
  destruct (_ || _); eexists _, _; (split; [reflexivity|lia]).
Qed.

Lemma POSTT_shape ext d request : RunShape ext d request (POST ext d request).
Proof.
  destruct request as [b|e]; cbn [POST].
  2:{ destruct (handleErrorT_respond e) as (st & m & -> & Hst).
      now apply (Rejected _ _ _ _ st m). }
  destruct (text b) as [[|t0 t]|] eqn:T;
    try (apply (Rejected _ _ _ _ 400 "Text and target language are required");
         [lia | reflexivity]).
  destruct (targetLanguage b) as [[|l0 l]|] eqn:L;
    try (apply (Rejected _ _ _ _ 400 "Text and target language are required");
         [lia | reflexivity]).
  destruct (apiKey b) as [[|k0 k]|] eqn:K;
    try (apply (Rejected _ _ _ _ 400 "Google Gemini API key is required");
         [lia | reflexivity]).
  destruct (cacheCheck ext d b (l0 :: l)) as [cached|] eqn:C.
  - now apply (Cached _ _ _ _ b (l0 :: l) cached).
  - now apply (Generated _ _ _ _ b (t0 :: t) (l0 :: l) (k0 :: k)).
Qed.



(** What [generate] yields, case by case. *)
Lemma generate_cases ext d txt lang key doc :
  (exists st message,
     st <> 200%Z /\
     response (generate ext d txt lang key doc) = respond st message /\
     db (generate ext d txt lang key doc) = d /\
     (calls (generate ext d txt lang key doc)
      = [CallCountTokens key (prompt lang txt)] \/
      exists tokens rest,
        countTokens ext key (prompt lang txt) = Returned tokens /\
        calls (generate ext d txt lang key doc)
        = CallCountTokens key (prompt lang txt)
            :: CallGenerateContent key (prompt lang txt) :: rest)) \/
  (exists tokens out,
     countTokens ext key (prompt lang txt) = Returned tokens /\
     generateContent ext key (prompt lang txt) = Returned out /\
     ((doc = None \/ doc = Some 0%Z) /\
      generate ext d txt lang key doc
      = {| response := freshResponse out JNull tokens; db := d;
           calls := [CallCountTokens key (prompt lang txt);
                     CallGenerateContent key (prompt lang txt)] |} \/
      exists n,
        doc = Some n /\ n <> 0%Z /\ insertError ext = None /\
        generate ext d txt lang key doc
        = {| response :=
               freshResponse out
                 (JNumber (TranscreationQueries.sequence d + 1)) tokens;
             db := fst (TranscreationQueries.insert d (now ext) n lang out
                          (length_of txt) (length_of out));
             calls := [CallCountTokens key (prompt lang txt);
                       CallGenerateContent key (prompt lang txt);
                       CallInsert] |})).
Proof.
  unfold generate. cbv zeta.
  destruct (countTokens ext key _) as [tokens|e].
  2:{ left. destruct (handleErrorT_respond e) as (st & m & -> & Hst).
      exists st, m. auto. }
  destruct (generateContent ext key _) as [out|e].
  2:{ left. destruct (handleErrorT_respond e) as (st & m & -> & Hst).
      exists st, m. repeat split; auto. right. eauto. }
  destruct doc as [n|].
  2:{ right. exists tokens, out. auto 10. }
  destruct (Z.eqb_spec n 0) as [->|Hn]; cbn [negb].
  { right. exists tokens, out. auto 10. }
  destruct (insertError ext) as [e|] eqn:I.
  - left. destruct (handleErrorT_respond e) as (st & m & -> & Hst).
    exists st, m. repeat split; auto. right. eauto.
  - right. exists tokens, out. split; [reflexivity|]. split; [reflexivity|].
    right. exists n. auto.
Qed.



Lemma newestT_single r : TranscreationQueries.newest [r] = [r].
Proof.
  unfold TranscreationQueries.newest. cbn [List.filter forallb].
  now rewrite Z.leb_refl.
Qed.

Lemma filterT_none {A} (p : A -> bool) l :
  (forall x, In x l -> p x = false) -> List.filter p l = [].
Proof.
  induction l as [|x r IH]; [reflexivity|]. intros H. cbn [List.filter].
  rewrite (H x) by now left. apply IH. intros y Hy. apply H. now right.
Qed.

(** X30: insert/lookup round trip of the transcreation cache.  After a
    transcreation was generated and stored for a document and language
    without rows, every valid request for that document and language is
    answered from the cache with the stored text and id, whatever its
    text and key, reports no tokens used, calls nothing and leaves the
    table alone. *)
Theorem stored_transcreation_is_served (ext ext' : External)
    (d : TranscreationQueries.Db) (b b' : Body) (doc : Z)
    (lang : jsstring) :
  chooses (pick ext') ->
  body (response (POST ext d (Returned b))) !! "cached"%string
  = Some (JBool false) ->
  documentId b = Some doc -> doc <> 0%Z -> targetLanguage b = Some lang ->
  (forall r, In r (TranscreationQueries.transcreations d) ->
             TranscreationQueries.document_id r = doc ->
             TranscreationQueries.target_language r <> lang) ->
  truthyString (text b') = true -> truthyString (apiKey b') = true ->
  documentId b' = Some doc -> targetLanguage b' = Some lang ->
  let first := POST ext d (Returned b) in
  let second := POST ext' (db first) (Returned b') in
  body (response second) !! "cached"%string = Some (JBool true) /\
  body (response second) !! "transcreatedText"%string
  = body (response first) !! "transcreatedText"%string /\
  body (response second) !! "transcreationId"%string
  = body (response first) !! "transcreationId"%string /\
  body (response second) !! "tokensUsed"%string = Some (JNumber 0) /\
  calls second = [] /\ db second = db first.
Proof.
  intros Hpick Hfresh Hdoc Hnz Hlang Hnone Ht' Hk' Hdoc' Hlang'. cbv zeta.
  destruct (POSTT_shape ext d (Returned b))
    as [st m _ E | b0 l0 c _ _ _ E
       | b0 txt l0 k Hreq _ Hl _ _ Nl _ _ E].
  { rewrite E in Hfresh. cbn [response] in Hfresh.
    rewrite respondT_field in Hfresh by discriminate. discriminate. }
  { rewrite E in Hfresh. discriminate Hfresh. }
  inversion Hreq; subst b0. clear Hreq. rewrite E in *. clear E.
  rewrite Hlang in Hl. inversion Hl; subst l0. clear Hl.
  rewrite Hdoc in *.
  destruct (generate_cases ext d txt lang k (Some doc))
    as [(st & m & _ & Hr & _)
       |(tokens & out & _ & _ & [[[Hn|Hn] _]|(n & Hn & _ & _ & S)])].
  { rewrite Hr in Hfresh. rewrite respondT_field in Hfresh by discriminate.
    discriminate. }
  { discriminate Hn. }
  { inversion Hn. tauto. }
  inversion Hn; subst n. clear Hn. rewrite S. cbn [db response].
  set (row := {| TranscreationQueries.id := TranscreationQueries.sequence d + 1;
                 TranscreationQueries.document_id := doc;
                 TranscreationQueries.target_language := lang;
                 TranscreationQueries.transcreated_text := out;
                 TranscreationQueries.original_length := length_of txt;
                 TranscreationQueries.transcreated_length := length_of out;
                 TranscreationQueries.created_at := now ext |}).
  assert (Hit : cacheCheck ext'
                  (fst (TranscreationQueries.insert d (now ext) doc lang out
                          (length_of txt) (length_of out))) b' lang
                = Some row).
  { unfold cacheCheck. rewrite Hdoc'.
    destruct (Z.eqb_spec doc 0); [tauto|]. cbn [negb].
    unfold TranscreationQueries.findByDocumentAndLanguage,
      TranscreationQueries.insert.
    cbn [fst TranscreationQueries.transcreations]. rewrite List.filter_app.
    rewrite filterT_none.
    2:{ intros x Hx.
        destruct (bool_decide (TranscreationQueries.document_id x = doc))
          eqn:D; [|reflexivity].
        apply bool_decide_eq_true in D. cbn [andb].
        apply bool_decide_eq_false_2. now apply Hnone. }
    cbn [app List.filter TranscreationQueries.document_id
           TranscreationQueries.target_language].
    rewrite !bool_decide_eq_true_2 by reflexivity. cbn [andb].
    fold row. rewrite newestT_single.
    pose proof (Hpick [row]) as P. destruct (pick ext' [row]) as [r|].
    - destruct P as [<-|[]]. reflexivity.
    - discriminate P. }
  cbn [POST]. rewrite Hlang'.
  destruct (text b') as [[|t0 t]|]; try discriminate Ht'.
  destruct lang as [|l0 l]; [congruence|].
  destruct (apiKey b') as [[|k0 k1]|]; try discriminate Hk'.
  rewrite Hit. cbn [response calls db]. repeat split; reflexivity.
Qed.

Lemma stored_transcreation_is_served_witness :
  chooses (pick TranscreateScenario.ext) /\
  body (response (POST TranscreateScenario.ext
                    (db (POST TranscreateScenario.ext
                           TranscreationQueries.empty
                           (Returned TranscreateScenario.request)))
                    (Returned TranscreateScenario.later)))
    !! "transcreatedText"%string
  = Some (JString (js "Namaste duniya.")).
Proof.
  assert (P : chooses (pick TranscreateScenario.ext)).
  { intros [|r rows]; cbn; auto. }
  split; [exact P|].
  destruct (stored_transcreation_is_served TranscreateScenario.ext
              TranscreateScenario.ext TranscreationQueries.empty
              TranscreateScenario.request TranscreateScenario.later 3
              (js "Hindi") P eq_refl eq_refl)
    as (_ & A & _).
  - discriminate.
  - reflexivity.
  - intros r [].
  - reflexivity.
  - reflexivity.
  - reflexivity.
  - reflexivity.
  - rewrite A. reflexivity.
Defined.

End TranscreateFacts.
